(** * qcompiler: staged build pipeline (bytecode, archive, executable)

    A shallow embedding of [src/py/qcompiler/qcompiler.py] and the
    properties of its directory staging, file indexing, argument
    construction and multi-target merging.

    Conventions of the embedding.
    - Python [str] values are Rocq strings; the [os.path] functions are the
      POSIX ones ([posixpath]), transcribed from the library.
    - The filesystem of the build methods is a finite tree of regular
      files and directories, without permission bits; a path names the
      place [os.path.normpath] makes of it.  [clean_directory] is also
      given over a filesystem with symbolic links and the walk of a path
      that the kernel makes ([Posix]).
    - Methods that touch the filesystem, the working directory or the error
      stream are state transformers [world -> result A * world]; a raised
      exception keeps the state reached when it was raised.
    - Recursive methods take a recursion budget ([fuel]); the theorems give
      a budget that is enough.
    - Output written with [print] to the standard output is not modelled. *)

From Stdlib Require Import String Ascii List Bool Arith ZArith DecimalString Lia.
Import ListNotations.
Open Scope string_scope.

(** ** Python [str] methods used by the program *)

Module Str.

Definition slash : ascii := "/"%char.
Definition backslash : ascii := "\"%char.
Definition dot : ascii := "."%char.

(** [x in xs] for a list of strings. *)
Definition mem (x : string) (xs : list string) : bool :=
  existsb (String.eqb x) xs.

(** [s.replace(a, b)] for one-character [a] and [b]. *)
Fixpoint replace (a b : ascii) (s : string) : string :=
  match s with
  | EmptyString => EmptyString
  | String c r => String (if Ascii.eqb c a then b else c) (replace a b r)
  end.

(** [s.upper()] on ASCII text. *)
Definition upper_char (c : ascii) : ascii :=
  let n := nat_of_ascii c in
  if Nat.leb 97 n && Nat.leb n 122 then ascii_of_nat (n - 32) else c.

Fixpoint upper (s : string) : string :=
  match s with
  | EmptyString => EmptyString
  | String c r => String (upper_char c) (upper r)
  end.

(** [s.startswith(p)] *)
Fixpoint startswith (s p : string) {struct p} : bool :=
  match p with
  | EmptyString => true
  | String b p' =>
      match s with
      | EmptyString => false
      | String a s' => Ascii.eqb a b && startswith s' p'
      end
  end.

Fixpoint rev_acc (s acc : string) : string :=
  match s with
  | EmptyString => acc
  | String c r => rev_acc r (String c acc)
  end.

Definition rev (s : string) : string := rev_acc s EmptyString.

(** [s.endswith(p)]: some suffix of [s] is [p]. *)
Fixpoint endswith (s p : string) : bool :=
  String.eqb s p ||
  match s with
  | EmptyString => false
  | String _ r => endswith r p
  end.

(** [s.split(c)]: the pieces between the occurrences of [c]; never empty. *)
Fixpoint split (c : ascii) (s : string) : list string :=
  match s with
  | EmptyString => [EmptyString]
  | String a r =>
      if Ascii.eqb a c then EmptyString :: split c r
      else match split c r with
           | h :: t => String a h :: t
           | [] => [String a EmptyString]
           end
  end.

(** [c.join(xs)]. *)
Definition join (c : string) (xs : list string) : string := String.concat c xs.

(** [s.rstrip(c)]. *)
Fixpoint rstrip (c : ascii) (s : string) : string :=
  match s with
  | EmptyString => EmptyString
  | String a r =>
      match rstrip c r with
      | EmptyString => if Ascii.eqb a c then EmptyString else String a EmptyString
      | r' => String a r'
      end
  end.

(** [s == c * len(s)]. *)
Fixpoint all_char (c : ascii) (s : string) : bool :=
  match s with
  | EmptyString => true
  | String a r => Ascii.eqb a c && all_char c r
  end.

Fixpoint contains (c : ascii) (s : string) : bool :=
  match s with
  | EmptyString => false
  | String a r => Ascii.eqb a c || contains c r
  end.

(** [(s[:i], s[i:])] with [i = s.rfind(c) + 1]. *)
Fixpoint rcut (c : ascii) (s : string) : string * string :=
  match s with
  | EmptyString => (EmptyString, EmptyString)
  | String a r =>
      let (h, t) := rcut c r in
      if Ascii.eqb a c || negb (String.eqb h EmptyString)
      then (String a h, t)
      else (EmptyString, String a t)
  end.

Definition is_empty (s : string) : bool := String.eqb s EmptyString.

End Str.

(** ** [posixpath] *)

Module posixpath.

(** [os.path.join(a, b)]. *)
Definition join (a b : string) : string :=
  if Str.startswith b "/" then b
  else if Str.is_empty a || Str.endswith a "/" then a ++ b
  else a ++ "/" ++ b.

(** [os.path.split(p)]: [(head, tail)]. *)
Definition split (p : string) : string * string :=
  let (head, tail) := Str.rcut Str.slash p in
  if negb (Str.is_empty head) && negb (Str.all_char Str.slash head)
  then (Str.rstrip Str.slash head, tail)
  else (head, tail).

Definition basename (p : string) : string := snd (Str.rcut Str.slash p).

(** [os.path.splitext(p)]: the extension starts at the last dot of the
    last component, leading dots of that component not counted. *)
Fixpoint lstrip_dots (s : string) : string :=
  match s with
  | String a r => if Ascii.eqb a Str.dot then lstrip_dots r else s
  | EmptyString => EmptyString
  end.

Definition splitext (p : string) : string * string :=
  let (dir, name) := Str.rcut Str.slash p in
  let (stem, ext) := Str.rcut Str.dot name in
  (* [stem] ends with the last dot of [name], when there is one *)
  match Str.rev stem with
  | EmptyString => (p, EmptyString)
  | String _ rstem =>
      if Str.is_empty (lstrip_dots (Str.rev rstem)) then (p, EmptyString)
      else (dir ++ Str.rev rstem, String Str.dot ext)
  end.

Definition isabs (p : string) : bool := Str.startswith p "/".

(** The component loop of [os.path.normpath]; [acc] is [new_comps]
    reversed. *)
Fixpoint norm_comps (rooted : bool) (comps acc : list string) : list string :=
  match comps with
  | [] => List.rev acc
  | c :: rest =>
      if Str.is_empty c || String.eqb c "." then norm_comps rooted rest acc
      else if negb (String.eqb c "..") then norm_comps rooted rest (c :: acc)
      else match acc with
           | [] => if rooted then norm_comps rooted rest acc
                   else norm_comps rooted rest (c :: acc)
           | top :: acc' =>
               if String.eqb top ".." then norm_comps rooted rest (c :: acc)
               else norm_comps rooted rest acc'
           end
  end.

Definition normpath (path : string) : string :=
  if Str.is_empty path then "."
  else
    let initial_slashes :=
      if Str.startswith path "/" then
        if Str.startswith path "//" && negb (Str.startswith path "///")
        then 2 else 1
      else 0 in
    let comps := norm_comps (Nat.ltb 0 initial_slashes) (Str.split Str.slash path) [] in
    let path' := Str.join "/" comps in
    let path'' :=
      match initial_slashes with
      | 0 => path'
      | 1 => "/" ++ path'
      | _ => "//" ++ path'
      end in
    if Str.is_empty path'' then "." else path''.

(** [os.path.abspath(path)] when [os.getcwd()] is [cwd]. *)
Definition abspath (cwd path : string) : string :=
  normpath (if isabs path then path else join cwd path).

End posixpath.

(** ** The filesystem

    A tree of regular files and directories.  A directory keeps its entries
    in the order [os.listdir] reports them; a new entry goes to the end.
    Symbolic links are in [Posix], further down. *)

#[warnings="-register-all"]
Inductive node : Type :=
| File (data : string)
| Dir (entries : list (string * node)).

Module FS.

Definition path := list string.
Definition entries := list (string * node).

Fixpoint find (n : string) (es : entries) : option node :=
  match es with
  | [] => None
  | (m, c) :: r => if String.eqb n m then Some c else find n r
  end.

Fixpoint set (n : string) (v : node) (es : entries) : entries :=
  match es with
  | [] => [(n, v)]
  | (m, c) :: r => if String.eqb n m then (n, v) :: r else (m, c) :: set n v r
  end.

Fixpoint del (n : string) (es : entries) : entries :=
  match es with
  | [] => []
  | (m, c) :: r => if String.eqb n m then r else (m, c) :: del n r
  end.

Fixpoint lookup (p : path) (t : node) : option node :=
  match p with
  | [] => Some t
  | n :: q =>
      match t with
      | File _ => None
      | Dir es =>
          match find n es with
          | Some c => lookup q c
          | None => None
          end
      end
  end.

(** Rewrite the entries of the directory at [p]; [None] when [p] is not
    a directory of [t]. *)
Fixpoint modify (p : path) (f : entries -> entries) (t : node) : option node :=
  match t with
  | File _ => None
  | Dir es =>
      match p with
      | [] => Some (Dir (f es))
      | n :: q =>
          match find n es with
          | Some c =>
              match modify q f c with
              | Some c' => Some (Dir (set n c' es))
              | None => None
              end
          | None => None
          end
      end
  end.

(** Create the directory [p] and its missing ancestors; [None] when a
    regular file is in the way. *)
Fixpoint mkdirs (p : path) (t : node) : option node :=
  match t with
  | File _ => None
  | Dir es =>
      match p with
      | [] => Some t
      | n :: q =>
          match mkdirs q (match find n es with Some c => c | None => Dir [] end) with
          | Some c' => Some (Dir (set n c' es))
          | None => None
          end
      end
  end.

(** [p] as (parent directory, last name); [None] for the root. *)
Fixpoint unsnoc (p : path) : option (path * string) :=
  match p with
  | [] => None
  | n :: q =>
      match unsnoc q with
      | None => Some ([], n)
      | Some (par, m) => Some (n :: par, m)
      end
  end.

(** Take the entry [p] out of its parent directory; [None] for the root
    and when the parent is not a directory of [t]. *)
Definition remove_entry (p : path) (t : node) : option node :=
  match unsnoc p with
  | Some (par, n) => modify par (del n) t
  | None => None
  end.

Definition is_dir (o : option node) : bool :=
  match o with Some (Dir _) => true | _ => false end.

Definition is_file (o : option node) : bool :=
  match o with Some (File _) => true | _ => false end.

Definition is_some (o : option node) : bool :=
  match o with Some _ => true | None => false end.

(** A name [os.listdir] can report. *)
Definition valid_name (n : string) : bool :=
  negb (Str.is_empty n) && negb (Str.contains Str.slash n)
  && negb (String.eqb n ".") && negb (String.eqb n "..").

(** Every directory of the tree has valid, pairwise distinct names. *)
Fixpoint wf (t : node) : bool :=
  match t with
  | File _ => true
  | Dir es =>
      (fix wf_entries (es : entries) : bool :=
         match es with
         | [] => true
         | (n, c) :: r =>
             valid_name n && negb (is_some (find n r)) && wf c && wf_entries r
         end) es
  end.

Definition wf_entries (es : entries) : bool := wf (Dir es).

(** No name of the tree holds a backslash, which [join_path] would turn
    into a separator. *)
Fixpoint portable (t : node) : bool :=
  match t with
  | File _ => true
  | Dir es =>
      (fix portable_entries (es : entries) : bool :=
         match es with
         | [] => true
         | (n, c) :: r =>
             negb (Str.contains Str.backslash n) && portable c && portable_entries r
         end) es
  end.

(** Nesting depth of the tree. *)
Fixpoint height (t : node) : nat :=
  match t with
  | File _ => 0
  | Dir es =>
      S ((fix height_entries (es : entries) : nat :=
            match es with
            | [] => 0
            | (_, c) :: r => Nat.max (height c) (height_entries r)
            end) es)
  end.

End FS.

(** ** Exceptions, the state and the monad of the methods *)

Inductive exn : Type :=
| FileNotFoundError (path : string)
| NotADirectoryError (path : string)
| IsADirectoryError (path : string)
| FileExistsError (path : string)
| OSError (msg : string)
| ShutilError (msg : string)
| AttributeError (attribute : string)
| ValueError (args : list string)
| CompilerError (msg : string)
| ZipAppError (msg : string)
| IndexError
| SystemExit (msg : string)
| RecursionError.

Inductive result (A : Type) : Type :=
| Ok (a : A)
| Raise (e : exn).

Arguments Ok {A} a.
Arguments Raise {A} e.

(** The part of the process and machine the program acts on. *)
Record world : Type := mkWorld {
  root : node;                 (* the filesystem *)
  cwd : FS.path;               (* [os.getcwd()], as components from the root *)
  stderr : list string;        (* what was written to [sys.stderr], in order *)
  argv : list string;          (* [sys.argv] *)
  heap : list (list string)    (* the mutable [list] objects, by address *)
}.

Definition set_root (w : world) (r : node) : world :=
  mkWorld r (cwd w) (stderr w) (argv w) (heap w).

Definition set_cwd (w : world) (c : FS.path) : world :=
  mkWorld (root w) c (stderr w) (argv w) (heap w).

Definition set_stderr (w : world) (e : list string) : world :=
  mkWorld (root w) (cwd w) e (argv w) (heap w).

Definition set_argv (w : world) (a : list string) : world :=
  mkWorld (root w) (cwd w) (stderr w) a (heap w).

Definition set_heap (w : world) (h : list (list string)) : world :=
  mkWorld (root w) (cwd w) (stderr w) (argv w) h.

Definition M (A : Type) : Type := world -> result A * world.

Definition ret {A} (a : A) : M A := fun w => (Ok a, w).

Definition raise {A} (e : exn) : M A := fun w => (Raise e, w).

Definition bind {A B} (m : M A) (k : A -> M B) : M B :=
  fun w =>
    match m w with
    | (Ok a, w') => k a w'
    | (Raise e, w') => (Raise e, w')
    end.

Notation "x <- m ;; k" := (bind m (fun x => k))
  (at level 61, m at next level, right associativity).
Notation "m ;; k" := (bind m (fun _ => k))
  (at level 61, right associativity).

(** [for x in xs: body(x)] *)
Fixpoint for_each {A} (xs : list A) (body : A -> M unit) : M unit :=
  match xs with
  | [] => ret tt
  | x :: r => body x ;; for_each r body
  end.

(** [if c: body] *)
Definition when (c : bool) (body : M unit) : M unit :=
  if c then body else ret tt.

(** ** [os], [shutil] and [sys] as far as the program uses them *)

Module os.

Definition getcwd_of (w : world) : string := "/" ++ Str.join "/" (cwd w).

Definition getcwd : M string := fun w => (Ok (getcwd_of w), w).

(** The place a path string names: relative paths start at the working
    directory, [.] and empty components are dropped and [..] steps back.
    The empty string names nothing. *)
Definition resolve (w : world) (s : string) : option FS.path :=
  if Str.is_empty s then None
  else Some (posixpath.norm_comps true
               ((if posixpath.isabs s then [] else cwd w) ++ Str.split Str.slash s) []).

Definition stat (w : world) (s : string) : option node :=
  match resolve w s with
  | Some p => FS.lookup p (root w)
  | None => None
  end.

Definition path_exists (s : string) : M bool :=
  fun w => (Ok (FS.is_some (stat w s)), w).

Definition path_isdir (s : string) : M bool :=
  fun w => (Ok (FS.is_dir (stat w s)), w).

Definition path_isfile (s : string) : M bool :=
  fun w => (Ok (FS.is_file (stat w s)), w).

Definition listdir (s : string) : M (list string) :=
  fun w =>
    match stat w s with
    | Some (Dir es) => (Ok (map fst es), w)
    | Some (File _) => (Raise (NotADirectoryError s), w)
    | None => (Raise (FileNotFoundError s), w)
    end.

(** Rewrite the entries of the parent of [s]. *)
Definition modify_parent (s : string) (f : string -> FS.entries -> FS.entries)
  : M unit :=
  fun w =>
    match resolve w s with
    | None => (Raise (FileNotFoundError s), w)
    | Some p =>
        match FS.unsnoc p with
        | None => (Raise (OSError s), w)
        | Some (par, n) =>
            match FS.modify par (f n) (root w) with
            | Some r' => (Ok tt, set_root w r')
            | None => (Raise (FileNotFoundError s), w)
            end
        end
    end.

Definition remove (s : string) : M unit :=
  fun w =>
    match stat w s with
    | Some (File _) => modify_parent s FS.del w
    | Some (Dir _) => (Raise (IsADirectoryError s), w)
    | None => (Raise (FileNotFoundError s), w)
    end.

Definition rmdir (s : string) : M unit :=
  fun w =>
    match stat w s with
    | Some (Dir []) => modify_parent s FS.del w
    | Some (Dir (_ :: _)) => (Raise (OSError s), w)
    | Some (File _) => (Raise (NotADirectoryError s), w)
    | None => (Raise (FileNotFoundError s), w)
    end.

(** [os.makedirs(s)], with [exist_ok=False]. *)
Definition makedirs (s : string) : M unit :=
  fun w =>
    match resolve w s with
    | None => (Raise (FileNotFoundError s), w)
    | Some p =>
        match FS.lookup p (root w) with
        | Some _ => (Raise (FileExistsError s), w)
        | None =>
            match FS.mkdirs p (root w) with
            | Some r' => (Ok tt, set_root w r')
            | None => (Raise (NotADirectoryError s), w)
            end
        end
    end.

Definition chdir (s : string) : M unit :=
  fun w =>
    match resolve w s with
    | None => (Raise (FileNotFoundError s), w)
    | Some p =>
        match FS.lookup p (root w) with
        | Some (Dir _) => (Ok tt, set_cwd w p)
        | Some (File _) => (Raise (NotADirectoryError s), w)
        | None => (Raise (FileNotFoundError s), w)
        end
    end.

(** [os.rename(src, dst)] onto a name that does not exist. *)
Definition rename (src dst : string) : M unit :=
  fun w =>
    match stat w src with
    | None => (Raise (FileNotFoundError src), w)
    | Some t =>
        (modify_parent src FS.del ;;
         modify_parent dst (fun n => FS.set n t)) w
    end.

(** [open(s).read()] *)
Definition read_file (s : string) : M string :=
  fun w =>
    match stat w s with
    | Some (File d) => (Ok d, w)
    | Some (Dir _) => (Raise (IsADirectoryError s), w)
    | None => (Raise (FileNotFoundError s), w)
    end.

(** [open(s, 'w').write(d)] *)
Definition write_file (s d : string) : M unit :=
  fun w =>
    match stat w s with
    | Some (Dir _) => (Raise (IsADirectoryError s), w)
    | _ => modify_parent s (fun n => FS.set n (File d)) w
    end.

End os.

Module sys.

(** [print(s, file=sys.stderr)] *)
Definition print_stderr (s : string) : M unit :=
  fun w => (Ok tt, set_stderr w (stderr w ++ [s])%list).

Definition assign_argv (a : list string) : M unit :=
  fun w => (Ok tt, set_argv w a).

End sys.

(** Mutable [list] objects of strings: an attribute that holds one holds
    its address, so two objects built from the same list share it. *)
Module pylist.

Definition ref := nat.

Definition deref (r : ref) : M (list string) :=
  fun w => (Ok (nth r (heap w) []), w).

Fixpoint update (r : ref) (f : list string -> list string)
  (h : list (list string)) : list (list string) :=
  match h, r with
  | [], _ => []
  | l :: h', 0 => f l :: h'
  | l :: h', S r' => l :: update r' f h'
  end.

(** [r.append(x)] *)
Definition append (r : ref) (x : string) : M unit :=
  fun w => (Ok tt, set_heap w (update r (fun l => (l ++ [x])%list) (heap w))).

(** [list(xs)]: a new list object. *)
Definition alloc (xs : list string) : M ref :=
  fun w => (Ok (length (heap w)), set_heap w (heap w ++ [xs])%list).

End pylist.

Module shutil.

(** [shutil.copy2(src, dst)]; timestamps and permissions are not part of
    the model. *)
Definition copy2 (src dst : string) : M unit :=
  d <- os.path_isdir dst ;;
  let dst' := if d then posixpath.join dst (posixpath.basename src) else dst in
  data <- os.read_file src ;;
  os.write_file dst' data.

(** [shutil.rmtree(s)] *)
Definition rmtree (s : string) : M unit :=
  fun w =>
    match os.stat w s with
    | Some (Dir _) => os.modify_parent s FS.del w
    | Some (File _) => (Raise (NotADirectoryError s), w)
    | None => (Raise (FileNotFoundError s), w)
    end.

(** [shutil.move(src, dst)] *)
Definition move (src dst : string) : M unit :=
  d <- os.path_isdir dst ;;
  let real_dst :=
    if d then posixpath.join dst (posixpath.basename (Str.rstrip Str.slash src))
    else dst in
  e <- os.path_exists real_dst ;;
  if (d && e)%bool
  then raise (ShutilError real_dst)
  else os.rename src real_dst.

End shutil.

(** [try: m except FileExistsError: pass] *)
Definition ignore_exists (m : M unit) : M unit :=
  fun w =>
    match m w with
    | (Raise (FileExistsError _), w') => (Ok tt, w')
    | r => r
    end.

(** [for x in xs: self = body(self, x)], for a body that updates [self]. *)
Fixpoint fold_each {A S} (xs : list A) (s : S) (body : S -> A -> M S) : M S :=
  match xs with
  | [] => ret s
  | x :: r => s' <- body s x ;; fold_each r s' body
  end.

(** ** The class table

    The classes of the module, their bases and the names their bodies
    define; attribute lookup on an instance goes through the instance's own
    attributes and then the classes of its MRO. *)

Inductive class : Type :=
| cls_object | cls_ABC | cls_QCompiler | cls_QCompilerPYC | cls_QCompilerPYD
| cls_QCompilerPYZ | cls_QCompilerEXE | cls_MultiCompiler.

Definition base (c : class) : option class :=
  match c with
  | cls_object => None
  | cls_ABC => Some cls_object
  | cls_QCompiler => Some cls_ABC
  | cls_QCompilerPYC => Some cls_QCompiler
  | cls_QCompilerPYD => Some cls_QCompilerPYC
  | cls_QCompilerPYZ => Some cls_QCompiler
  | cls_QCompilerEXE => Some cls_object
  | cls_MultiCompiler => Some cls_QCompilerEXE
  end.

Definition class_dict (c : class) : list string :=
  match c with
  | cls_object => ["__init__"]
  | cls_ABC => []
  | cls_QCompiler => ["__init__"; "compile"; "check_project"]
  | cls_QCompilerPYC =>
      ["__init__"; "clean_directory"; "compile_directory"; "copy_file";
       "compile_file"; "compile"]
  | cls_QCompilerPYD => ["__init__"; "compile_file"]
  | cls_QCompilerPYZ =>
      ["__init__"; "create_archive"; "clean_directory";
       "copy_additional_files"; "compile"]
  | cls_QCompilerEXE =>
      ["__init__"; "check"; "automatic"; "get_command"; "compile";
       "move_project"; "join_path"; "_reindex_relpath"; "reindex"; "get_args";
       "parse_arg_list"]
  | cls_MultiCompiler => ["__init__"; "compile"]
  end.

Fixpoint mro_from (fuel : nat) (c : class) : list class :=
  match fuel with
  | 0 => []
  | S fuel' =>
      c :: match base c with
           | Some b => mro_from fuel' b
           | None => []
           end
  end.

Definition mro (c : class) : list class := mro_from 8 c.

(** [hasattr(self, name)] for an instance of [c] whose own attributes are
    [attrs]. *)
Definition has_attribute (c : class) (attrs : list string) (name : string) : bool :=
  Str.mem name attrs || existsb (fun k => Str.mem name (class_dict k)) (mro c).

(** [self.<name>]: the lookup that precedes any use of the attribute. *)
Definition getattr (c : class) (attrs : list string) (name : string) : M unit :=
  if has_attribute c attrs name then ret tt else raise (AttributeError name).

(** Truth value of a [str] or [None], and of a list or [None]. *)
Definition truthy (o : option string) : bool :=
  match o with
  | Some s => negb (Str.is_empty s)
  | None => false
  end.

Definition items {A} (o : option (list A)) : list A :=
  match o with
  | Some l => l
  | None => []
  end.

Definition str_of_int (z : Z) : string := NilZero.string_of_int (Z.to_int z).

(** [clean_directory], defined alike by [QCompilerPYC] and [QCompilerPYZ],
    over the tree of files and directories; [Posix.clean_directory] is
    the same method over a filesystem with symbolic links. *)
Fixpoint clean_directory (fuel : nat) (directory : string) : M unit :=
  match fuel with
  | 0 => raise RecursionError
  | S fuel' =>
      listing <- os.listdir directory ;;
      for_each listing (fun item =>
        let i_path := posixpath.join directory item in
        d <- os.path_isdir i_path ;;
        if d then clean_directory fuel' i_path
        else os.remove i_path) ;;
      os.rmdir directory
  end.

(** ** The external collaborators, which the program only calls *)

Class Collaborators : Type := {
  (** The bytecode compiler proper: from the name to report, the source
      text and the optimization level to the bytecode, or to the message of
      the error it found. *)
  source_to_code : string -> string -> Z -> string + string;
  (** [sys.implementation.cache_tag] *)
  cache_tag : string;
  (** The archive writer, [zipapp.create_archive], in its two steps.  What
      it refuses before it opens the target, from what the source holds and
      the entry point: the message of its [ZipAppError], or [None]. *)
  zipapp_refuses : node -> string -> option string;
  (** What it then writes to the target: the archive of what the source
      holds once the target is open, with the compression flag and the
      entry point. *)
  zipapp_archive : node -> bool -> string -> string;
  (** [shlex.split]; [None] when the quoting is unbalanced. *)
  shlex_split : string -> option (list string);
  (** The bundling backend, [PyInstaller.__main__.run], which reads
      [sys.argv]. *)
  pyi_run : M unit;
  (** The static checker, [mypy.api.run], as the program calls it: with the
      path, a [str], where the checker expects a list of arguments.  What
      it makes of it is the checker's own: it may raise (the compiled
      checker raises [TypeError]), take each character for an argument,
      and write its cache. *)
  mypy_run : string -> M unit
}.

(** [QCompiler.check_project]: the static checker is run on the path and
    what it returns is dropped. *)
Definition check_project `{Collaborators} (path : string) : M unit :=
  mypy_run path.

(** *** [py_compile] *)

(** [importlib.util.cache_from_source(file, optimization=...)] *)
Definition cache_from_source `{Collaborators} (file : string) (optimize : Z) : string :=
  let (head, tail) := posixpath.split file in
  let (base_sep, rest) := Str.rcut Str.dot tail in
  let almost_filename :=
    if Str.is_empty base_sep then rest ++ cache_tag
    else if String.eqb base_sep "." then rest ++ "." ++ cache_tag
    else base_sep ++ cache_tag in
  let optimization := if (1 <=? optimize)%Z then str_of_int optimize else "" in
  let filename :=
    if Str.is_empty optimization then almost_filename ++ ".pyc"
    else almost_filename ++ ".opt-" ++ optimization ++ ".pyc" in
  posixpath.join (posixpath.join head "__pycache__") filename.

(** [py_compile.compile(file, cfile, dfile, doraise=False, optimize, quiet)]:
    returns the path written, or [None] after reporting an error of the
    source on the error stream. *)
Definition py_compile `{Collaborators} (file : string) (cfile dfile : option string)
  (optimize : Z) (quiet : Z) : M (option string) :=
  let cfile' :=
    match cfile with
    | Some c => c
    | None => cache_from_source file optimize
    end in
  e <- os.path_exists cfile' ;;
  f <- os.path_isfile cfile' ;;
  if e && negb f then raise (FileExistsError cfile')
  else
    source <- os.read_file file ;;
    match source_to_code (match dfile with Some d => d | None => file end)
            source optimize with
    | inr msg =>
        when (quiet <? 2)%Z (sys.print_stderr msg) ;;
        ret None
    | inl code =>
        let dirname := fst (posixpath.split cfile') in
        when (negb (Str.is_empty dirname)) (ignore_exists (os.makedirs dirname)) ;;
        os.write_file cfile' code ;;
        ret (Some cfile')
    end.

(** *** [QCompilerPYC] and [QCompilerPYD] *)

Module QCompilerPYC.

(** [type(self)] *)
Inductive kind : Type := PYC | PYD.

Record t : Type := mk {
  cls : kind;
  clean : bool;
  quiet : bool;
  optimize : Z;
  exclude : list string;
  path : string;
  output : string
}.

Definition set_output (self : t) (o : string) : t :=
  mk (cls self) (clean self) (quiet self) (optimize self) (exclude self)
     (path self) o.

(** [QCompilerPYC.__init__] *)
Definition init (exclude : list string) (path : string) (clean : bool)
  (optimize : Z) (quiet : bool) : M t :=
  here <- os.getcwd ;;
  ret (mk PYC clean quiet optimize exclude path
         (posixpath.join (posixpath.join here "bin") "pyc")).

(** [QCompilerPYD.__init__] *)
Definition init_pyd (exclude : list string) (path : string) (clean : bool)
  (optimize : Z) (quiet : bool) : M t :=
  self <- init exclude path clean optimize quiet ;;
  here <- os.getcwd ;;
  ret (mk PYD (QCompilerPYC.clean self) (QCompilerPYC.quiet self)
         (QCompilerPYC.optimize self) (QCompilerPYC.exclude self)
         (QCompilerPYC.path self)
         (posixpath.join (posixpath.join here "bin") "pyd")).

Definition copy_file (src dst : string) : M unit := shutil.copy2 src dst.

(** [compile_file], as [type(self)] defines it. *)
Definition compile_file `{Collaborators} (self : t) (file to : string) : M unit :=
  match cls self with
  | PYC =>
      _ <- py_compile file (Some (fst (posixpath.splitext to) ++ ".pyc")) None
             (optimize self) 0 ;;
      ret tt
  | PYD =>
      _ <- py_compile file None (Some (fst (posixpath.splitext to) ++ ".pyd"))
             (optimize self) (Z.b2z (quiet self)) ;;
      ret tt
  end.

Fixpoint compile_directory `{Collaborators} (fuel : nat) (self : t) (directory : string)
  (to : option string) : M unit :=
  match fuel with
  | 0 => raise RecursionError
  | S fuel' =>
      let to :=
        match to with
        | None => posixpath.join (output self) (snd (posixpath.split (path self)))
        | Some t => t
        end in
      e <- os.path_exists to ;;
      when (negb e) (os.makedirs to) ;;
      listing <- os.listdir directory ;;
      for_each listing (fun item =>
        let i_path := posixpath.join directory item in
        let t_path := posixpath.join to item in
        d <- os.path_isdir i_path ;;
        if d then compile_directory fuel' self i_path (Some t_path)
        else
          f <- os.path_isfile i_path ;;
          if f then
            if String.eqb (snd (posixpath.splitext i_path)) ".py"
            then compile_file self i_path t_path
            else copy_file i_path t_path
          else ret tt)
  end.

Definition compile `{Collaborators} (fuel : nat) (self : t) : M unit :=
  check_project (path self) ;;
  e <- os.path_exists (path self) ;;
  when (negb e) (os.makedirs (path self)) ;;
  when (clean self) (clean_directory fuel (output self)) ;;
  d <- os.path_isdir (path self) ;;
  when d (compile_directory fuel self (path self) None) ;;
  f <- os.path_isfile (path self) ;;
  when (f && String.eqb (snd (posixpath.splitext (path self))) ".py")
    (compile_file self (path self)
       (posixpath.join (output self) (snd (posixpath.split (path self))))).

End QCompilerPYC.

(** *** [QCompilerPYZ] *)

Module QCompilerPYZ.

(** What the [compiler] argument can hold: an instance of one of the two
    bytecode compilers, or an object of some other type. *)
Inductive py_object : Type :=
| Instance (c : QCompilerPYC.t)
| Foreign (type_name : string).

Record t : Type := mk {
  clean : bool;
  path : string;
  name : string;
  mainClass : string;
  compressed : bool;
  compiler : option py_object
}.

(** [QCompilerPYZ.__init__] *)
Definition init (path name main_class : string) (compressed : bool)
  (compiler : option py_object) (clean : bool) : t :=
  mk clean path name main_class compressed compiler.

(** [pathlib.Path(s)] as a string, as far as it changes what the string
    names: the empty string becomes the working directory. *)
Definition pathlib_path (s : string) : string :=
  if Str.is_empty s then "." else s.

(** [QCompilerPYZ.create_archive]: the archive writer is called with the
    source, the target, the compression flag and the main class.  On a
    source that is a directory, the writer looks at the source and at the
    entry point, opens the target for writing, which creates or empties
    it, and only then reads what it packs.  (A source that is a file is an
    archive, which the writer copies.)  What the method prints to the
    standard output is not tracked. *)
Definition create_archive `{Collaborators} (self : t) (source target : string)
  : M unit :=
  fun w =>
    match os.stat w (pathlib_path source) with
    | None => (Raise (ZipAppError "Source does not exist"), w)
    | Some tree =>
        match zipapp_refuses tree (mainClass self) with
        | Some msg => (Raise (ZipAppError msg), w)
        | None =>
            (os.write_file target "" ;;
             fun w1 =>
               match os.stat w1 (pathlib_path source) with
               | Some tree1 =>
                   os.write_file target
                     (zipapp_archive tree1 (compressed self) (mainClass self)) w1
               | None => (Raise (FileNotFoundError source), w1)
               end) w
        end
    end.

Fixpoint copy_additional_files (fuel : nat) (src dst : string) : M unit :=
  match fuel with
  | 0 => raise RecursionError
  | S fuel' =>
      d <- os.path_isdir src ;;
      if d then
        e <- os.path_exists src ;;
        when (negb e) (os.makedirs src) ;;
        e' <- os.path_exists dst ;;
        when (negb e') (os.makedirs dst) ;;
        listing <- os.listdir src ;;
        for_each listing (fun item =>
          let s_path := posixpath.join src item in
          let d_path := posixpath.join dst item in
          copy_additional_files fuel' s_path d_path)
      else
        when (negb (Str.endswith src ".py") && negb (Str.endswith src ".pyc")
              && negb (Str.endswith src ".pyd") && negb (Str.endswith src ".pyo"))
          (shutil.copy2 src dst)
  end.

Definition compile `{Collaborators} (fuel : nat) (self : t) : M unit :=
  check_project (path self) ;;
  let mod_path := Str.rstrip Str.slash (Str.replace Str.backslash Str.slash (path self)) in
  e <- os.path_exists "bin/pyz/" ;;
  when (negb e) (os.makedirs "bin/pyz/") ;;
  match compiler self with
  | None => create_archive self mod_path ("bin/pyz/" ++ name self)
  | Some inner =>
      e' <- os.path_exists "obj/pyz/" ;;
      when (negb e') (os.makedirs "obj/pyz/") ;;
      clean_directory fuel "obj/pyz/" ;;
      match inner with
      | Foreign type_name =>
          raise (CompilerError ("Incompatible compiler: " ++ type_name))
      | Instance c =>
          let compilerpath :=
            match QCompilerPYC.cls c with
            | QCompilerPYC.PYC => "bin/pyc"
            | QCompilerPYC.PYD => "bin/pyd"
            end in
          e'' <- os.path_exists ("obj/pyz/" ++ compilerpath) ;;
          when (negb e'') (os.makedirs ("obj/pyz/" ++ compilerpath)) ;;
          let c' := QCompilerPYC.set_output c ("obj/pyz/" ++ compilerpath) in
          QCompilerPYC.compile fuel c' ;;
          create_archive self
            ("obj/pyz/" ++ compilerpath ++ "/" ++ snd (posixpath.split (path self)))
            ("bin/pyz/" ++ name self) ;;
          copy_additional_files fuel (path self) "bin/pyz/"
      end
  end.

End QCompilerPYZ.

(** *** [QCompilerEXE] *)

Module QCompilerEXE.

Record t : Type := mk {
  oneFile : bool;
  hideConsole : bool;
  mainFolder : string;
  mainFile : string;
  mainContents : list string;
  dllFiles : option (list string);
  exclude : pylist.ref;
  icon : option string;
  allFiles : list (string * string);
  upxDirectory : option string;
  noUnicode : bool;
  cleanCompile : bool;
  logLevel : option string;
  appName : option string;
  extraBinaries : option (list (string * string));
  importPaths : option (list string);
  hiddenImports : list string;
  additionalHooksDirs : option (list string);
  runtimeHooks : option (list string);
  excludeModules : option (list string);
  key : option string;
  debug : option string;
  applySymbolTable : bool;
  noUPX : bool;
  versionFile : option string;
  manifestFile : option string;
  requestElevation : bool;
  remoteDesktop : bool;
  privateAssemblies : bool;
  noPreferRedirects : bool;
  osxBundleIndentifier : option string;
  runtimeTempDir : option string;
  bootloaderIgnoreSignals : bool;
  additionalArgs : list string
}.

(** The attributes [__init__] assigns on the instance. *)
Definition instance_attributes : list string :=
  ["oneFile"; "hideConsole"; "mainFolder"; "mainFile"; "mainContents";
   "dllFiles"; "exclude"; "icon"; "allFiles"; "upxDirectory"; "noUnicode";
   "cleanCompile"; "logLevel"; "appName"; "extraBinaries"; "importPaths";
   "hiddenImports"; "additionalHooksDirs"; "runtimeHooks"; "excludeModules";
   "key"; "debug"; "applySymbolTable"; "noUPX"; "versionFile";
   "manifestFile"; "requestElevation"; "remoteDesktop"; "privateAssemblies";
   "noPreferRedirects"; "osxBundleIndentifier"; "runtimeTempDir";
   "bootloaderIgnoreSignals"; "additionalArgs"].

Definition set_allFiles (self : t) (files : list (string * string)) : t :=
  mk (oneFile self) (hideConsole self) (mainFolder self) (mainFile self)
     (mainContents self) (dllFiles self) (exclude self) (icon self) files
     (upxDirectory self) (noUnicode self) (cleanCompile self) (logLevel self)
     (appName self) (extraBinaries self) (importPaths self)
     (hiddenImports self) (additionalHooksDirs self) (runtimeHooks self)
     (excludeModules self) (key self) (debug self) (applySymbolTable self)
     (noUPX self) (versionFile self) (manifestFile self)
     (requestElevation self) (remoteDesktop self) (privateAssemblies self)
     (noPreferRedirects self) (osxBundleIndentifier self)
     (runtimeTempDir self) (bootloaderIgnoreSignals self)
     (additionalArgs self).

(** The arguments of the constructor. *)
Record args : Type := mk_args {
  arg_exclude : pylist.ref;
  arg_icon : option string;
  arg_main_folder : string;
  arg_main_file : string;
  arg_hidden_imports : option (list string);
  arg_dlls : option (list string);
  arg_one_file : bool;
  arg_hide_console : bool;
  arg_fix_recursion_limit : bool;
  arg_upx_dir : option string;
  arg_log_level : option string;
  arg_app_name : option string;
  arg_extra_binaries : option (list (string * string));
  arg_import_paths : option (list string);
  arg_add_hooks_dirs : option (list string);
  arg_runtime_hooks : option (list string);
  arg_exclude_modules : option (list string);
  arg_key : option string;
  arg_debug : option string;
  arg_no_unicode : bool;
  arg_clean : bool;
  arg_apply_symbol_table : bool;
  arg_no_upx : bool;
  arg_version_file : option string;
  arg_manifest_file : option string;
  arg_uac_admin : bool;
  arg_uac_uiaccess : bool;
  arg_win_private_assemblies : bool;
  arg_win_no_prefer_redirects : bool;
  arg_osx_bundle_indentifier : option string;
  arg_runtime_tmpdir : option string;
  arg_bootloader_ignore_signals : bool;
  arg_additional_args : list string
}.

(** The required arguments, the others at their defaults. *)
Definition default_args (exclude : pylist.ref) (icon : option string)
  (main_folder main_file : string) (hidden_imports : option (list string))
  : args :=
  mk_args exclude icon main_folder main_file hidden_imports None false false
    true None (Some "INFO") (Some "") None None None None None None None
    false false false false None None false false false false None (Some "")
    false [].

(** [join_path(path, p)]: [os.path.join], then every backslash turned
    into a slash. *)
Definition join_path (path p : string) : string :=
  Str.replace Str.backslash Str.slash (posixpath.join path p).

(** [check].  In [self.check_project(self.path)] the callee is looked up
    first and the argument next; [__init__] assigns no attribute [path], so
    the call that would follow the two lookups has no argument value in the
    model and is written with the empty path. *)
Definition check `{Collaborators} (self : t) : M unit :=
  getattr cls_QCompilerEXE instance_attributes "check_project" ;;
  getattr cls_QCompilerEXE instance_attributes "path" ;;
  check_project "" ;;
  excluded <- pylist.deref (exclude self) ;;
  match icon self with
  | Some i =>
      if Str.mem i excluded then raise (CompilerError "Can't exclude icon!")
      else ret tt
  | None => ret tt
  end.

(** [QCompilerEXE.__init__].  The call of [sys.setrecursionlimit] under
    [fix_recursion_limit] changes nothing the model holds. *)
Definition init `{Collaborators} (a : args) : M t :=
  let hidden_imports := items (arg_hidden_imports a) in
  contents <- os.listdir (arg_main_folder a) ;;
  let self :=
    mk (arg_one_file a) (arg_hide_console a) (arg_main_folder a)
       (arg_main_file a) contents (arg_dlls a) (arg_exclude a) (arg_icon a) []
       (arg_upx_dir a) (arg_no_unicode a) (arg_clean a) (arg_log_level a)
       (arg_app_name a) (arg_extra_binaries a) (arg_import_paths a)
       hidden_imports (arg_add_hooks_dirs a) (arg_runtime_hooks a)
       (arg_exclude_modules a) (arg_key a) (arg_debug a)
       (arg_apply_symbol_table a) (arg_no_upx a) (arg_version_file a)
       (arg_manifest_file a) (arg_uac_admin a) (arg_uac_uiaccess a)
       (arg_win_private_assemblies a) (arg_win_no_prefer_redirects a)
       (arg_osx_bundle_indentifier a) (arg_runtime_tmpdir a)
       (arg_bootloader_ignore_signals a) (arg_additional_args a) in
  check self ;;
  ret self.

(** [parse_arg_list] *)
Definition parse_arg_list (args_list : list string) : M string :=
  match args_list with
  | [] => raise IndexError
  | first :: _ =>
      ret (if Nat.ltb 1 (length args_list)
           then fold_left (fun args arg => args ++ " " ++ arg) args_list first
           else first)
  end.

Definition get_command (args_list : list string) : M string :=
  args <- parse_arg_list args_list ;;
  ret ("pyinstaller " ++ args).

(** The double quote character, and a text between double quotes. *)
Definition dquote : string := String (ascii_of_nat 34) EmptyString.

Definition quoted (s : string) : string := dquote ++ s ++ dquote.

(** The names [reindex] never indexes at the top of the main folder. *)
Definition reserved (self : t) : list string :=
  ["bin"; "obj"; "__pycache__"; mainFile self].

(** [_reindex_relpath] *)
Fixpoint _reindex_relpath (fuel : nat) (self : t) (folder : string) : M t :=
  match fuel with
  | 0 => raise RecursionError
  | S fuel' =>
      listing <- os.listdir (join_path (mainFolder self) folder) ;;
      fold_each listing self (fun self export_path =>
        let export_path := join_path folder export_path in
        let path := join_path (mainFolder self) export_path in
        excluded <- pylist.deref (exclude self) ;;
        if Str.mem export_path excluded then ret self
        else if Str.mem export_path (reserved self) then ret self
        else if Str.mem (snd (posixpath.split export_path)) ["__pycache__"]
        then ret self
        else
          f <- os.path_isfile path ;;
          let self :=
            if f
            then set_allFiles self
                   (allFiles self ++ [(path, fst (posixpath.split export_path))])
            else self in
          d <- os.path_isdir path ;;
          if d then _reindex_relpath fuel' self export_path
          else ret self)
  end.

(** [reindex] *)
Definition reindex (fuel : nat) (self : t) : M t :=
  let self := set_allFiles self [] in
  fold_each (mainContents self) self (fun self export_path =>
    let path := join_path (mainFolder self) export_path in
    excluded <- pylist.deref (exclude self) ;;
    if Str.mem export_path excluded then ret self
    else if Str.mem export_path (reserved self) then ret self
    else
      f <- os.path_isfile path ;;
      let self :=
        if f then set_allFiles self (allFiles self ++ [(path, ".")])
        else self in
      d <- os.path_isdir path ;;
      if d then _reindex_relpath fuel self export_path
      else ret self).

(** One fragment when the flag is set. *)
Definition flag (b : bool) (fragment : string) : list string :=
  if b then [fragment] else [].

(** One fragment when the option holds a non-empty text. *)
Definition option_text (o : option string) (fragment : string -> string)
  : list string :=
  match o with
  | Some s => if Str.is_empty s then [] else [fragment s]
  | None => []
  end.

(** The last fragment: the main file. *)
Definition main_fragment (self : t) : string :=
  " " ++ quoted (join_path (mainFolder self) (mainFile self)).

(** [get_args] *)
Definition get_args (self : t) : list string :=
  List.concat
    [["-y"];
     flag (oneFile self) "-F";
     flag (hideConsole self) "-w";
     option_text (icon self)
        (fun i => "-i " ++ quoted (join_path (mainFolder self) i));
     map (fun '(file_location, exported_location) =>
             "--add-data "
             ++ quoted (Str.replace Str.backslash Str.slash file_location)
             ++ ";" ++ quoted exported_location)
        (allFiles self);
     map (fun file =>
             "--add-data "
             ++ quoted (join_path (mainFolder self)
                          (Str.replace Str.backslash Str.slash file))
             ++ ";" ++ quoted ".")
        (items (dllFiles self));
     option_text (upxDirectory self) (fun d => "--upx-dir " ++ quoted d);
     flag (noUnicode self) "-a";
     flag (cleanCompile self) "--clean";
     option_text (logLevel self) (fun l => "--log-level " ++ Str.upper l);
     option_text (appName self) (fun n => "-n " ++ quoted n);
     map (fun '(src, dist) => "--add-binary " ++ quoted src ++ ";" ++ quoted dist)
        (items (extraBinaries self));
     map (fun path => "-p " ++ path) (items (importPaths self));
     map (fun hidden_import => "--hidden-import " ++ quoted hidden_import)
        (hiddenImports self);
     map (fun hooks_dir => "--additional-hooks-dir " ++ quoted hooks_dir)
        (items (additionalHooksDirs self));
     map (fun runtime_hook => "--runtime-hook " ++ quoted runtime_hook)
        (items (runtimeHooks self));
     map (fun exclude => "--exclude-module " ++ quoted exclude)
        (items (excludeModules self));
     option_text (key self) (fun k => "--key " ++ quoted k);
     option_text (debug self) (fun d => "--debug " ++ quoted d);
     flag (applySymbolTable self) "-s";
     flag (noUPX self) "--noupx";
     option_text (versionFile self) (fun v => "--version-file " ++ quoted v);
     option_text (manifestFile self) (fun m => "-m " ++ quoted m);
     flag (requestElevation self) "--uac-admin";
     flag (remoteDesktop self) "--uac-uiaccess";
     flag (privateAssemblies self) "--win-private-assemblies";
     flag (noPreferRedirects self) "--win-no-prefer-redirects";
     option_text (osxBundleIndentifier self)
        (fun b => "--osx-bundle-identifier " ++ quoted b);
     option_text (runtimeTempDir self) (fun d => "--runtime-tmpdir " ++ quoted d);
     flag (bootloaderIgnoreSignals self) "--bootloader-ignore-signals";
     [main_fragment self]].

(** [move_project] *)
Definition move_project (src dst : string) : M unit :=
  e <- os.path_exists dst ;;
  when (negb e) (os.makedirs dst) ;;
  listing <- os.listdir src ;;
  for_each listing (fun file_or_folder =>
    let _dst := posixpath.join dst file_or_folder in
    e' <- os.path_exists _dst ;;
    when e'
      (f <- os.path_isfile _dst ;;
       if f then os.remove _dst else shutil.rmtree _dst) ;;
    shutil.move (posixpath.join src file_or_folder) dst).

(** What [traceback.format_exc()] returns when no exception is being
    handled. *)
Definition no_traceback : string := "NoneType: None".

(** [compile] *)
Definition compile `{Collaborators} (self : t) (command : string) : M unit :=
  let temporary_directory := join_path (mainFolder self) "obj" in
  let output := join_path (mainFolder self) "bin" in
  let dist_path := posixpath.join temporary_directory "application" in
  let build_path := posixpath.join temporary_directory "build" in
  let extra_args :=
    ["--distpath"; dist_path; "--workpath"; build_path;
     "--specpath"; temporary_directory] in
  match shlex_split command with
  | None => raise (ValueError ["No closing quotation"])
  | Some words =>
      sys.assign_argv (words ++ extra_args) ;;
      pyi_run ;;
      sys.print_stderr "An error occurred, traceback follows:" ;;
      sys.print_stderr no_traceback ;;
      here <- os.getcwd ;;
      let output_directory := posixpath.abspath here output in
      move_project dist_path output_directory
  end.

(** [automatic] *)
Definition automatic `{Collaborators} (fuel : nat) (self : t) : M t :=
  self <- reindex fuel self ;;
  let args_list := get_args self in
  command <- get_command args_list ;;
  compile self command ;;
  ret self.

End QCompilerEXE.

(** *** [MultiCompiler] *)

Module MultiCompiler.

Record t : Type := mk {
  appName : option string;
  binFolders : list string;
  compilers : list QCompilerEXE.t
}.

(** [a == b] for values that are a [str] or [None]. *)
Definition eq_str_or_none (a b : option string) : bool :=
  match a, b with
  | Some x, Some y => String.eqb x y
  | None, None => true
  | _, _ => false
  end.

(** [str(a)] for a value that is a [str] or [None]. *)
Definition str (a : option string) : string :=
  match a with
  | Some x => x
  | None => "None"
  end.

(** The first loop of [__init__]: the checks, and the app names, main files
    and bin folders gathered so far. *)
Fixpoint collect (compilers : list QCompilerEXE.t)
  (_temp_appnames : list (option string)) (_temp_mainfiles binfolders : list string)
  : M (list string * list string) :=
  match compilers with
  | [] => ret (_temp_mainfiles, binfolders)
  | compiler :: rest =>
      if QCompilerEXE.oneFile compiler then
        raise (ValueError
                 ["Compiler with mainfile '" ++ QCompilerEXE.mainFile compiler
                  ++ "' is in one-file mode, and one-file mode is not supported in MultiCompiler";
                  QCompilerEXE.mainFile compiler])
      else if existsb (eq_str_or_none (QCompilerEXE.appName compiler)) _temp_appnames then
        raise (ValueError
                 ["A compiler with app name '" ++ str (QCompilerEXE.appName compiler)
                  ++ "' already exists"])
      else
        collect rest
          (_temp_appnames ++ [QCompilerEXE.appName compiler])
          (_temp_mainfiles ++ [QCompilerEXE.mainFile compiler])
          (binfolders ++
             [match QCompilerEXE.appName compiler with
              | None => fst (posixpath.splitext (QCompilerEXE.mainFile compiler))
              | Some name => name
              end])
  end.

(** The body of the second loop of [__init__], for one compiler. *)
Definition reconcile (maindir : string) (_temp_mainfiles : list string)
  (compiler : QCompilerEXE.t) : M unit :=
  os.chdir (QCompilerEXE.mainFolder compiler) ;;
  here <- os.getcwd ;;
  excluded <- pylist.deref (QCompilerEXE.exclude compiler) ;;
  let excludes := map (posixpath.abspath here) excluded in
  for_each _temp_mainfiles (fun file =>
    when (negb (Str.mem (posixpath.abspath here file) excludes))
      (pylist.append (QCompilerEXE.exclude compiler) file)) ;;
  os.chdir maindir.

(** [MultiCompiler.__init__(compiler, *compilers, appname=...)] *)
Definition init (compiler : QCompilerEXE.t) (compilers : list QCompilerEXE.t)
  (appname : option string) : M t :=
  let compilers := (compilers ++ [compiler])%list in
  collected <- collect compilers [appname] [] [] ;;
  let _temp_mainfiles := fst collected in
  let binfolders := snd collected in
  maindir <- os.getcwd ;;
  for_each compilers (reconcile maindir _temp_mainfiles) ;;
  ret (mk appname binfolders compilers).

(** [MultiCompiler.compile] *)
Definition compile `{Collaborators} (self : t) : M unit :=
  for_each (compilers self) (fun compiler =>
    command <- QCompilerEXE.get_command (QCompilerEXE.get_args compiler) ;;
    QCompilerEXE.compile compiler command) ;;
  for_each (binFolders self) (fun folder =>
    listing <- os.listdir folder ;;
    for_each listing (fun inner_folder =>
      os.rename ("bin/" ++ folder ++ "/" ++ inner_folder)
        ("bin/" ++ str (appName self) ++ "/" ++ inner_folder))).

End MultiCompiler.

(** ** The filesystem with symbolic links *)

(** The methods that delete ask the system about each entry, and the
    system follows symbolic links: [os.path.isdir] and [os.listdir] look
    through a link, [os.remove] and [os.rmdir] act on the link itself.
    This layer has the links, and the walk of a path that the kernel
    makes: component by component, through the directories that are
    there. *)
Module Posix.

#[warnings="-register-all"]
Inductive inode : Type :=
| Reg (data : string)
| Folder (entries : list (string * inode))
| Symlink (target : string).

Definition entries : Type := list (string * inode).

Fixpoint find (n : string) (es : entries) : option inode :=
  match es with
  | [] => None
  | (m, c) :: r => if String.eqb n m then Some c else find n r
  end.

Fixpoint set (n : string) (c : inode) (es : entries) : entries :=
  match es with
  | [] => [(n, c)]
  | (m, c') :: r => if String.eqb n m then (n, c) :: r else (m, c') :: set n c r
  end.

Fixpoint del (n : string) (es : entries) : entries :=
  match es with
  | [] => []
  | (m, c) :: r => if String.eqb n m then r else (m, c) :: del n r
  end.

(** The inode at the place [p], a list of names from the root; a link on
    the way is not followed. *)
Fixpoint lookup (p : FS.path) (t : inode) : option inode :=
  match p with
  | [] => Some t
  | n :: q =>
      match t with
      | Folder es =>
          match find n es with
          | Some c => lookup q c
          | None => None
          end
      | _ => None
      end
  end.

(** Rewrite the entries of the directory at [p]. *)
Fixpoint modify (p : FS.path) (f : entries -> entries) (t : inode) : option inode :=
  match t with
  | Folder es =>
      match p with
      | [] => Some (Folder (f es))
      | n :: q =>
          match find n es with
          | Some c =>
              match modify q f c with
              | Some c' => Some (Folder (set n c' es))
              | None => None
              end
          | None => None
          end
      end
  | _ => None
  end.

(** Take the entry [p] out of its parent directory. *)
Definition remove_entry (p : FS.path) (t : inode) : option inode :=
  match FS.unsnoc p with
  | Some (par, n) => modify par (del n) t
  | None => None
  end.

(** Every directory of the tree has valid, pairwise distinct names. *)
Fixpoint wf (t : inode) : bool :=
  match t with
  | Folder es =>
      (fix wf_entries (es : entries) : bool :=
         match es with
         | [] => true
         | (n, c) :: r =>
             FS.valid_name n
             && match find n r with Some _ => false | None => true end
             && wf c && wf_entries r
         end) es
  | _ => true
  end.

(** No symbolic link at any depth. *)
Fixpoint linkfree (t : inode) : bool :=
  match t with
  | Reg _ => true
  | Symlink _ => false
  | Folder es =>
      (fix linkfree_entries (es : entries) : bool :=
         match es with
         | [] => true
         | (_, c) :: r => linkfree c && linkfree_entries r
         end) es
  end.

(** Nesting depth of the tree. *)
Fixpoint height (t : inode) : nat :=
  match t with
  | Folder es =>
      S ((fix height_entries (es : entries) : nat :=
            match es with
            | [] => 0
            | (_, c) :: r => Nat.max (height c) (height_entries r)
            end) es)
  | _ => 0
  end.

(** Why a path names nothing. *)
Inductive errno : Type :=
| ENOENT     (* a component is missing *)
| ENOTDIR    (* a component that is not a directory is gone through *)
| ELOOP.     (* too many symbolic links *)

(** The number of links the kernel follows in one walk. *)
Definition MAXSYMLINKS : nat := 40.

Definition parts (s : string) : list string := Str.split Str.slash s.

(** The walk of the components [comps] from the directory at [cur]:
    each component is looked for in a directory that is there; an empty
    component and [.] stay, [..] steps to the parent; a symbolic link is
    replaced by its target, from the root when the target is absolute,
    unless it is the last component and links are not to be followed
    there. *)
Fixpoint walk (links : nat) (t : inode) (follow : bool)
  : FS.path -> list string -> FS.path + errno :=
  fix go (cur : FS.path) (comps : list string) {struct comps} : FS.path + errno :=
    match comps with
    | [] => inl cur
    | c :: rest =>
        match lookup cur t with
        | Some (Folder es) =>
            if Str.is_empty c || String.eqb c "." then go cur rest
            else if String.eqb c ".." then go (removelast cur) rest
            else
              match find c es with
              | None => inr ENOENT
              | Some (Symlink target) =>
                  if negb follow && match rest with [] => true | _ => false end
                  then inl (cur ++ [c])%list
                  else if Str.is_empty target then inr ENOENT
                  else
                    match links with
                    | 0 => inr ELOOP
                    | S links' =>
                        walk links' t follow
                          (if posixpath.isabs target then [] else cur)
                          (parts target ++ rest)%list
                    end
              | Some _ => go (cur ++ [c])%list rest
              end
        | Some _ => inr ENOTDIR
        | None => inr ENOENT
        end
    end.

(** The filesystem and the working directory of the process, which the
    kernel holds as a place, not as a string. *)
Record state : Type := mkState {
  root : inode;
  cwd : FS.path
}.

Definition set_root (w : state) (r : inode) : state := mkState r (cwd w).

Definition start (w : state) (s : string) : FS.path :=
  if posixpath.isabs s then [] else cwd w.

(** The place a path string names; the empty string names nothing. *)
Definition resolve (w : state) (follow : bool) (s : string) : FS.path + errno :=
  if Str.is_empty s then inr ENOENT
  else walk MAXSYMLINKS (root w) follow (start w s) (parts s).

(** [os.stat(s)], which follows a link at the end of the path. *)
Definition stat (w : state) (s : string) : inode + errno :=
  match resolve w true s with
  | inl p =>
      match lookup p (root w) with
      | Some x => inl x
      | None => inr ENOENT
      end
  | inr e => inr e
  end.

(** The exception Python raises for a failed walk. *)
Definition oserror (e : errno) (s : string) : exn :=
  match e with
  | ENOENT => FileNotFoundError s
  | ENOTDIR => NotADirectoryError s
  | ELOOP => OSError s
  end.

(** The components without the empty ones that end them. *)
Fixpoint strip_trailing (cs : list string) : list string :=
  match cs with
  | [] => []
  | c :: r =>
      match strip_trailing r with
      | [] => if Str.is_empty c then [] else [c]
      | r' => c :: r'
      end
  end.

(** The way the kernel takes a path whose last component is to be
    unlinked: the walk, links followed, of what comes before the last
    component, which must lead to a directory; then the entries of that
    directory, the last component, and whether separators came after
    it.  A path of separators only is the root. *)
Definition parent (w : state) (s : string)
  : (FS.path * entries * string * bool) + errno :=
  if Str.is_empty s then inr ENOENT
  else
    let cs := strip_trailing (parts s) in
    let (init, last) :=
      match FS.unsnoc cs with
      | Some x => x
      | None => ([], ".")
      end in
    match walk MAXSYMLINKS (root w) true (start w s) init with
    | inr e => inr e
    | inl d =>
        match lookup d (root w) with
        | Some (Folder es) =>
            inl (d, es, last, negb (Nat.eqb (length cs) (length (parts s))))
        | Some _ => inr ENOTDIR
        | None => inr ENOENT
        end
    end.

Definition M (A : Type) : Type := state -> result A * state.

Definition ret {A} (a : A) : M A := fun w => (Ok a, w).

Definition raise {A} (e : exn) : M A := fun w => (Raise e, w).

Definition bind {A B} (m : M A) (k : A -> M B) : M B :=
  fun w =>
    match m w with
    | (Ok a, w') => k a w'
    | (Raise e, w') => (Raise e, w')
    end.

Declare Scope posix_scope.
Delimit Scope posix_scope with posix.

Notation "x <- m ;; k" := (bind m (fun x => k))
  (at level 61, m at next level, right associativity) : posix_scope.
Notation "m ;; k" := (bind m (fun _ => k))
  (at level 61, right associativity) : posix_scope.

Local Open Scope posix_scope.

Fixpoint for_each {A} (xs : list A) (body : A -> M unit) : M unit :=
  match xs with
  | [] => ret tt
  | x :: r => body x ;; for_each r body
  end.

(** [os.path.isdir(s)]: a directory, or a link that leads to one. *)
Definition path_isdir (s : string) : M bool :=
  fun w =>
    (Ok (match stat w s with inl (Folder _) => true | _ => false end), w).

Definition listdir (s : string) : M (list string) :=
  fun w =>
    match stat w s with
    | inl (Folder es) => (Ok (map fst es), w)
    | inl _ => (Raise (NotADirectoryError s), w)
    | inr e => (Raise (oserror e s), w)
    end.

(** Take the entry [n] out of the directory at [d]. *)
Definition unlink_at (d : FS.path) (n s : string) : M unit :=
  fun w =>
    match modify d (del n) (root w) with
    | Some r' => (Ok tt, set_root w r')
    | None => (Raise (FileNotFoundError s), w)
    end.

(** [os.remove(s)]: a regular file or a symbolic link is taken out of its
    directory; a link is not followed. *)
Definition remove (s : string) : M unit :=
  fun w =>
    match parent w s with
    | inr e => (Raise (oserror e s), w)
    | inl (d, es, n, trailing) =>
        if String.eqb n "." || String.eqb n ".." then
          (Raise (IsADirectoryError s), w)
        else
          match find n es with
          | None => (Raise (FileNotFoundError s), w)
          | Some (Folder _) => (Raise (IsADirectoryError s), w)
          | Some _ =>
              if trailing then (Raise (NotADirectoryError s), w)
              else unlink_at d n s w
          end
    end.

(** [os.rmdir(s)]: an empty directory is taken out of its parent; a link
    to a directory is not a directory. *)
Definition rmdir (s : string) : M unit :=
  fun w =>
    match parent w s with
    | inr e => (Raise (oserror e s), w)
    | inl (d, es, n, _) =>
        if String.eqb n "." || String.eqb n ".." then (Raise (OSError s), w)
        else
          match find n es with
          | None => (Raise (FileNotFoundError s), w)
          | Some (Folder []) => unlink_at d n s w
          | Some (Folder (_ :: _)) => (Raise (OSError s), w)
          | Some _ => (Raise (NotADirectoryError s), w)
          end
    end.

(** [clean_directory], the same text, over this filesystem. *)
Fixpoint clean_directory (fuel : nat) (directory : string) : M unit :=
  match fuel with
  | 0 => raise RecursionError
  | S fuel' =>
      listing <- listdir directory ;;
      for_each listing (fun item =>
        let i_path := posixpath.join directory item in
        d <- path_isdir i_path ;;
        if d then clean_directory fuel' i_path
        else remove i_path) ;;
      rmdir directory
  end.

(** A component that goes nowhere else: empty, [.], or a name. *)
Definition name_or_blank (c : string) : bool :=
  Str.is_empty c || String.eqb c "." || FS.valid_name c.

(** The place of a path that is written without [..] and ends in a name
    (separators may follow): its names, from where the path starts. *)
Definition direct (w : state) (s : string) : option FS.path :=
  match FS.unsnoc (strip_trailing (parts s)) with
  | Some (init, n) =>
      if forallb name_or_blank init && FS.valid_name n
      then Some ((start w s ++ filter FS.valid_name init) ++ [n])%list
      else None
  | None => None
  end.

(** What [clean_directory] does to a directory that is there, is reached
    without a link and holds none, for a budget above its depth. *)
Definition cleans (fuel : nat) : Prop :=
  forall (w : state) (dir : string) (par : FS.path) (n : string) (es : entries),
    direct w dir = Some (par ++ [n])%list ->
    lookup (par ++ [n])%list (root w) = Some (Folder es) ->
    wf (Folder es) = true ->
    linkfree (Folder es) = true ->
    height (Folder es) <= fuel ->
    exists r',
      modify par (del n) (root w) = Some r'
      /\ clean_directory fuel dir w = (Ok tt, set_root w r').

End Posix.

(** The tree of files and directories, as a filesystem with links that
    holds none. *)
Fixpoint lift (t : node) : Posix.inode :=
  match t with
  | File d => Posix.Reg d
  | Dir es => Posix.Folder (map (fun e => (fst e, lift (snd e))) es)
  end.

Definition lift_entries (es : FS.entries) : Posix.entries :=
  map (fun e => (fst e, lift (snd e))) es.

Definition lift_state (w : world) : Posix.state :=
  Posix.mkState (lift (root w)) (cwd w).

(** ** Sample collaborators and worlds for the concrete runs *)

(** A letter of ASCII or the underscore. *)
Definition is_letter (c : ascii) : bool :=
  let n := nat_of_ascii c in
  (Nat.leb 65 n && Nat.leb n 90) || (Nat.leb 97 n && Nat.leb n 122)
  || Nat.eqb n 95.

Definition is_digit (c : ascii) : bool :=
  let n := nat_of_ascii c in Nat.leb 48 n && Nat.leb n 57.

Fixpoint all_word (s : string) : bool :=
  match s with
  | EmptyString => true
  | String c r => (is_letter c || is_digit c) && all_word r
  end.

(** [str.isidentifier] on ASCII text. *)
Definition is_identifier (s : string) : bool :=
  match s with
  | EmptyString => false
  | String c r => is_letter c && all_word r
  end.

(** The entry points [zipapp] accepts: [module:function], both dotted
    names. *)
Definition entry_point_ok (main : string) : bool :=
  match Str.split ":"%char main with
  | [module; function] =>
      forallb is_identifier (Str.split Str.dot module)
      && forallb is_identifier (Str.split Str.dot function)
  | _ => false
  end.

(** What [zipapp.create_archive] checks of a directory and an entry point
    before it opens the target; a source that is a file is an archive to
    copy, and is not checked. *)
Definition sample_refuses (tree : node) (main : string) : option string :=
  match tree with
  | File _ => None
  | Dir _ =>
      let has_main := FS.is_file (FS.lookup ["__main__.py"] tree) in
      if negb (Str.is_empty main) && has_main then
        Some "Cannot specify entry point if the source has __main__.py"
      else if Str.is_empty main && negb has_main then
        Some "Archive has no entry point"
      else if negb (Str.is_empty main) && negb (entry_point_ok main) then
        Some ("Invalid entry point: " ++ main)
      else None
  end.

(** A bytecode compiler that accepts the sources starting with [def ], an
    archive writer that makes the checks of [zipapp] and packs nothing but
    the entry point, a word splitter on blanks, a backend that does
    nothing and a static checker that returns without a trace. *)
Definition sample_tools : Collaborators := {|
  source_to_code := fun name source _ =>
    if Str.startswith source "def " then inl ("code of " ++ source)
    else inr ("SyntaxError: " ++ name);
  cache_tag := "cpython-311";
  zipapp_refuses := sample_refuses;
  zipapp_archive := fun _ _ main => "archive for " ++ main;
  shlex_split := fun s => Some (Str.split " "%char s);
  pyi_run := ret tt;
  mypy_run := fun _ => ret tt
|}.

(** The same, with a backend that fails. *)
Definition failing_backend : Collaborators := {|
  source_to_code := @source_to_code sample_tools;
  cache_tag := @cache_tag sample_tools;
  zipapp_refuses := @zipapp_refuses sample_tools;
  zipapp_archive := @zipapp_archive sample_tools;
  shlex_split := @shlex_split sample_tools;
  pyi_run := raise (SystemExit "build failed");
  mypy_run := @mypy_run sample_tools
|}.

(** A project [proj] with two sources, a data file and a sub-package whose
    source is malformed, next to an output directory left by an earlier
    run. *)
Definition sample_tree : node :=
  Dir [("proj", Dir [("a.py", File "def a");
                     ("secret.py", File "def s");
                     ("data.txt", File "x");
                     ("sub", Dir [("b.py", File "oops");
                                  ("c.py", File "def c")])]);
       ("bin", Dir [("pyc", Dir [("old", Dir [("x.pyc", File "old")])])])].

Definition sample_world : world := mkWorld sample_tree [] [] [] [].

(** A bundler configuration for [proj/a.py] with every option at its
    default. *)
Definition sample_exe : QCompilerEXE.t :=
  QCompilerEXE.mk false false "proj" "a.py" ["a.py"; "secret.py"; "data.txt"; "sub"]
    None 0 None [] None false false (Some "INFO") (Some "") None None [] None
    None None None None false false None None false false false false None
    (Some "") false [].

(** The sample world once a backend has left [app.exe] in the staging
    directory of [proj], with one list object (the exclusion list of
    [sample_exe]) on the heap. *)
Definition staged_tree : node :=
  Dir [("proj", Dir [("a.py", File "def a");
                     ("obj", Dir [("application", Dir [("app.exe", File "exe")])])])].

Definition staged_world : world := mkWorld staged_tree [] [] [] [[]].

(** The sample world once [QCompilerPYZ.compile] has staged [bin/pyz] and
    [obj/pyz], and an archive configuration whose inner compiler is a
    [str]. *)
Definition pyz_staged_tree : node :=
  Dir [("proj", Dir [("a.py", File "def a");
                     ("secret.py", File "def s");
                     ("data.txt", File "x");
                     ("sub", Dir [("b.py", File "oops");
                                  ("c.py", File "def c")])]);
       ("bin", Dir [("pyc", Dir [("old", Dir [("x.pyc", File "old")])]);
                    ("pyz", Dir [])]);
       ("obj", Dir [("pyz", Dir [])])].

Definition pyz_staged_world : world := set_root sample_world pyz_staged_tree.

Definition foreign_pyz : QCompilerPYZ.t :=
  QCompilerPYZ.init "proj" "app.pyz" "Main" true (Some (QCompilerPYZ.Foreign "str")) true.

(** A target with the main file [file] in [folder], the app name [name]
    and the exclusion list at [r]; every other option at its default. *)
Definition target (folder file : string) (name : option string)
  (r : pylist.ref) (contents : list string) : QCompilerEXE.t :=
  QCompilerEXE.mk false false folder file contents None r None [] None false
    false (Some "INFO") name None None [] None None None None None false false
    None None false false false false None (Some "") false [].

(** A project with a top-level [bin], and [bin], [obj] and [__pycache__]
    directories inside its package [lib]; [lib/m.py] is excluded. *)
Definition nested_tree : node :=
  Dir [("proj", Dir [("a.py", File "def a");
                     ("bin", Dir [("out.txt", File "o")]);
                     ("lib", Dir [("bin", Dir [("tool.txt", File "t")]);
                                  ("obj", Dir [("o.txt", File "o")]);
                                  ("__pycache__", Dir [("m.pyc", File "c")]);
                                  ("m.py", File "def m");
                                  ("n.py", File "def n")])])].

Definition nested_world : world := mkWorld nested_tree [] [] [] [["lib/m.py"]].

Definition nested_exe : QCompilerEXE.t :=
  target "proj" "a.py" (Some "") 0 ["a.py"; "bin"; "lib"].

(** Two targets, [app1/one.py] and [app2/two.py], each with an exclusion
    list of its own. *)
Definition merge_tree : node :=
  Dir [("app1", Dir [("one.py", File "def one"); ("helper.py", File "def h")]);
       ("app2", Dir [("two.py", File "def two")])].

Definition merge_world : world :=
  mkWorld merge_tree [] [] [] [["helper.py"]; []].

Definition target_one : QCompilerEXE.t :=
  target "app1" "one.py" (Some "one") 0 ["one.py"; "helper.py"].

Definition target_two : QCompilerEXE.t :=
  target "app2" "two.py" (Some "two") 1 ["two.py"].

(** A directory [cache] with a file and a link to the directory
    [outside], which holds a file of its own. *)
Definition linked_tree : Posix.inode :=
  Posix.Folder
    [("cache", Posix.Folder [("a.txt", Posix.Reg "a");
                             ("out", Posix.Symlink "../outside")]);
     ("outside", Posix.Folder [("precious.txt", Posix.Reg "p")])].

Definition linked_state : Posix.state := Posix.mkState linked_tree [].

(** ** Statements used by the proofs *)

(** What [clean_directory] does to a directory that is there, for a
    budget above its depth. *)
Definition cleans (fuel : nat) : Prop :=
  forall (w : world) (dir : string) (par : FS.path) (n : string) (es : FS.entries),
    os.resolve w dir = Some (par ++ [n])%list ->
    FS.lookup (par ++ [n])%list (root w) = Some (Dir es) ->
    FS.wf (Dir es) = true ->
    FS.height (Dir es) <= fuel ->
    exists r',
      FS.modify par (FS.del n) (root w) = Some r'
      /\ clean_directory fuel dir w = (Ok tt, set_root w r').

(** The steps of [QCompilerPYZ.compile] that come before
    [clean_directory], the static check of the project at [path] and the
    staging of [bin/pyz/] and [obj/pyz/], return and take [w] to [w1]. *)
Definition staged `{Collaborators} (path : string) (w w1 : world) : Prop :=
  (check_project path ;;
   e <- os.path_exists "bin/pyz/" ;;
   when (negb e) (os.makedirs "bin/pyz/") ;;
   e' <- os.path_exists "obj/pyz/" ;;
   when (negb e') (os.makedirs "obj/pyz/")) w
  = (Ok tt, w1).

(** A name of a well-formed tree that holds no backslash. *)
Definition name_ok (n : string) : Prop :=
  FS.valid_name n = true /\ Str.contains Str.backslash n = false.

(** [folder] is the root-relative path with the components [comps]. *)
Definition relpath (folder : string) (comps : list string) : Prop :=
  comps <> [] /\ Forall name_ok comps /\ folder = Str.join "/" comps.

(** What [reindex] asks of a root-relative path [c1/.../ck] before it lists
    it: no leading part [c1/.../cj] (the path itself included) is the main
    file or an entry of the exclusion list; [c1] is none of [bin], [obj],
    [__pycache__]; and no component is [__pycache__]. *)
Definition indexable (main_file : string) (excluded comps : list string) : Prop :=
  (forall pre suf : list string,
      comps = (pre ++ suf)%list -> pre <> [] ->
      ~ In (Str.join "/" pre) (main_file :: excluded))
  /\ ~ In (hd "" comps) ["bin"; "obj"; "__pycache__"]
  /\ ~ In "__pycache__" comps.

(** An entry of [allFiles] whose path is the main folder joined with an
    indexable root-relative path. *)
Definition indexed (main_folder main_file : string) (excluded : list string)
  (entry : string * string) : Prop :=
  exists comps : list string,
    relpath (Str.join "/" comps) comps
    /\ fst entry = QCompilerEXE.join_path main_folder (Str.join "/" comps)
    /\ indexable main_file excluded comps.

(** The exclusion list of [self], as the heap holds it. *)
Definition excluded_of (self : QCompilerEXE.t) (w : world) : list string :=
  nth (QCompilerEXE.exclude self) (heap w) [].

(** What [_reindex_relpath] does on a directory that is there, for a
    budget that covers its depth. *)
Definition reindexes (fuel : nat) : Prop :=
  forall (w : world) (self : QCompilerEXE.t) (folder : string)
         (comps : list string) (p : FS.path) (es : FS.entries),
    relpath folder comps ->
    indexable (QCompilerEXE.mainFile self) (excluded_of self w) comps ->
    os.resolve w (QCompilerEXE.join_path (QCompilerEXE.mainFolder self) folder) = Some p ->
    FS.lookup p (root w) = Some (Dir es) ->
    FS.wf (Dir es) = true ->
    FS.portable (Dir es) = true ->
    FS.height (Dir es) <= fuel ->
    Forall (indexed (QCompilerEXE.mainFolder self) (QCompilerEXE.mainFile self)
              (excluded_of self w)) (QCompilerEXE.allFiles self) ->
    exists files,
      QCompilerEXE._reindex_relpath fuel self folder w
      = (Ok (QCompilerEXE.set_allFiles self files), w)
      /\ Forall (indexed (QCompilerEXE.mainFolder self) (QCompilerEXE.mainFile self)
                   (excluded_of self w)) files.

(** [os.getcwd()] after [os.chdir(folder)] in [w]. *)
Definition here_of (w : world) (folder : string) : string :=
  match os.resolve w folder with
  | Some p => "/" ++ Str.join "/" p
  | None => ""
  end.

(** An exclusion list [before], extended with the main files whose absolute
    path (from [here]) is not the absolute path of one of its entries. *)
Definition extended (here : string) (before mainfiles : list string) : list string :=
  (before
   ++ filter (fun file =>
                negb (Str.mem (posixpath.abspath here file)
                        (map (posixpath.abspath here) before)))
        mainfiles)%list.



(** ** Statements used by the further properties *)

(** A computation that leaves the state as it found it, whatever it
    returns or raises. *)
Definition reads_only {A} (m : M A) : Prop := forall w, snd (m w) = w.

(** A path written without [..].  Where no symbolic link is on the way
    and what the path names is a directory, the place [os.path.normpath]
    makes of such a path is the place the system finds. *)
Definition dotless (s : string) : bool :=
  forallb (fun c => negb (String.eqb c "..")) (Str.split Str.slash s).

(** Two paths that part ways: after a common part [c] they go on with
    different names. *)
Definition diverge (p q : FS.path) : Prop :=
  exists (c : FS.path) (a b : string) (x y : FS.path),
    a <> b /\ p = (c ++ a :: x)%list /\ q = (c ++ b :: y)%list.

(** [reindex] skips the relative path [rel]: it is excluded or reserved. *)
Definition skipped (main_file : string) (excluded : list string) (rel : string)
  : bool :=
  Str.mem rel excluded || Str.mem rel ["bin"; "obj"; "__pycache__"; main_file].

(** The walk of [reindex] read on the tree itself: the files under the
    directory [t], whose root-relative path is [folder], depth first and in
    the order of the entries, each with the relative path of the directory
    that holds it. *)
Fixpoint listing (main_folder main_file : string) (excluded : list string)
  (folder : string) (t : node) : list (string * string) :=
  match t with
  | File _ => []
  | Dir es =>
      (fix entries (es : FS.entries) : list (string * string) :=
         match es with
         | [] => []
         | (n, c) :: r =>
             let rel := folder ++ "/" ++ n in
             app
               (if skipped main_file excluded rel || String.eqb n "__pycache__"
                then []
                else match c with
                     | File _ => [(QCompilerEXE.join_path main_folder rel, folder)]
                     | Dir _ => listing main_folder main_file excluded rel c
                     end)
               (entries r)
         end) es
  end.

(** The same for the names [reindex] starts from. *)
Definition listing_top (self : QCompilerEXE.t) (w : world) : list (string * string) :=
  flat_map
    (fun n =>
       if skipped (QCompilerEXE.mainFile self) (excluded_of self w) n then []
       else match os.stat w (QCompilerEXE.join_path (QCompilerEXE.mainFolder self) n) with
            | Some (File _) =>
                [(QCompilerEXE.join_path (QCompilerEXE.mainFolder self) n, ".")]
            | Some (Dir es) =>
                listing (QCompilerEXE.mainFolder self) (QCompilerEXE.mainFile self)
                  (excluded_of self w) n (Dir es)
            | None => []
            end)
    (QCompilerEXE.mainContents self).

(** What [_reindex_relpath] adds to the file list, on a directory that is
    there and for a budget that covers its depth. *)
Definition lists (fuel : nat) : Prop :=
  forall (w : world) (self : QCompilerEXE.t) (folder : string)
         (comps : list string) (p : FS.path) (es : FS.entries),
    relpath folder comps ->
    os.resolve w (QCompilerEXE.join_path (QCompilerEXE.mainFolder self) folder) = Some p ->
    FS.lookup p (root w) = Some (Dir es) ->
    FS.wf (Dir es) = true ->
    FS.portable (Dir es) = true ->
    FS.height (Dir es) <= fuel ->
    QCompilerEXE._reindex_relpath fuel self folder w
    = (Ok (QCompilerEXE.set_allFiles self
             (QCompilerEXE.allFiles self
              ++ listing (QCompilerEXE.mainFolder self) (QCompilerEXE.mainFile self)
                   (excluded_of self w) folder (Dir es))), w).

(** The name of the bytecode file [compile_file] writes for the source
    named [n]. *)
Definition compiled_name (n : string) : string :=
  fst (posixpath.splitext n) ++ ".pyc".

(** [compile_directory] compiles the file named [n] rather than copying
    it. *)
Definition is_source (n : string) : bool :=
  String.eqb (snd (posixpath.splitext n)) ".py".

(** The name [compile_directory] gives in the destination to the entry
    [n] of the source. *)
Definition written_name (n : string) (c : node) : string :=
  match c with
  | Dir _ => n
  | File _ => if is_source n then compiled_name n else n
  end.

(** What [compile_directory] builds in a new destination out of the
    directory [t], whose path is [directory]: the sub-directories built the
    same way, the bytecode of the sources the compiler accepts, and the
    other files as they are. *)
Fixpoint mirror `{Collaborators} (optimize : Z) (directory : string) (t : node)
  : FS.entries :=
  match t with
  | File _ => []
  | Dir es =>
      (fix entries (es : FS.entries) : FS.entries :=
         match es with
         | [] => []
         | (n, c) :: r =>
             let i_path := posixpath.join directory n in
             app
               match c with
               | Dir _ => [(n, Dir (mirror optimize i_path c))]
               | File source =>
                   if is_source n then
                     match source_to_code i_path source optimize with
                     | inl code => [(compiled_name n, File code)]
                     | inr _ => []
                     end
                   else [(n, File source)]
               end
               (entries r)
         end) es
  end.

(** The messages of the compiler for the sources it rejects, in the order
    of the walk. *)
Fixpoint complaints `{Collaborators} (optimize : Z) (directory : string) (t : node)
  : list string :=
  match t with
  | File _ => []
  | Dir es =>
      (fix entries (es : FS.entries) : list string :=
         match es with
         | [] => []
         | (n, c) :: r =>
             let i_path := posixpath.join directory n in
             app
               match c with
               | Dir _ => complaints optimize i_path c
               | File source =>
                   if is_source n then
                     match source_to_code i_path source optimize with
                     | inl _ => []
                     | inr msg => [msg]
                     end
                   else []
               end
               (entries r)
         end) es
  end.

(** No two entries of a directory of the tree go to the same name of the
    destination. *)
Fixpoint clash_free (t : node) : bool :=
  match t with
  | File _ => true
  | Dir es =>
      (fix entries (es : FS.entries) : bool :=
         match es with
         | [] => true
         | (n, c) :: r =>
             negb (Str.mem (written_name n c)
                     (map (fun e => written_name (fst e) (snd e)) r))
             && clash_free c && entries r
         end) es
  end.

(** What [compile_directory] does for a destination it has to create. *)
Definition mirrors `{Collaborators} (fuel : nat) : Prop :=
  forall (self : QCompilerPYC.t) (w : world) (directory to : string)
         (pdir pto : FS.path) (es : FS.entries) (r0 : node),
    QCompilerPYC.cls self = QCompilerPYC.PYC ->
    os.resolve w directory = Some pdir ->
    os.resolve w to = Some pto ->
    diverge pdir pto ->
    FS.lookup pdir (root w) = Some (Dir es) ->
    FS.wf (Dir es) = true ->
    clash_free (Dir es) = true ->
    FS.lookup pto (root w) = None ->
    FS.mkdirs pto (root w) = Some r0 ->
    FS.height (Dir es) <= fuel ->
    exists r',
      QCompilerPYC.compile_directory fuel self directory (Some to) w
      = (Ok tt, set_stderr (set_root w r')
                  (stderr w ++ complaints (QCompilerPYC.optimize self) directory (Dir es))%list)
      /\ FS.modify pto (fun _ => mirror (QCompilerPYC.optimize self) directory (Dir es)) r0
         = Some r'.

(** [copy_additional_files] leaves out the file named [n]. *)
Definition is_python (n : string) : bool :=
  Str.endswith n ".py" || Str.endswith n ".pyc" || Str.endswith n ".pyd"
  || Str.endswith n ".pyo".

(** What [copy_additional_files] carries over from the directory [t]: its
    directories, and its files other than Python sources and bytecode. *)
Fixpoint additional (t : node) : FS.entries :=
  match t with
  | File _ => []
  | Dir es =>
      (fix entries (es : FS.entries) : FS.entries :=
         match es with
         | [] => []
         | (n, c) :: r =>
             app
               match c with
               | Dir _ => [(n, Dir (additional c))]
               | File data => if is_python n then [] else [(n, File data)]
               end
               (entries r)
         end) es
  end.

(** What [copy_additional_files] does for a destination it has to
    create. *)
Definition copies (fuel : nat) : Prop :=
  forall (w : world) (src dst : string) (psrc pdst : FS.path) (es : FS.entries)
         (r0 : node),
    os.resolve w src = Some psrc ->
    os.resolve w dst = Some pdst ->
    diverge psrc pdst ->
    FS.lookup psrc (root w) = Some (Dir es) ->
    FS.wf (Dir es) = true ->
    FS.lookup pdst (root w) = None ->
    FS.mkdirs pdst (root w) = Some r0 ->
    FS.height (Dir es) < fuel ->
    exists r',
      QCompilerPYZ.copy_additional_files fuel src dst w = (Ok tt, set_root w r')
      /\ FS.modify pdst (fun _ => additional (Dir es)) r0 = Some r'.

(** [k] separators in a row. *)
Fixpoint slashes (k : nat) : string :=
  match k with
  | 0 => ""
  | S k' => String Str.slash (slashes k')
  end.

(** The directory that holds nothing but the nested directories
    [names]. *)
Fixpoint chain (names : list string) : node :=
  match names with
  | [] => Dir []
  | n :: rest => Dir [(n, chain rest)]
  end.

(** ** Further samples *)

(** The entries of [proj] in the sample world, and a bytecode compiler
    for it whose output root is [bin/pyc]. *)
Definition sample_sources : FS.entries :=
  [("a.py", File "def a");
   ("secret.py", File "def s");
   ("data.txt", File "x");
   ("sub", Dir [("b.py", File "oops");
                ("c.py", File "def c")])].

Definition sample_pyc : QCompilerPYC.t :=
  QCompilerPYC.mk QCompilerPYC.PYC true false 2%Z [] "proj" "bin/pyc".

(** * Properties *)

(** ** Strings *)

Lemma append_assoc (a b c : string) : (a ++ b) ++ c = a ++ b ++ c.
Proof. induction a as [|x a IH]; simpl; [reflexivity | now rewrite IH]. Qed.

Lemma append_nil_r (a : string) : a ++ "" = a.
Proof. induction a as [|x a IH]; simpl; [reflexivity | now rewrite IH]. Qed.

Example join_ex : posixpath.join "a/b" "c.py" = "a/b/c.py".
Proof. reflexivity. Qed.
Example join_abs_ex : posixpath.join "a/b" "/c.py" = "/c.py".
Proof. reflexivity. Qed.
Example join_slash_ex : posixpath.join "a/" "c.py" = "a/c.py".
Proof. reflexivity. Qed.
Example split_ex : posixpath.split "a/b/c.py" = ("a/b", "c.py").
Proof. reflexivity. Qed.
Example split_top_ex : posixpath.split "c.py" = ("", "c.py").
Proof. reflexivity. Qed.
Example split_root_ex : posixpath.split "/c.py" = ("/", "c.py").
Proof. reflexivity. Qed.
Example splitext_ex : posixpath.splitext "a.b/main.tar.py" = ("a.b/main.tar", ".py").
Proof. reflexivity. Qed.
Example splitext_dot_ex : posixpath.splitext "a.b/.profile" = ("a.b/.profile", "").
Proof. reflexivity. Qed.
Example splitext_none_ex : posixpath.splitext "a.b/main" = ("a.b/main", "").
Proof. reflexivity. Qed.
Example splitext_dots_ex : posixpath.splitext "..x.py" = ("..x", ".py").
Proof. reflexivity. Qed.
Example normpath_ex : posixpath.normpath "/a//b/./../c/" = "/a/c".
Proof. reflexivity. Qed.
Example normpath_rel_ex : posixpath.normpath "../a/../../b" = "../../b".
Proof. reflexivity. Qed.
Example abspath_ex : posixpath.abspath "/home/u/proj" "../x/main.py" = "/home/u/x/main.py".
Proof. reflexivity. Qed.

(** ** Splitting and joining path strings *)

Lemma split_nonempty (c : ascii) (s : string) : Str.split c s <> [].
Proof.
  induction s as [|a r IH]; simpl; [discriminate|].
  destruct (Ascii.eqb a c); [discriminate|].
  destruct (Str.split c r); discriminate.
Qed.

Lemma split_app_sep (c : ascii) (a b : string) :
  Str.split c (a ++ String c b) = (Str.split c a ++ Str.split c b)%list.
Proof.
  induction a as [|x a IH]; simpl.
  - now rewrite Ascii.eqb_refl.
  - destruct (Ascii.eqb x c); [now rewrite IH|].
    rewrite IH. destruct (Str.split c a) as [|h t] eqn:E; [|reflexivity].
    now destruct (split_nonempty c a).
Qed.

Lemma split_no_sep (c : ascii) (s : string) :
  Str.contains c s = false -> Str.split c s = [s].
Proof.
  induction s as [|a r IH]; simpl; [reflexivity|].
  intros H. apply orb_false_iff in H as [Ha Hr].
  now rewrite Ha, (IH Hr).
Qed.

Lemma is_empty_false (s : string) : Str.is_empty s = false <-> s <> "".
Proof.
  unfold Str.is_empty. destruct (String.eqb_spec s ""); split; congruence.
Qed.

Lemma isabs_app (a b : string) :
  a <> "" -> posixpath.isabs (a ++ b) = posixpath.isabs a.
Proof.
  destruct a as [|x a]; [congruence|]. intros _.
  reflexivity.
Qed.

Lemma endswith_slash (a : string) :
  Str.endswith a "/" = true -> exists a', a = a' ++ "/".
Proof.
  induction a as [|x a IH]; cbn [Str.endswith].
  - discriminate.
  - intros H. apply orb_true_iff in H as [H|H].
    + apply String.eqb_eq in H. exists "". exact H.
    + destruct (IH H) as [a' ->]. now exists (String x a').
Qed.

(** ** Normalising components *)

Lemma norm_comps_app (rooted : bool) (xs ys acc : list string) :
  posixpath.norm_comps rooted (xs ++ ys) acc
  = posixpath.norm_comps rooted ys (rev (posixpath.norm_comps rooted xs acc)).
Proof.
  revert acc; induction xs as [|x xs IH]; intro acc; simpl.
  - now rewrite rev_involutive.
  - destruct (Str.is_empty x || (x =? "."))%bool; [apply IH|].
    destruct (negb (x =? "..")); [apply IH|].
    destruct acc as [|top acc']; [destruct rooted; apply IH|].
    destruct (top =? ".."); apply IH.
Qed.

Lemma valid_name_spec (n : string) :
  FS.valid_name n = true ->
  n <> "" /\ Str.contains Str.slash n = false /\ n <> "." /\ n <> "..".
Proof.
  unfold FS.valid_name. intros H.
  repeat (apply andb_true_iff in H as [H ?]).
  repeat split.
  - apply is_empty_false. now apply negb_true_iff.
  - now apply negb_true_iff.
  - apply String.eqb_neq. now apply negb_true_iff.
  - apply String.eqb_neq. now apply negb_true_iff.
Qed.

Lemma norm_comps_snoc (rooted : bool) (xs acc : list string) (n : string) :
  FS.valid_name n = true ->
  posixpath.norm_comps rooted (xs ++ [n]) acc
  = (posixpath.norm_comps rooted xs acc ++ [n])%list.
Proof.
  intros Hn. apply valid_name_spec in Hn as (Hne & _ & Hdot & Hdd).
  rewrite norm_comps_app. simpl.
  apply is_empty_false in Hne. rewrite Hne.
  apply String.eqb_neq in Hdot, Hdd. rewrite Hdot, Hdd. simpl.
  now rewrite rev_involutive.
Qed.

Lemma norm_comps_snoc_empty (rooted : bool) (xs acc : list string) :
  posixpath.norm_comps rooted (xs ++ [""]) acc
  = posixpath.norm_comps rooted xs acc.
Proof. rewrite norm_comps_app. simpl. now rewrite rev_involutive. Qed.

Lemma norm_comps_valid (cs acc : list string) :
  Forall (fun n => FS.valid_name n = true) cs ->
  posixpath.norm_comps true cs acc = (rev acc ++ cs)%list.
Proof.
  intros H. revert acc. induction H as [|n cs Hn _ IH]; intro acc; simpl.
  - now rewrite app_nil_r.
  - apply valid_name_spec in Hn as (Hne & _ & Hdot & Hdd).
    apply is_empty_false in Hne. rewrite Hne.
    apply String.eqb_neq in Hdot, Hdd. rewrite Hdot, Hdd. simpl.
    rewrite IH. simpl. now rewrite <- app_assoc.
Qed.

(** ** Resolving path strings *)

Lemma resolve_nonempty (w : world) (s : string) (p : FS.path) :
  os.resolve w s = Some p -> s <> "".
Proof.
  unfold os.resolve. destruct (Str.is_empty s) eqn:E; [discriminate|].
  intros _. now apply is_empty_false.
Qed.

(** A valid name after a separator names the entry of that name. *)
Lemma resolve_child (w : world) (a n : string) (p : FS.path) :
  FS.valid_name n = true ->
  os.resolve w a = Some p ->
  os.resolve w (a ++ "/" ++ n) = Some (p ++ [n])%list.
Proof.
  intros Hn Ha. pose proof (resolve_nonempty _ _ _ Ha) as Hne.
  unfold os.resolve in *.
  pose proof (proj2 (is_empty_false a) Hne) as Ea. rewrite Ea in Ha.
  assert (Ea' : Str.is_empty (a ++ "/" ++ n) = false).
  { apply is_empty_false. destruct a; [congruence|discriminate]. }
  rewrite Ea'. rewrite isabs_app by assumption.
  injection Ha as <-. f_equal.
  change (a ++ "/" ++ n) with (a ++ String Str.slash n).
  rewrite split_app_sep.
  destruct (valid_name_spec n Hn) as (_ & Hs & _ & _).
  rewrite (split_no_sep _ _ Hs), app_assoc.
  now apply norm_comps_snoc.
Qed.

Lemma resolve_trailing_slash (w : world) (a : string) :
  a <> "" -> os.resolve w (a ++ "/") = os.resolve w a.
Proof.
  intros Hne. unfold os.resolve.
  rewrite (proj2 (is_empty_false a) Hne).
  assert (Ea' : Str.is_empty (a ++ "/") = false).
  { apply is_empty_false. destruct a; [congruence|discriminate]. }
  rewrite Ea', isabs_app by assumption. f_equal.
  change (a ++ "/") with (a ++ String Str.slash "").
  rewrite split_app_sep. simpl. rewrite app_assoc.
  apply norm_comps_snoc_empty.
Qed.

(** [os.path.join] of a path that resolves and a valid name. *)
Lemma resolve_join (w : world) (d n : string) (p : FS.path) :
  FS.valid_name n = true ->
  os.resolve w d = Some p ->
  os.resolve w (posixpath.join d n) = Some (p ++ [n])%list.
Proof.
  intros Hn Hd. pose proof (resolve_nonempty _ _ _ Hd) as Hne.
  unfold posixpath.join.
  destruct (valid_name_spec n Hn) as (Hn0 & Hs & _ & _).
  assert (Hst : Str.startswith n "/" = false).
  { destruct n as [|x n]; [congruence|].
    cbn [Str.contains] in Hs. cbn [Str.startswith]. unfold Str.slash in Hs.
    apply orb_false_iff in Hs as [Hx _]. now rewrite Hx. }
  rewrite Hst, (proj2 (is_empty_false d) Hne). simpl.
  destruct (Str.endswith d "/") eqn:E.
  - destruct (endswith_slash _ E) as [d' ->].
    destruct d' as [|x d'].
    + unfold os.resolve in *. simpl in *. injection Hd as <-.
      unfold posixpath.isabs, Str.startswith. simpl.
      rewrite (split_no_sep _ _ Hs). simpl.
      apply is_empty_false in Hn0. rewrite Hn0.
      destruct (valid_name_spec n Hn) as (_ & _ & Hdot & Hdd).
      apply String.eqb_neq in Hdot, Hdd. now rewrite Hdot, Hdd.
    + rewrite resolve_trailing_slash in Hd by discriminate.
      rewrite append_assoc. now apply resolve_child.
  - now apply resolve_child.
Qed.

(** ** The tree *)

Lemma find_set_same (n : string) (v : node) (es : FS.entries) :
  FS.find n (FS.set n v es) = Some v.
Proof.
  induction es as [|[m c] r IH]; cbn [FS.set FS.find].
  - now rewrite String.eqb_refl.
  - destruct (String.eqb n m) eqn:E; cbn [FS.find]; rewrite ?E, ?String.eqb_refl; auto.
Qed.

Lemma set_find_id (n : string) (c : node) (es : FS.entries) :
  FS.find n es = Some c -> FS.set n c es = es.
Proof.
  induction es as [|[m c'] r IH]; cbn [FS.set FS.find]; [discriminate|].
  destruct (String.eqb_spec n m) as [->|Hne].
  - now intros [= ->].
  - intros H. now rewrite (IH H).
Qed.

Lemma set_set (n : string) (u v : node) (es : FS.entries) :
  FS.set n v (FS.set n u es) = FS.set n v es.
Proof.
  induction es as [|[m c] r IH]; cbn [FS.set].
  - now rewrite String.eqb_refl.
  - destruct (String.eqb n m) eqn:E; cbn [FS.set]; rewrite ?E, ?String.eqb_refl, ?IH; auto.
Qed.

Lemma del_set (n : string) (v : node) (es : FS.entries) :
  FS.del n (FS.set n v es) = FS.del n es.
Proof.
  induction es as [|[m c] r IH]; cbn [FS.set FS.del].
  - now rewrite String.eqb_refl.
  - destruct (String.eqb n m) eqn:E; cbn [FS.del]; rewrite ?E, ?String.eqb_refl, ?IH; auto.
Qed.

Lemma lookup_app (p q : FS.path) (t : node) :
  FS.lookup (p ++ q)%list t
  = match FS.lookup p t with
    | Some t' => FS.lookup q t'
    | None => None
    end.
Proof.
  revert t; induction p as [|n p IH]; intro t; cbn [app FS.lookup]; [reflexivity|].
  destruct t as [d|es]; [reflexivity|].
  destruct (FS.find n es); [apply IH|reflexivity].
Qed.

Lemma lookup_snoc (p : FS.path) (n : string) (t : node) :
  FS.lookup (p ++ [n])%list t
  = match FS.lookup p t with
    | Some (Dir es) => FS.find n es
    | _ => None
    end.
Proof.
  rewrite lookup_app. destruct (FS.lookup p t) as [[d|es]|]; cbn [FS.lookup]; auto.
  now destruct (FS.find n es).
Qed.

(** Rewriting the entries of a directory that is there. *)
Lemma modify_spec (p : FS.path) (f : FS.entries -> FS.entries) (t : node)
  (es : FS.entries) :
  FS.lookup p t = Some (Dir es) ->
  exists t', FS.modify p f t = Some t' /\ FS.lookup p t' = Some (Dir (f es)).
Proof.
  revert t; induction p as [|n p IH]; intros t H.
  - cbn in H. injection H as ->. cbn. eauto.
  - destruct t as [d|es']; [discriminate|]. cbn [FS.lookup] in H.
    destruct (FS.find n es') as [c|] eqn:E; [|discriminate].
    destruct (IH c H) as (c' & Hm & Hl).
    exists (Dir (FS.set n c' es')). cbn [FS.modify FS.lookup].
    now rewrite E, Hm, find_set_same.
Qed.

Lemma modify_modify (p : FS.path) (f g : FS.entries -> FS.entries) (t t' : node) :
  FS.modify p f t = Some t' ->
  FS.modify p g t' = FS.modify p (fun es => g (f es)) t.
Proof.
  revert t t'; induction p as [|n p IH]; intros t t' H.
  - destruct t as [d|es]; [discriminate|]. cbn in H. injection H as <-. reflexivity.
  - destruct t as [d|es]; [discriminate|]. cbn [FS.modify] in *.
    destruct (FS.find n es) as [c|] eqn:E; [|discriminate].
    destruct (FS.modify p f c) as [c'|] eqn:Ec; [|discriminate].
    injection H as <-. cbn [FS.modify]. rewrite find_set_same, (IH _ _ Ec).
    destruct (FS.modify p (fun es0 => g (f es0)) c); [|reflexivity].
    now rewrite set_set.
Qed.

Lemma modify_ext (p : FS.path) (f g : FS.entries -> FS.entries) (t : node) :
  (forall es, f es = g es) -> FS.modify p f t = FS.modify p g t.
Proof.
  intros Hfg. revert t; induction p as [|n p IH]; intro t;
    destruct t as [d|es]; cbn [FS.modify]; auto.
  - now rewrite Hfg.
  - destruct (FS.find n es); [|reflexivity]. now rewrite IH.
Qed.

Lemma modify_id (p : FS.path) (t : node) (es : FS.entries) :
  FS.lookup p t = Some (Dir es) -> FS.modify p (fun _ => es) t = Some t.
Proof.
  revert t; induction p as [|n p IH]; intros t H.
  - cbn in H. injection H as ->. reflexivity.
  - destruct t as [d|es']; [discriminate|]. cbn [FS.lookup FS.modify] in *.
    destruct (FS.find n es') as [c|] eqn:E; [|discriminate].
    now rewrite (IH c H), (set_find_id _ _ _ E).
Qed.

(** Removing a directory after rewriting its entries is removing it. *)
Lemma modify_then_delete (par : FS.path) (n : string)
  (g : FS.entries -> FS.entries) (t t' : node) :
  FS.modify (par ++ [n])%list g t = Some t' ->
  FS.modify par (FS.del n) t' = FS.modify par (FS.del n) t.
Proof.
  revert t t'; induction par as [|m par IH]; intros t t' H.
  - destruct t as [d|es]; [discriminate|]. cbn [app FS.modify] in *.
    destruct (FS.find n es) as [c|] eqn:E; [|discriminate].
    destruct c as [d|es_c]; [discriminate|].
    injection H as <-. now rewrite del_set.
  - destruct t as [d|es]; [discriminate|]. cbn [app FS.modify] in *.
    destruct (FS.find m es) as [c|] eqn:E; [|discriminate].
    destruct (FS.modify (par ++ [n])%list g c) as [c'|] eqn:Ec; [|discriminate].
    injection H as <-. cbn [FS.modify]. rewrite find_set_same, (IH _ _ Ec).
    destruct (FS.modify par (FS.del n) c); [|reflexivity].
    now rewrite set_set.
Qed.

Lemma unsnoc_snoc (p : FS.path) (n : string) :
  FS.unsnoc (p ++ [n])%list = Some (p, n).
Proof.
  induction p as [|m p IH]; cbn [app FS.unsnoc]; [reflexivity|].
  now rewrite IH.
Qed.

Lemma set_root_root (w : world) : set_root w (root w) = w.
Proof. now destruct w. Qed.

Lemma set_root_twice (w : world) (r r' : node) :
  set_root (set_root w r) r' = set_root w r'.
Proof. reflexivity. Qed.

Lemma resolve_set_root (w : world) (r : node) (s : string) :
  os.resolve (set_root w r) s = os.resolve w s.
Proof. reflexivity. Qed.

(** Well-formedness and height of the entries of a directory. *)
Lemma wf_cons (n : string) (c : node) (r : FS.entries) :
  FS.wf (Dir ((n, c) :: r)) = true ->
  FS.valid_name n = true /\ FS.find n r = None /\ FS.wf c = true
  /\ FS.wf (Dir r) = true.
Proof.
  cbn [FS.wf]. intros H.
  apply andb_true_iff in H as [H Hr].
  apply andb_true_iff in H as [H Hc].
  apply andb_true_iff in H as [Hv Hf].
  repeat split; auto.
  destruct (FS.find n r); [discriminate|reflexivity].
Qed.

Lemma height_cons (n : string) (c : node) (r : FS.entries) :
  FS.height (Dir ((n, c) :: r)) = S (Nat.max (FS.height c) (pred (FS.height (Dir r)))).
Proof. reflexivity. Qed.

(** ** The monad *)

Lemma bind_ok {A B} (m : M A) (k : A -> M B) (w w' : world) (a : A) :
  m w = (Ok a, w') -> bind m k w = k a w'.
Proof. unfold bind. now intros ->. Qed.

Lemma bind_raise {A B} (m : M A) (k : A -> M B) (w w' : world) (e : exn) :
  m w = (Raise e, w') -> bind m k w = (Raise e, w').
Proof. unfold bind. now intros ->. Qed.

(** ** Cleaning a directory *)

Lemma stat_join (w : world) (d n : string) (p : FS.path) (es : FS.entries) :
  FS.valid_name n = true ->
  os.resolve w d = Some p ->
  FS.lookup p (root w) = Some (Dir es) ->
  os.stat w (posixpath.join d n) = FS.find n es.
Proof.
  intros Hn Hd Hl. unfold os.stat.
  now rewrite (resolve_join _ _ _ _ Hn Hd), lookup_snoc, Hl.
Qed.

Lemma height_entries_le (n : string) (c : node) (r : FS.entries) (k : nat) :
  FS.height (Dir ((n, c) :: r)) <= S k ->
  FS.height c <= k /\ FS.height (Dir r) <= S k.
Proof.
  rewrite height_cons. cbn [FS.height]. lia.
Qed.

Lemma clean_loop (fuel : nat) (IH : cleans fuel) :
  forall (rest : FS.entries) (w : world) (dir : string) (p : FS.path),
    os.resolve w dir = Some p ->
    FS.lookup p (root w) = Some (Dir rest) ->
    FS.wf (Dir rest) = true ->
    FS.height (Dir rest) <= S fuel ->
    exists r_end,
      FS.modify p (fun _ => []) (root w) = Some r_end
      /\ for_each (map fst rest)
           (fun item =>
              let i_path := posixpath.join dir item in
              d <- os.path_isdir i_path ;;
              if d then clean_directory fuel i_path else os.remove i_path) w
         = (Ok tt, set_root w r_end).
Proof.
  induction rest as [|[m c] rest IHrest]; intros w dir p Hres Hlook Hwf Hh.
  - exists (root w). split; [now apply modify_id|].
    cbn. now rewrite set_root_root.
  - apply wf_cons in Hwf as (Hm & Hfresh & Hc & Hrest).
    apply height_entries_le in Hh as (Hhc & Hhrest).
    destruct (modify_spec p (FS.del m) _ _ Hlook) as (r1 & Hmod & Hlook1).
    cbn [FS.del] in Hlook1. rewrite String.eqb_refl in Hlook1.
    assert (Hstat : os.stat w (posixpath.join dir m) = Some c).
    { rewrite (stat_join _ _ _ _ _ Hm Hres Hlook). cbn [FS.find].
      now rewrite String.eqb_refl. }
    assert (Hstep :
      (let i_path := posixpath.join dir m in
       d <- os.path_isdir i_path ;;
       if d then clean_directory fuel i_path else os.remove i_path) w
      = (Ok tt, set_root w r1)).
    { cbv zeta. unfold bind, os.path_isdir. rewrite Hstat.
      destruct c as [data|es_c]; cbn [FS.is_dir].
      - unfold os.remove, os.modify_parent. rewrite Hstat.
        rewrite (resolve_join _ _ _ _ Hm Hres), unsnoc_snoc, Hmod. reflexivity.
      - destruct (IH w (posixpath.join dir m) p m es_c) as (r' & Hr' & Hrun);
          auto using resolve_join.
        + unfold os.stat in Hstat.
          now rewrite (resolve_join _ _ _ _ Hm Hres) in Hstat.
        + rewrite Hrun. congruence. }
    destruct (IHrest (set_root w r1) dir p) as (r_end & Hend & Hrun); auto.
    exists r_end. split.
    + rewrite (modify_modify _ _ _ _ _ Hmod) in Hend.
      rewrite <- Hend. now apply modify_ext.
    + cbn [map fst for_each]. rewrite (bind_ok _ _ _ _ _ Hstep). exact Hrun.
Qed.

Lemma clean_directory_removes (fuel : nat) : cleans fuel.
Proof.
  induction fuel as [|fuel IH]; intros w dir par n es Hres Hlook Hwf Hh.
  - cbn in Hh. lia.
  - assert (Hstat : os.stat w dir = Some (Dir es)).
    { unfold os.stat. now rewrite Hres. }
    destruct (clean_loop fuel IH es w dir _ Hres Hlook Hwf Hh)
      as (r_end & Hend & Hloop).
    assert (Hpar : exists es_par, FS.lookup par (root w) = Some (Dir es_par)).
    { rewrite lookup_snoc in Hlook.
      destruct (FS.lookup par (root w)) as [[d|es_par]|]; try discriminate; eauto. }
    destruct Hpar as (es_par & Hpar).
    destruct (modify_spec par (FS.del n) _ _ Hpar) as (r' & Hdel & _).
    exists r'. split; [exact Hdel|].
    cbn [clean_directory].
    assert (Hlist : os.listdir dir w = (Ok (map fst es), w)).
    { unfold os.listdir. now rewrite Hstat. }
    rewrite (bind_ok _ _ _ _ _ Hlist), (bind_ok _ _ _ _ _ Hloop).
    destruct (modify_spec _ (fun _ => []) _ _ Hlook) as (r_end' & Hend' & Hempty).
    rewrite Hend in Hend'. injection Hend' as <-.
    unfold os.rmdir, os.stat, os.modify_parent.
    rewrite resolve_set_root, Hres. cbn [root set_root]. rewrite Hempty.
    rewrite unsnoc_snoc, (modify_then_delete _ _ _ _ _ Hend), Hdel.
    reflexivity.
Qed.

Lemma wf_find (n : string) (c : node) (es : FS.entries) :
  FS.wf (Dir es) = true -> FS.find n es = Some c -> FS.wf c = true.
Proof.
  induction es as [|[m c'] r IH]; cbn [FS.find]; [discriminate|].
  intros Hwf. apply wf_cons in Hwf as (_ & _ & Hc & Hr).
  destruct (String.eqb n m); [now intros [= <-]|auto].
Qed.

Lemma valid_find (n : string) (c : node) (es : FS.entries) :
  FS.wf (Dir es) = true -> FS.find n es = Some c -> FS.valid_name n = true.
Proof.
  induction es as [|[m c'] r IH]; cbn [FS.find]; [discriminate|].
  intros Hwf. apply wf_cons in Hwf as (Hm & _ & _ & Hr).
  destruct (String.eqb_spec n m) as [->|]; auto.
Qed.

Lemma wf_lookup (p : FS.path) (t t' : node) :
  FS.wf t = true -> FS.lookup p t = Some t' -> FS.wf t' = true.
Proof.
  revert t; induction p as [|n p IH]; intros t Hwf H.
  - cbn in H. now injection H as <-.
  - destruct t as [d|es]; [discriminate|]. cbn [FS.lookup] in H.
    destruct (FS.find n es) as [c|] eqn:E; [|discriminate].
    eauto using wf_find.
Qed.

Lemma height_find (n : string) (c : node) (es : FS.entries) :
  FS.find n es = Some c -> FS.height c < FS.height (Dir es).
Proof.
  induction es as [|[m c'] r IH]; cbn [FS.find]; [discriminate|].
  rewrite height_cons.
  destruct (String.eqb n m).
  - intros [= <-]. lia.
  - intros H. specialize (IH H). lia.
Qed.

Lemma height_lookup (p : FS.path) (t t' : node) :
  FS.lookup p t = Some t' -> FS.height t' <= FS.height t.
Proof.
  revert t; induction p as [|n p IH]; intros t H.
  - cbn in H. injection H as <-. lia.
  - destruct t as [d|es]; [discriminate|]. cbn [FS.lookup] in H.
    destruct (FS.find n es) as [c|] eqn:E; [|discriminate].
    pose proof (height_find _ _ _ E). specialize (IH _ H). lia.
Qed.

Lemma find_del_same (n : string) (es : FS.entries) :
  FS.wf (Dir es) = true -> FS.find n (FS.del n es) = None.
Proof.
  induction es as [|[m c] r IH]; cbn [FS.del]; [reflexivity|].
  intros Hwf. apply wf_cons in Hwf as (_ & Hfresh & _ & Hr).
  destruct (String.eqb_spec n m) as [->|Hne]; [exact Hfresh|].
  cbn [FS.find]. apply String.eqb_neq in Hne. rewrite Hne. auto.
Qed.

Lemma unsnoc_some (p : FS.path) :
  p <> [] -> exists par n, p = (par ++ [n])%list.
Proof.
  intros H. destruct (exists_last H) as (par & n & ->). eauto.
Qed.

Lemma modify_some (p : FS.path) (f : FS.entries -> FS.entries) (t t' : node) :
  FS.modify p f t = Some t' -> exists es, FS.lookup p t = Some (Dir es).
Proof.
  revert t t'; induction p as [|n p IH]; intros t t' H;
    (destruct t as [d|es]; [discriminate|]).
  - cbn. eauto.
  - cbn [FS.lookup FS.modify] in *.
    destruct (FS.find n es) as [c|]; [|discriminate].
    destruct (FS.modify p f c) as [c'|] eqn:E; [|discriminate].
    eauto.
Qed.

(** Nothing is left at or under an entry taken out of a well-formed tree. *)
Lemma lookup_removed (par q : FS.path) (n : string) (t t' : node) :
  FS.wf t = true ->
  FS.modify par (FS.del n) t = Some t' ->
  FS.lookup (par ++ n :: q)%list t' = None.
Proof.
  intros Hwf Hmod.
  destruct (modify_some _ _ _ _ Hmod) as (es & E).
  destruct (modify_spec par (FS.del n) _ _ E) as (t'' & Hmod' & Hl).
  rewrite Hmod in Hmod'. injection Hmod' as <-.
  rewrite lookup_app, Hl. cbn [FS.lookup].
  now rewrite (find_del_same n es (wf_lookup _ _ _ Hwf E)).
Qed.

(** An existing directory other than the root is taken out of its parent. *)
Lemma clean_directory_existing (fuel : nat) (w : world) (directory : string)
  (p : FS.path) (es : FS.entries) :
  FS.wf (root w) = true ->
  FS.height (root w) < fuel ->
  os.resolve w directory = Some p ->
  p <> [] ->
  FS.lookup p (root w) = Some (Dir es) ->
  exists r',
    FS.remove_entry p (root w) = Some r'
    /\ clean_directory fuel directory w = (Ok tt, set_root w r')
    /\ os.stat (set_root w r') directory = None
    /\ forall q, FS.lookup (p ++ q)%list r' = None.
Proof.
  intros Hwf Hfuel Hres Hp Hlook.
  destruct (unsnoc_some p Hp) as (par & n & ->).
  destruct (clean_directory_removes fuel w directory par n es) as (r' & Hdel & Hrun);
    auto.
  - eauto using wf_lookup.
  - pose proof (height_lookup _ _ _ Hlook). lia.
  - exists r'. unfold FS.remove_entry. rewrite unsnoc_snoc.
    repeat split; auto.
    + unfold os.stat. rewrite resolve_set_root, Hres. cbn [root set_root].
      rewrite <- (app_nil_r (par ++ [n])), <- app_assoc.
      now apply lookup_removed with (t := root w).
    + intros q. rewrite <- app_assoc. now apply lookup_removed with (t := root w).
Qed.

(** ** The tree with symbolic links *)

Lemma px_find_set_same (n : string) (v : Posix.inode) (es : Posix.entries) :
  Posix.find n (Posix.set n v es) = Some v.
Proof.
  induction es as [|[m c] r IH]; cbn [Posix.set Posix.find].
  - now rewrite String.eqb_refl.
  - destruct (String.eqb n m) eqn:E; cbn [Posix.find];
      rewrite ?E, ?String.eqb_refl; auto.
Qed.

Lemma px_find_set_other (n m : string) (v : Posix.inode) (es : Posix.entries) :
  n <> m -> Posix.find m (Posix.set n v es) = Posix.find m es.
Proof.
  intros Hne. induction es as [|[k c] r IH]; cbn [Posix.set Posix.find].
  - apply String.eqb_neq in Hne. rewrite String.eqb_sym in Hne. now rewrite Hne.
  - destruct (String.eqb_spec n k) as [->|Hnk]; cbn [Posix.find].
    + destruct (String.eqb_spec m k) as [->|]; [congruence|reflexivity].
    + now rewrite IH.
Qed.

Lemma px_find_del_other (n m : string) (es : Posix.entries) :
  n <> m -> Posix.find m (Posix.del n es) = Posix.find m es.
Proof.
  intros Hne. induction es as [|[k c] r IH]; cbn [Posix.del Posix.find];
    [reflexivity|].
  destruct (String.eqb_spec n k) as [->|Hnk]; cbn [Posix.find].
  - destruct (String.eqb_spec m k) as [->|]; [congruence|reflexivity].
  - now rewrite IH.
Qed.

Lemma px_set_find_id (n : string) (c : Posix.inode) (es : Posix.entries) :
  Posix.find n es = Some c -> Posix.set n c es = es.
Proof.
  induction es as [|[m c'] r IH]; cbn [Posix.set Posix.find]; [discriminate|].
  destruct (String.eqb_spec n m) as [->|Hne].
  - now intros [= ->].
  - intros H. now rewrite (IH H).
Qed.

Lemma px_set_set (n : string) (u v : Posix.inode) (es : Posix.entries) :
  Posix.set n v (Posix.set n u es) = Posix.set n v es.
Proof.
  induction es as [|[m c] r IH]; cbn [Posix.set].
  - now rewrite String.eqb_refl.
  - destruct (String.eqb n m) eqn:E; cbn [Posix.set];
      rewrite ?E, ?String.eqb_refl, ?IH; auto.
Qed.

Lemma px_del_set (n : string) (v : Posix.inode) (es : Posix.entries) :
  Posix.del n (Posix.set n v es) = Posix.del n es.
Proof.
  induction es as [|[m c] r IH]; cbn [Posix.set Posix.del].
  - now rewrite String.eqb_refl.
  - destruct (String.eqb n m) eqn:E; cbn [Posix.del];
      rewrite ?E, ?String.eqb_refl, ?IH; auto.
Qed.

Lemma px_lookup_app (p q : FS.path) (t : Posix.inode) :
  Posix.lookup (p ++ q)%list t
  = match Posix.lookup p t with
    | Some t' => Posix.lookup q t'
    | None => None
    end.
Proof.
  revert t; induction p as [|n p IH]; intro t; cbn [app Posix.lookup];
    [reflexivity|].
  destruct t as [d|es|l]; try reflexivity.
  destruct (Posix.find n es); [apply IH|reflexivity].
Qed.

Lemma px_lookup_snoc (p : FS.path) (n : string) (t : Posix.inode) :
  Posix.lookup (p ++ [n])%list t
  = match Posix.lookup p t with
    | Some (Posix.Folder es) => Posix.find n es
    | _ => None
    end.
Proof.
  rewrite px_lookup_app.
  destruct (Posix.lookup p t) as [[d|es|l]|]; cbn [Posix.lookup]; auto.
  now destruct (Posix.find n es).
Qed.

(** What is looked up under a place is looked up in a directory. *)
Lemma px_lookup_under (p q : FS.path) (t : Posix.inode) (es : Posix.entries) :
  Posix.lookup (p ++ q)%list t = Some (Posix.Folder es) ->
  exists e, Posix.lookup p t = Some (Posix.Folder e).
Proof.
  rewrite px_lookup_app.
  destruct (Posix.lookup p t) as [[d|e|l]|]; try discriminate.
  - destruct q; discriminate.
  - eauto.
  - destruct q; discriminate.
Qed.

Lemma px_modify_spec (p : FS.path) (f : Posix.entries -> Posix.entries)
  (t : Posix.inode) (es : Posix.entries) :
  Posix.lookup p t = Some (Posix.Folder es) ->
  exists t', Posix.modify p f t = Some t'
             /\ Posix.lookup p t' = Some (Posix.Folder (f es)).
Proof.
  revert t; induction p as [|n p IH]; intros t H.
  - cbn in H. injection H as ->. cbn. eauto.
  - destruct t as [d|es'|l]; try discriminate. cbn [Posix.lookup] in H.
    destruct (Posix.find n es') as [c|] eqn:E; [|discriminate].
    destruct (IH c H) as (c' & Hm & Hl).
    exists (Posix.Folder (Posix.set n c' es')). cbn [Posix.modify Posix.lookup].
    now rewrite E, Hm, px_find_set_same.
Qed.

Lemma px_modify_at (p : FS.path) (f : Posix.entries -> Posix.entries)
  (t t' : Posix.inode) (es : Posix.entries) :
  Posix.lookup p t = Some (Posix.Folder es) -> Posix.modify p f t = Some t' ->
  Posix.lookup p t' = Some (Posix.Folder (f es)).
Proof.
  intros Hl Hm. destruct (px_modify_spec p f t es Hl) as (t'' & Hm' & Hl').
  congruence.
Qed.

Lemma px_modify_some (p : FS.path) (f : Posix.entries -> Posix.entries)
  (t t' : Posix.inode) :
  Posix.modify p f t = Some t' ->
  exists es, Posix.lookup p t = Some (Posix.Folder es).
Proof.
  revert t t'; induction p as [|n p IH]; intros t t' H;
    (destruct t as [d|es|l]; try discriminate).
  - cbn. eauto.
  - cbn [Posix.lookup Posix.modify] in *.
    destruct (Posix.find n es) as [c|]; [|discriminate].
    destruct (Posix.modify p f c) as [c'|] eqn:E; [|discriminate].
    eauto.
Qed.

Lemma px_modify_modify (p : FS.path) (f g : Posix.entries -> Posix.entries)
  (t t' : Posix.inode) :
  Posix.modify p f t = Some t' ->
  Posix.modify p g t' = Posix.modify p (fun es => g (f es)) t.
Proof.
  revert t t'; induction p as [|n p IH]; intros t t' H.
  - destruct t as [d|es|l]; try discriminate. cbn in H. injection H as <-.
    reflexivity.
  - destruct t as [d|es|l]; try discriminate. cbn [Posix.modify] in *.
    destruct (Posix.find n es) as [c|] eqn:E; [|discriminate].
    destruct (Posix.modify p f c) as [c'|] eqn:Ec; [|discriminate].
    injection H as <-. cbn [Posix.modify]. rewrite px_find_set_same, (IH _ _ Ec).
    destruct (Posix.modify p (fun es0 => g (f es0)) c); [|reflexivity].
    now rewrite px_set_set.
Qed.

Lemma px_modify_ext (p : FS.path) (f g : Posix.entries -> Posix.entries)
  (t : Posix.inode) :
  (forall es, f es = g es) -> Posix.modify p f t = Posix.modify p g t.
Proof.
  intros Hfg. revert t; induction p as [|n p IH]; intro t;
    destruct t as [d|es|l]; cbn [Posix.modify]; auto.
  - now rewrite Hfg.
  - destruct (Posix.find n es); [|reflexivity]. now rewrite IH.
Qed.

Lemma px_modify_id (p : FS.path) (t : Posix.inode) (es : Posix.entries) :
  Posix.lookup p t = Some (Posix.Folder es) ->
  Posix.modify p (fun _ => es) t = Some t.
Proof.
  revert t; induction p as [|n p IH]; intros t H.
  - cbn in H. injection H as ->. reflexivity.
  - destruct t as [d|es'|l]; try discriminate.
    cbn [Posix.lookup Posix.modify] in *.
    destruct (Posix.find n es') as [c|] eqn:E; [|discriminate].
    now rewrite (IH c H), (px_set_find_id _ _ _ E).
Qed.

(** Removing a directory after rewriting its entries is removing it. *)
Lemma px_modify_then_delete (par : FS.path) (n : string)
  (g : Posix.entries -> Posix.entries) (t t' : Posix.inode) :
  Posix.modify (par ++ [n])%list g t = Some t' ->
  Posix.modify par (Posix.del n) t' = Posix.modify par (Posix.del n) t.
Proof.
  revert t t'; induction par as [|m par IH]; intros t t' H.
  - destruct t as [d|es|l]; try discriminate. cbn [app Posix.modify] in *.
    destruct (Posix.find n es) as [c|] eqn:E; [|discriminate].
    destruct c as [d|es_c|l]; try discriminate.
    injection H as <-. now rewrite px_del_set.
  - destruct t as [d|es|l]; try discriminate. cbn [app Posix.modify] in *.
    destruct (Posix.find m es) as [c|] eqn:E; [|discriminate].
    destruct (Posix.modify (par ++ [n])%list g c) as [c'|] eqn:Ec; [|discriminate].
    injection H as <-. cbn [Posix.modify]. rewrite px_find_set_same, (IH _ _ Ec).
    destruct (Posix.modify par (Posix.del n) c); [|reflexivity].
    now rewrite px_set_set.
Qed.

(** Rewriting a directory does not show on a path that has parted ways with
    it. *)
Lemma px_lookup_modify_diverge (c x y : FS.path) (a b : string)
  (f : Posix.entries -> Posix.entries) (t t' : Posix.inode) :
  a <> b ->
  Posix.modify (c ++ a :: x)%list f t = Some t' ->
  Posix.lookup (c ++ b :: y)%list t' = Posix.lookup (c ++ b :: y)%list t.
Proof.
  intros Hab. revert t t'. induction c as [|n c IH]; intros t t' H;
    (destruct t as [d|es|l]; try discriminate);
    cbn [app Posix.modify Posix.lookup] in *.
  - destruct (Posix.find a es) as [ca|]; [|discriminate].
    destruct (Posix.modify x f ca) as [ca'|]; [|discriminate].
    injection H as <-. cbn [Posix.lookup]. now rewrite px_find_set_other.
  - destruct (Posix.find n es) as [cn|] eqn:E; [|discriminate].
    destruct (Posix.modify (c ++ a :: x)%list f cn) as [cn'|] eqn:Em;
      [|discriminate].
    injection H as <-. cbn [Posix.lookup]. rewrite px_find_set_same. eauto.
Qed.

(** Taking an entry out of its directory does not show on a path that has
    parted ways with the entry. *)
Lemma px_lookup_remove_diverge (p q : FS.path) (t t' : Posix.inode) :
  diverge p q ->
  Posix.remove_entry p t = Some t' ->
  Posix.lookup q t' = Posix.lookup q t.
Proof.
  intros (c & a & b & x & y & Hab & -> & ->). unfold Posix.remove_entry.
  destruct x as [|x0 x] using rev_ind.
  - rewrite unsnoc_snoc. intros H.
    destruct (px_modify_some _ _ _ _ H) as (es & Hl).
    destruct (px_modify_spec c (Posix.del a) _ _ Hl) as (t'' & Hm & Hl').
    rewrite H in Hm. injection Hm as <-.
    rewrite !px_lookup_app, Hl, Hl'. cbn [Posix.lookup].
    now rewrite px_find_del_other.
  - clear IHx.
    replace (c ++ a :: x ++ [x0])%list with ((c ++ a :: x) ++ [x0])%list
      by now rewrite <- app_assoc.
    rewrite unsnoc_snoc. now apply px_lookup_modify_diverge.
Qed.

Lemma px_wf_cons (n : string) (c : Posix.inode) (r : Posix.entries) :
  Posix.wf (Posix.Folder ((n, c) :: r)) = true ->
  FS.valid_name n = true /\ Posix.find n r = None /\ Posix.wf c = true
  /\ Posix.wf (Posix.Folder r) = true.
Proof.
  cbn [Posix.wf]. intros H.
  apply andb_true_iff in H as [H Hr].
  apply andb_true_iff in H as [H Hc].
  apply andb_true_iff in H as [Hv Hf].
  repeat split; auto.
  destruct (Posix.find n r); [discriminate|reflexivity].
Qed.

Lemma px_wf_find (n : string) (c : Posix.inode) (es : Posix.entries) :
  Posix.wf (Posix.Folder es) = true -> Posix.find n es = Some c ->
  Posix.wf c = true.
Proof.
  induction es as [|[m c'] r IH]; cbn [Posix.find]; [discriminate|].
  intros Hwf. apply px_wf_cons in Hwf as (_ & _ & Hc & Hr).
  destruct (String.eqb n m); [now intros [= <-]|auto].
Qed.

Lemma px_wf_lookup (p : FS.path) (t t' : Posix.inode) :
  Posix.wf t = true -> Posix.lookup p t = Some t' -> Posix.wf t' = true.
Proof.
  revert t; induction p as [|n p IH]; intros t Hwf H.
  - cbn in H. now injection H as <-.
  - destruct t as [d|es|l]; try discriminate. cbn [Posix.lookup] in H.
    destruct (Posix.find n es) as [c|] eqn:E; [|discriminate].
    eauto using px_wf_find.
Qed.

Lemma px_find_del_same (n : string) (es : Posix.entries) :
  Posix.wf (Posix.Folder es) = true -> Posix.find n (Posix.del n es) = None.
Proof.
  induction es as [|[m c] r IH]; cbn [Posix.del]; [reflexivity|].
  intros Hwf. apply px_wf_cons in Hwf as (_ & Hfresh & _ & Hr).
  destruct (String.eqb_spec n m) as [->|Hne]; [exact Hfresh|].
  cbn [Posix.find]. apply String.eqb_neq in Hne. rewrite Hne. auto.
Qed.

Lemma px_linkfree_cons (n : string) (c : Posix.inode) (r : Posix.entries) :
  Posix.linkfree (Posix.Folder ((n, c) :: r)) = true ->
  Posix.linkfree c = true /\ Posix.linkfree (Posix.Folder r) = true.
Proof. cbn [Posix.linkfree]. intros H. now apply andb_true_iff in H. Qed.

Lemma px_height_cons (n : string) (c : Posix.inode) (r : Posix.entries) :
  Posix.height (Posix.Folder ((n, c) :: r))
  = S (Nat.max (Posix.height c) (pred (Posix.height (Posix.Folder r)))).
Proof. reflexivity. Qed.

Lemma px_height_find (n : string) (c : Posix.inode) (es : Posix.entries) :
  Posix.find n es = Some c -> Posix.height c < Posix.height (Posix.Folder es).
Proof.
  induction es as [|[m c'] r IH]; cbn [Posix.find]; [discriminate|].
  rewrite px_height_cons.
  destruct (String.eqb n m).
  - intros [= <-]. lia.
  - intros H. specialize (IH H). lia.
Qed.

Lemma px_height_lookup (p : FS.path) (t t' : Posix.inode) :
  Posix.lookup p t = Some t' -> Posix.height t' <= Posix.height t.
Proof.
  revert t; induction p as [|n p IH]; intros t H.
  - cbn in H. injection H as <-. lia.
  - destruct t as [d|es|l]; try discriminate. cbn [Posix.lookup] in H.
    destruct (Posix.find n es) as [c|] eqn:E; [|discriminate].
    pose proof (px_height_find _ _ _ E). specialize (IH _ H). lia.
Qed.

Lemma px_linkfree_find (n : string) (c : Posix.inode) (es : Posix.entries) :
  Posix.linkfree (Posix.Folder es) = true -> Posix.find n es = Some c ->
  Posix.linkfree c = true.
Proof.
  induction es as [|[m c'] r IH]; cbn [Posix.find]; [discriminate|].
  intros Hl. apply px_linkfree_cons in Hl as (Hc & Hr).
  destruct (String.eqb n m); [now intros [= <-]|auto].
Qed.

Lemma px_linkfree_lookup (p : FS.path) (t t' : Posix.inode) :
  Posix.linkfree t = true -> Posix.lookup p t = Some t' ->
  Posix.linkfree t' = true.
Proof.
  revert t; induction p as [|n p IH]; intros t Hl H.
  - cbn in H. now injection H as <-.
  - destruct t as [d|es|l]; try discriminate. cbn [Posix.lookup] in H.
    destruct (Posix.find n es) as [c|] eqn:E; [|discriminate].
    eauto using px_linkfree_find.
Qed.

(** ** The walk of a path *)

Lemma walk_nil (links : nat) (t : Posix.inode) (follow : bool) (cur : FS.path) :
  Posix.walk links t follow cur [] = inl cur.
Proof. destruct links; reflexivity. Qed.

Lemma walk_cons (links : nat) (t : Posix.inode) (follow : bool) (cur : FS.path)
  (c : string) (rest : list string) :
  Posix.walk links t follow cur (c :: rest)
  = match Posix.lookup cur t with
    | Some (Posix.Folder es) =>
        if Str.is_empty c || String.eqb c "." then
          Posix.walk links t follow cur rest
        else if String.eqb c ".." then
          Posix.walk links t follow (removelast cur) rest
        else
          match Posix.find c es with
          | None => inr Posix.ENOENT
          | Some (Posix.Symlink target) =>
              if negb follow && match rest with [] => true | _ => false end
              then inl (cur ++ [c])%list
              else if Str.is_empty target then inr Posix.ENOENT
              else
                match links with
                | 0 => inr Posix.ELOOP
                | S links' =>
                    Posix.walk links' t follow
                      (if posixpath.isabs target then [] else cur)
                      (Posix.parts target ++ rest)%list
                end
          | Some _ => Posix.walk links t follow (cur ++ [c])%list rest
          end
    | Some _ => inr Posix.ENOTDIR
    | None => inr Posix.ENOENT
    end.
Proof. destruct links; reflexivity. Qed.

Lemma valid_name_tests (c : string) :
  FS.valid_name c = true ->
  Str.is_empty c = false /\ String.eqb c "." = false /\ String.eqb c ".." = false.
Proof.
  intros H. destruct (valid_name_spec c H) as (H0 & _ & H1 & H2).
  repeat split; [now apply is_empty_false| |]; now apply String.eqb_neq.
Qed.

(** Names, blanks and dots are walked through directories that are there,
    whatever the links to follow. *)
Lemma walk_prefix (links : nat) (t : Posix.inode) (follow : bool) :
  forall (cs : list string) (cur : FS.path) (rest : list string)
         (es : Posix.entries),
    forallb Posix.name_or_blank cs = true ->
    Posix.lookup (cur ++ filter FS.valid_name cs)%list t
    = Some (Posix.Folder es) ->
    Posix.walk links t follow cur (cs ++ rest)%list
    = Posix.walk links t follow (cur ++ filter FS.valid_name cs)%list rest.
Proof.
  induction cs as [|c cs IH]; intros cur rest es Hall Hl.
  - cbn [filter app]. now rewrite app_nil_r.
  - cbn [forallb] in Hall. apply andb_true_iff in Hall as [Hc Hall].
    cbn [filter] in Hl |- *. cbn [app]. rewrite walk_cons.
    destruct (px_lookup_under cur _ t es Hl) as (e0 & Hcur). rewrite Hcur.
    destruct (FS.valid_name c) eqn:Hv.
    + destruct (valid_name_tests c Hv) as (-> & -> & ->). cbn [orb].
      rewrite px_lookup_app, Hcur in Hl. cbn [Posix.lookup] in Hl.
      destruct (Posix.find c e0) as [ch|] eqn:E; [|discriminate].
      replace (cur ++ c :: filter FS.valid_name cs)%list
        with ((cur ++ [c]) ++ filter FS.valid_name cs)%list
        by now rewrite <- app_assoc.
      assert (Hl' : Posix.lookup ((cur ++ [c]) ++ filter FS.valid_name cs)%list t
                    = Some (Posix.Folder es)).
      { now rewrite px_lookup_app, px_lookup_snoc, Hcur, E. }
      destruct ch as [d|e1|l].
      * destruct (filter FS.valid_name cs); discriminate.
      * exact (IH (cur ++ [c])%list rest es Hall Hl').
      * destruct (filter FS.valid_name cs); discriminate.
    + unfold Posix.name_or_blank in Hc. rewrite Hv, orb_false_r in Hc.
      rewrite Hc. exact (IH cur rest es Hall Hl).
Qed.

(** ** Paths written with names *)

Lemma strip_blanks (k : nat) : Posix.strip_trailing (repeat "" k) = [].
Proof.
  induction k as [|k IH]; [reflexivity|].
  cbn [repeat Posix.strip_trailing]. now rewrite IH.
Qed.

Lemma strip_spec (cs : list string) :
  exists k, cs = (Posix.strip_trailing cs ++ repeat "" k)%list.
Proof.
  induction cs as [|c r (k & IH)]; [now exists 0|].
  cbn [Posix.strip_trailing].
  destruct (Posix.strip_trailing r) as [|x r'] eqn:E.
  - cbn [app] in IH. destruct (Str.is_empty c) eqn:Ec.
    + apply String.eqb_eq in Ec. subst c. exists (S k). cbn [app repeat].
      now rewrite <- IH.
    + exists k. cbn [app]. now rewrite <- IH.
  - exists k. cbn [app] in *. now rewrite <- IH.
Qed.

Lemma strip_snoc (cs : list string) (m : string) :
  Str.is_empty m = false ->
  Posix.strip_trailing (cs ++ [m])%list = (cs ++ [m])%list.
Proof.
  intros Hm. induction cs as [|c cs IH]; cbn [app Posix.strip_trailing].
  - now rewrite Hm.
  - rewrite IH. now destruct (cs ++ [m])%list eqn:E; [destruct cs; discriminate|].
Qed.

Lemma unsnoc_spec (cs init : list string) (n : string) :
  FS.unsnoc cs = Some (init, n) -> cs = (init ++ [n])%list.
Proof.
  revert init; induction cs as [|c cs IH]; intros init; cbn [FS.unsnoc];
    [discriminate|].
  destruct (FS.unsnoc cs) as [[par m]|] eqn:E.
  - intros [= <- <-]. cbn [app]. now rewrite (IH par eq_refl).
  - intros [= <- <-]. destruct cs as [|x cs]; [reflexivity|].
    cbn [FS.unsnoc] in E. destruct (FS.unsnoc cs) as [[? ?]|]; discriminate.
Qed.

Lemma blanks_are_blank (k : nat) :
  forallb Posix.name_or_blank (repeat "" k) = true
  /\ filter FS.valid_name (repeat "" k) = [].
Proof. induction k as [|k [IH1 IH2]]; [now split|]. cbn. now split. Qed.

(** The components of a path that [direct] takes: names, blanks and dots,
    then a name, then blanks. *)
Lemma direct_shape (w : Posix.state) (s : string) (p : FS.path) :
  Posix.direct w s = Some p ->
  exists (init : list string) (n : string) (k : nat),
    Posix.parts s = (init ++ n :: repeat "" k)%list
    /\ forallb Posix.name_or_blank init = true
    /\ FS.valid_name n = true
    /\ p = ((Posix.start w s ++ filter FS.valid_name init) ++ [n])%list
    /\ s <> "".
Proof.
  unfold Posix.direct. intros H.
  assert (Hs : s <> "") by (intros ->; discriminate H).
  destruct (FS.unsnoc (Posix.strip_trailing (Posix.parts s))) as [[init n]|] eqn:E;
    [|discriminate].
  destruct (forallb Posix.name_or_blank init) eqn:Hi; [|discriminate].
  destruct (FS.valid_name n) eqn:Hn; [|discriminate].
  cbn [andb] in H. injection H as <-.
  apply unsnoc_spec in E. destruct (strip_spec (Posix.parts s)) as (k & Hk).
  rewrite E, <- app_assoc in Hk. exists init, n, k. repeat split; auto.
Qed.

Lemma direct_parts (w : Posix.state) (s : string) (p : FS.path) :
  Posix.direct w s = Some p ->
  forallb Posix.name_or_blank (Posix.parts s) = true
  /\ p = (Posix.start w s ++ filter FS.valid_name (Posix.parts s))%list
  /\ s <> "".
Proof.
  intros H. destruct (direct_shape w s p H) as (init & n & k & Hk & Hi & Hn & -> & Hs).
  destruct (blanks_are_blank k) as (Hb1 & Hb2).
  rewrite Hk, !forallb_app, !filter_app, Hi. cbn [forallb filter].
  rewrite Hb1, Hb2, Hn. unfold Posix.name_or_blank at 1.
  rewrite Hn, !orb_true_r. repeat split; auto. now rewrite app_assoc.
Qed.

(** The components of a directory joined with a name. *)
Lemma parts_join (w : Posix.state) (d m : string) :
  forallb Posix.name_or_blank (Posix.parts d) = true ->
  d <> "" ->
  FS.valid_name m = true ->
  exists cs,
    Posix.parts (posixpath.join d m) = (cs ++ [m])%list
    /\ forallb Posix.name_or_blank cs = true
    /\ filter FS.valid_name cs = filter FS.valid_name (Posix.parts d)
    /\ Posix.start w (posixpath.join d m) = Posix.start w d
    /\ Str.is_empty (posixpath.join d m) = false.
Proof.
  intros Hall Hd Hm. destruct (valid_name_spec m Hm) as (Hm0 & Hs & _ & _).
  unfold posixpath.join.
  assert (Hst : Str.startswith m "/" = false).
  { destruct m as [|x m]; [congruence|].
    cbn [Str.contains] in Hs. cbn [Str.startswith]. unfold Str.slash in Hs.
    apply orb_false_iff in Hs as [Hx _]. now rewrite Hx. }
  rewrite Hst, (proj2 (is_empty_false d) Hd). cbn [orb].
  assert (Hne : forall x, Str.is_empty (d ++ x) = false).
  { intros x. apply is_empty_false. destruct d; [congruence|discriminate]. }
  destruct (Str.endswith d "/") eqn:E.
  - destruct (endswith_slash _ E) as [d' ->].
    exists (Posix.parts d'). unfold Posix.parts in *.
    change (d' ++ "/") with (d' ++ String Str.slash "") in Hall |- *.
    rewrite split_app_sep in Hall |- *. cbn [Str.split] in Hall |- *.
    rewrite forallb_app in Hall. apply andb_true_iff in Hall as [Hall _].
    repeat split; auto.
    + rewrite append_assoc. cbn [append].
      now rewrite split_app_sep, (split_no_sep _ _ Hs).
    + rewrite filter_app. cbn [filter]. change (FS.valid_name "") with false.
      cbv iota. now rewrite app_nil_r.
    + unfold Posix.start. now rewrite isabs_app.
  - exists (Posix.parts d). unfold Posix.parts.
    change (d ++ "/" ++ m) with (d ++ String Str.slash m).
    rewrite split_app_sep, (split_no_sep _ _ Hs).
    repeat split; auto.
    unfold Posix.start. now rewrite isabs_app.
Qed.

Lemma direct_join (w : Posix.state) (d m : string) (p : FS.path) :
  Posix.direct w d = Some p ->
  FS.valid_name m = true ->
  Posix.direct w (posixpath.join d m) = Some (p ++ [m])%list.
Proof.
  intros Hd Hm. destruct (direct_parts w d p Hd) as (Hall & -> & Hne).
  destruct (parts_join w d m Hall Hne Hm) as (cs & Hp & Hcs & Hf & Hst & _).
  destruct (valid_name_tests m Hm) as (Hm0 & _ & _).
  unfold Posix.direct. rewrite Hp, (strip_snoc cs m Hm0), unsnoc_snoc, Hcs, Hm.
  cbn [andb]. now rewrite Hst, Hf.
Qed.

Lemma direct_set_root (w : Posix.state) (r : Posix.inode) (s : string) :
  Posix.direct (Posix.set_root w r) s = Posix.direct w s.
Proof. reflexivity. Qed.

(** A path written with names leads to the directory at its place. *)
Lemma resolve_direct (w : Posix.state) (s : string) (p : FS.path)
  (es : Posix.entries) (follow : bool) :
  Posix.direct w s = Some p ->
  Posix.lookup p (Posix.root w) = Some (Posix.Folder es) ->
  Posix.resolve w follow s = inl p.
Proof.
  intros Hd Hl. destruct (direct_parts w s p Hd) as (Hall & -> & Hne).
  unfold Posix.resolve. rewrite (proj2 (is_empty_false s) Hne).
  rewrite <- (app_nil_r (Posix.parts s)) at 1.
  rewrite (walk_prefix _ _ _ _ _ _ es Hall Hl). apply walk_nil.
Qed.

Lemma stat_direct (w : Posix.state) (s : string) (p : FS.path)
  (es : Posix.entries) :
  Posix.direct w s = Some p ->
  Posix.lookup p (Posix.root w) = Some (Posix.Folder es) ->
  Posix.stat w s = inl (Posix.Folder es).
Proof.
  intros Hd Hl. unfold Posix.stat.
  now rewrite (resolve_direct w s p es true Hd Hl), Hl.
Qed.

(** An entry that is not a link, by the name of its directory and its
    own. *)
Lemma stat_entry (w : Posix.state) (d m : string) (p : FS.path)
  (es : Posix.entries) (c : Posix.inode) :
  Posix.direct w d = Some p ->
  Posix.lookup p (Posix.root w) = Some (Posix.Folder es) ->
  FS.valid_name m = true ->
  Posix.find m es = Some c ->
  Posix.linkfree c = true ->
  Posix.stat w (posixpath.join d m) = inl c.
Proof.
  intros Hd Hl Hm Hf Hc. destruct (direct_parts w d p Hd) as (Hall & Hp & Hne).
  destruct (parts_join w d m Hall Hne Hm) as (cs & Hparts & Hcs & Hfil & Hst & He).
  destruct (valid_name_tests m Hm) as (Hm0 & Hm1 & Hm2).
  assert (Hres : Posix.resolve w true (posixpath.join d m) = inl (p ++ [m])%list).
  { unfold Posix.resolve. rewrite He, Hparts, Hst.
    assert (Hl' : Posix.lookup (Posix.start w d ++ filter FS.valid_name cs)%list
                    (Posix.root w) = Some (Posix.Folder es)).
    { rewrite Hfil, <- Hp. exact Hl. }
    rewrite (walk_prefix _ _ _ _ _ _ es Hcs Hl'), Hfil, <- Hp.
    rewrite walk_cons, Hl, Hm0, Hm1, Hm2, Hf. cbn [orb].
    destruct c as [x|e|l]; [apply walk_nil|apply walk_nil|discriminate Hc]. }
  unfold Posix.stat. now rewrite Hres, px_lookup_snoc, Hl, Hf.
Qed.

(** The directory and the name of an entry, as unlinking takes them. *)
Lemma parent_entry (w : Posix.state) (d m : string) (p : FS.path)
  (es : Posix.entries) :
  Posix.direct w d = Some p ->
  Posix.lookup p (Posix.root w) = Some (Posix.Folder es) ->
  FS.valid_name m = true ->
  Posix.parent w (posixpath.join d m) = inl (p, es, m, false).
Proof.
  intros Hd Hl Hm. destruct (direct_parts w d p Hd) as (Hall & Hp & Hne).
  destruct (parts_join w d m Hall Hne Hm) as (cs & Hparts & Hcs & Hfil & Hst & He).
  destruct (valid_name_tests m Hm) as (Hm0 & _ & _).
  unfold Posix.parent. rewrite He, Hparts, (strip_snoc cs m Hm0), unsnoc_snoc, Hst.
  assert (Hl' : Posix.lookup (Posix.start w d ++ filter FS.valid_name cs)%list
                  (Posix.root w) = Some (Posix.Folder es)).
  { rewrite Hfil, <- Hp. exact Hl. }
  rewrite <- (app_nil_r cs) at 1.
  rewrite (walk_prefix _ _ _ _ _ _ es Hcs Hl'), walk_nil, Hfil, <- Hp, Hl.
  now rewrite Nat.eqb_refl.
Qed.

Lemma parent_direct (w : Posix.state) (s : string) (par : FS.path) (n : string)
  (e : Posix.entries) :
  Posix.direct w s = Some (par ++ [n])%list ->
  Posix.lookup par (Posix.root w) = Some (Posix.Folder e) ->
  exists b, Posix.parent w s = inl (par, e, n, b).
Proof.
  intros Hd Hl. pose proof (direct_parts w s _ Hd) as (_ & _ & Hne).
  unfold Posix.direct in Hd. unfold Posix.parent.
  rewrite (proj2 (is_empty_false s) Hne).
  destruct (FS.unsnoc (Posix.strip_trailing (Posix.parts s))) as [[init m]|] eqn:E;
    [|discriminate].
  destruct (forallb Posix.name_or_blank init) eqn:Hi; [|discriminate].
  destruct (FS.valid_name m) eqn:Hm; [|discriminate].
  cbn [andb] in Hd. injection Hd as Hd. apply app_inj_tail in Hd as [Hpar <-].
  cbv beta iota zeta.
  assert (Hw : Posix.walk Posix.MAXSYMLINKS (Posix.root w) true (Posix.start w s)
                 init = inl par).
  { rewrite <- (app_nil_r init) at 1.
    rewrite (walk_prefix _ _ _ _ _ _ e Hi); rewrite Hpar; [|exact Hl].
    apply walk_nil. }
  rewrite Hw, Hl. eauto.
Qed.

(** ** Cleaning a directory of the filesystem with links *)

Lemma px_bind_ok {A B} (m : Posix.M A) (k : A -> Posix.M B) (w w' : Posix.state)
  (a : A) :
  m w = (Ok a, w') -> Posix.bind m k w = k a w'.
Proof. unfold Posix.bind. now intros ->. Qed.


Lemma px_set_root_root (w : Posix.state) : Posix.set_root w (Posix.root w) = w.
Proof. now destruct w. Qed.

Lemma px_height_entries_le (n : string) (c : Posix.inode) (r : Posix.entries)
  (k : nat) :
  Posix.height (Posix.Folder ((n, c) :: r)) <= S k ->
  Posix.height c <= k /\ Posix.height (Posix.Folder r) <= S k.
Proof. rewrite px_height_cons. cbn [Posix.height]. lia. Qed.

(** Rewriting the entries of a directory is setting it anew in its
    parent. *)
Lemma px_modify_snoc (par : FS.path) (n : string)
  (f : Posix.entries -> Posix.entries) (es : Posix.entries) :
  forall (t : Posix.inode) (ep : Posix.entries),
    Posix.lookup par t = Some (Posix.Folder ep) ->
    Posix.find n ep = Some (Posix.Folder es) ->
    Posix.modify (par ++ [n])%list f t
    = Posix.modify par (Posix.set n (Posix.Folder (f es))) t.
Proof.
  induction par as [|m par IH]; intros t ep Hl Hf.
  - cbn in Hl. injection Hl as ->. cbn [app Posix.modify]. now rewrite Hf.
  - destruct t as [d|e|l]; try discriminate. cbn [Posix.lookup] in Hl.
    cbn [app Posix.modify].
    destruct (Posix.find m e) as [c|]; [|reflexivity].
    now rewrite (IH c ep Hl Hf).
Qed.

Lemma px_clean_loop (fuel : nat) (IH : Posix.cleans fuel) :
  forall (rest : Posix.entries) (w : Posix.state) (dir : string) (p : FS.path),
    Posix.direct w dir = Some p ->
    Posix.lookup p (Posix.root w) = Some (Posix.Folder rest) ->
    Posix.wf (Posix.Folder rest) = true ->
    Posix.linkfree (Posix.Folder rest) = true ->
    Posix.height (Posix.Folder rest) <= S fuel ->
    exists r_end,
      Posix.modify p (fun _ => []) (Posix.root w) = Some r_end
      /\ Posix.for_each (map fst rest)
           (fun item =>
              let i_path := posixpath.join dir item in
              Posix.bind (Posix.path_isdir i_path)
                (fun d =>
                   if d then Posix.clean_directory fuel i_path
                   else Posix.remove i_path)) w
         = (Ok tt, Posix.set_root w r_end).
Proof.
  induction rest as [|[m c] rest IHrest]; intros w dir p Hdir Hlook Hwf Hfree Hh.
  - exists (Posix.root w). split; [now apply px_modify_id|].
    cbn. now rewrite px_set_root_root.
  - apply px_wf_cons in Hwf as (Hm & Hfresh & Hc & Hrest).
    apply px_linkfree_cons in Hfree as (Hfc & Hfrest).
    apply px_height_entries_le in Hh as (Hhc & Hhrest).
    destruct (px_modify_spec p (Posix.del m) _ _ Hlook) as (r1 & Hmod & Hlook1).
    cbn [Posix.del] in Hlook1. rewrite String.eqb_refl in Hlook1.
    assert (Hfind : Posix.find m ((m, c) :: rest) = Some c).
    { cbn [Posix.find]. now rewrite String.eqb_refl. }
    pose proof (stat_entry w dir m p _ c Hdir Hlook Hm Hfind Hfc) as Hstat.
    destruct (valid_name_tests m Hm) as (_ & Hm1 & Hm2).
    assert (Hstep :
      (let i_path := posixpath.join dir m in
       Posix.bind (Posix.path_isdir i_path)
         (fun d =>
            if d then Posix.clean_directory fuel i_path
            else Posix.remove i_path)) w
      = (Ok tt, Posix.set_root w r1)).
    { cbv zeta. unfold Posix.bind, Posix.path_isdir. rewrite Hstat.
      destruct c as [data|es_c|l]; [| |discriminate Hfc].
      - unfold Posix.remove, Posix.unlink_at.
        rewrite (parent_entry w dir m p _ Hdir Hlook Hm), Hm1, Hm2, Hfind.
        cbn [orb]. now rewrite Hmod.
      - destruct (IH w (posixpath.join dir m) p m es_c) as (r' & Hr' & Hrun);
          auto using direct_join.
        + now rewrite px_lookup_snoc, Hlook.
        + rewrite Hrun. congruence. }
    destruct (IHrest (Posix.set_root w r1) dir p) as (r_end & Hend & Hrun); auto.
    exists r_end. split.
    + cbn [Posix.root Posix.set_root] in Hend.
      rewrite (px_modify_modify _ _ _ _ _ Hmod) in Hend.
      rewrite <- Hend. now apply px_modify_ext.
    + cbn [map fst Posix.for_each]. rewrite (px_bind_ok _ _ _ _ _ Hstep).
      exact Hrun.
Qed.

Lemma px_clean_directory_removes (fuel : nat) : Posix.cleans fuel.
Proof.
  induction fuel as [|fuel IH]; intros w dir par n es Hdir Hlook Hwf Hfree Hh.
  - cbn in Hh. lia.
  - pose proof (stat_direct w dir _ es Hdir Hlook) as Hstat.
    destruct (px_clean_loop fuel IH es w dir _ Hdir Hlook Hwf Hfree Hh)
      as (r_end & Hend & Hloop).
    assert (Hpar : exists ep, Posix.lookup par (Posix.root w)
                              = Some (Posix.Folder ep)
                              /\ Posix.find n ep = Some (Posix.Folder es)).
    { rewrite px_lookup_snoc in Hlook.
      destruct (Posix.lookup par (Posix.root w)) as [[d|ep|l]|];
        try discriminate; eauto. }
    destruct Hpar as (ep & Hpar & Hn).
    destruct (px_modify_spec par (Posix.del n) _ _ Hpar) as (r' & Hdel & _).
    exists r'. split; [exact Hdel|].
    cbn [Posix.clean_directory].
    assert (Hlist : Posix.listdir dir w = (Ok (map fst es), w)).
    { unfold Posix.listdir. now rewrite Hstat. }
    rewrite (px_bind_ok _ _ _ _ _ Hlist), (px_bind_ok _ _ _ _ _ Hloop).
    rewrite (px_modify_snoc par n _ es _ ep Hpar Hn) in Hend.
    pose proof (px_modify_at par _ _ _ ep Hpar Hend) as Hpar'.
    destruct (parent_direct (Posix.set_root w r_end) dir par n _ Hdir Hpar')
      as (b & Hparent).
    assert (Hv : FS.valid_name n = true).
    { destruct (direct_shape w dir _ Hdir) as (i & n' & k & _ & _ & Hn' & E & _).
      apply app_inj_tail in E as [_ ->]. exact Hn'. }
    destruct (valid_name_tests n Hv) as (_ & Hn1 & Hn2).
    unfold Posix.rmdir, Posix.unlink_at.
    rewrite Hparent, Hn1, Hn2, px_find_set_same. cbn [orb Posix.root Posix.set_root].
    rewrite (px_modify_modify _ _ _ _ _ Hend).
    rewrite (px_modify_ext par _ (Posix.del n)) by (intros e0; apply px_del_set).
    now rewrite Hdel.
Qed.

(** Nothing is left at or under an entry taken out of a well-formed tree. *)
Lemma px_lookup_removed (par q : FS.path) (n : string) (t t' : Posix.inode) :
  Posix.wf t = true ->
  Posix.modify par (Posix.del n) t = Some t' ->
  Posix.lookup (par ++ n :: q)%list t' = None.
Proof.
  intros Hwf Hmod.
  destruct (px_modify_some _ _ _ _ Hmod) as (es & E).
  rewrite px_lookup_app, (px_modify_at par _ _ _ es E Hmod). cbn [Posix.lookup].
  now rewrite (px_find_del_same n es (px_wf_lookup _ _ _ Hwf E)).
Qed.

(** A directory that is there, is reached without a link and holds none
    is taken out of its parent, and its path then names nothing. *)
Lemma px_clean_directory_existing (fuel : nat) (w : Posix.state)
  (directory : string) (p : FS.path) (es : Posix.entries) :
  Posix.wf (Posix.root w) = true ->
  Posix.height (Posix.root w) < fuel ->
  Posix.direct w directory = Some p ->
  Posix.lookup p (Posix.root w) = Some (Posix.Folder es) ->
  Posix.linkfree (Posix.Folder es) = true ->
  exists r',
    Posix.remove_entry p (Posix.root w) = Some r'
    /\ Posix.clean_directory fuel directory w = (Ok tt, Posix.set_root w r')
    /\ Posix.stat (Posix.set_root w r') directory = inr Posix.ENOENT
    /\ forall q, Posix.lookup (p ++ q)%list r' = None.
Proof.
  intros Hwf Hfuel Hdir Hlook Hfree.
  destruct (direct_shape w directory p Hdir)
    as (init & n & k & Hparts & Hinit & Hn & Hp & Hne).
  set (par := (Posix.start w directory ++ filter FS.valid_name init)%list) in *.
  subst p.
  destruct (px_clean_directory_removes fuel w directory par n es)
    as (r' & Hdel & Hrun); auto.
  - eauto using px_wf_lookup.
  - pose proof (px_height_lookup _ _ _ Hlook). lia.
  - exists r'. unfold Posix.remove_entry. rewrite unsnoc_snoc.
    repeat split; auto.
    + destruct (px_modify_some _ _ _ _ Hdel) as (ep & Hpar).
      pose proof (px_modify_at par _ _ _ ep Hpar Hdel) as Hpar'.
      destruct (valid_name_tests n Hn) as (Hn0 & Hn1 & Hn2).
      unfold Posix.stat, Posix.resolve.
      rewrite (proj2 (is_empty_false directory) Hne), Hparts.
      change (Posix.start (Posix.set_root w r') directory)
        with (Posix.start w directory).
      cbn [Posix.root Posix.set_root].
      rewrite (walk_prefix _ _ _ init _ _ _ Hinit Hpar').
      fold par. rewrite walk_cons, Hpar', Hn0, Hn1, Hn2. cbn [orb].
      now rewrite (px_find_del_same n ep (px_wf_lookup _ _ _ Hwf Hpar)).
    + intros q. rewrite <- app_assoc. now apply px_lookup_removed with (t := Posix.root w).
Qed.




(** ** The two filesystems *)

Lemma lift_find (n : string) (es : FS.entries) :
  Posix.find n (lift_entries es) = option_map lift (FS.find n es).
Proof.
  induction es as [|[m c] r IH]; [reflexivity|].
  cbn [lift_entries map fst snd Posix.find FS.find].
  destruct (String.eqb n m); [reflexivity|exact IH].
Qed.

Lemma lift_del (n : string) (es : FS.entries) :
  Posix.del n (lift_entries es) = lift_entries (FS.del n es).
Proof.
  induction es as [|[m c] r IH]; [reflexivity|].
  cbn [lift_entries map fst snd Posix.del FS.del].
  destruct (String.eqb n m); [reflexivity|].
  cbn [map fst snd]. f_equal. exact IH.
Qed.

Lemma lift_set (n : string) (c : node) (es : FS.entries) :
  Posix.set n (lift c) (lift_entries es) = lift_entries (FS.set n c es).
Proof.
  induction es as [|[m c'] r IH]; [reflexivity|].
  cbn [lift_entries map fst snd Posix.set FS.set].
  destruct (String.eqb n m); [reflexivity|].
  cbn [map fst snd]. f_equal. exact IH.
Qed.

Lemma lift_dir (es : FS.entries) : lift (Dir es) = Posix.Folder (lift_entries es).
Proof. reflexivity. Qed.

Lemma lift_lookup (p : FS.path) :
  forall t : node, Posix.lookup p (lift t) = option_map lift (FS.lookup p t).
Proof.
  induction p as [|n p IH]; intros t; [reflexivity|].
  destruct t as [d|es]; [reflexivity|].
  rewrite lift_dir. cbn [Posix.lookup FS.lookup]. rewrite lift_find.
  destruct (FS.find n es) as [c|]; [apply IH|reflexivity].
Qed.

Lemma lift_remove (p : FS.path) (n : string) :
  forall t : node,
    Posix.modify p (Posix.del n) (lift t)
    = option_map lift (FS.modify p (FS.del n) t).
Proof.
  induction p as [|m p IH]; intros t; (destruct t as [d|es]; [reflexivity|]);
    rewrite lift_dir; cbn [Posix.modify FS.modify].
  - cbn [option_map]. now rewrite lift_del, lift_dir.
  - rewrite lift_find. destruct (FS.find m es) as [c|]; [|reflexivity].
    cbn [option_map]. rewrite IH.
    destruct (FS.modify p (FS.del n) c) as [c'|]; [|reflexivity].
    cbn [option_map]. now rewrite lift_set, lift_dir.
Qed.

(** The lifted tree holds no link and is as well formed and as deep as
    the tree. *)
Lemma lift_facts (k : nat) :
  forall t : node,
    FS.height t <= k ->
    Posix.linkfree (lift t) = true
    /\ Posix.wf (lift t) = FS.wf t
    /\ Posix.height (lift t) = FS.height t.
Proof.
  induction k as [|k IH]; intros t Hk; (destruct t as [d|es]; [now repeat split|]).
  - cbn in Hk. lia.
  - rewrite lift_dir. induction es as [|[n c] r IHr]; [now repeat split|].
    apply height_entries_le in Hk as [Hc Hr].
    destruct (IH c Hc) as (L1 & W1 & H1). destruct (IHr Hr) as (L2 & W2 & H2).
    change (lift_entries ((n, c) :: r)) with ((n, lift c) :: lift_entries r).
    rewrite px_height_cons, height_cons, H1, H2.
    cbn [Posix.linkfree Posix.wf FS.wf] in *. rewrite L1, L2, W1, W2, lift_find.
    repeat split. destruct (FS.find n r); reflexivity.
Qed.

(** The names on the way to something that is there are valid. *)
Lemma lookup_names (p : FS.path) :
  forall t x : node,
    FS.wf t = true -> FS.lookup p t = Some x ->
    Forall (fun n => FS.valid_name n = true) p.
Proof.
  induction p as [|n p IH]; intros t x Hwf Hl; [constructor|].
  destruct t as [d|es]; [discriminate|]. cbn [FS.lookup] in Hl.
  destruct (FS.find n es) as [c|] eqn:E; [|discriminate].
  constructor; [exact (valid_find _ _ _ Hwf E)|].
  exact (IH c x (wf_find _ _ _ Hwf E) Hl).
Qed.

Lemma norm_comps_blank (rooted : bool) (cs : list string) :
  forall acc : list string,
    forallb Posix.name_or_blank cs = true ->
    posixpath.norm_comps rooted cs acc = (rev acc ++ filter FS.valid_name cs)%list.
Proof.
  induction cs as [|c cs IH]; intros acc Hall.
  - cbn. now rewrite app_nil_r.
  - cbn [forallb] in Hall. apply andb_true_iff in Hall as [Hc Hall].
    cbn [posixpath.norm_comps filter]. destruct (FS.valid_name c) eqn:Hv.
    + destruct (valid_name_tests c Hv) as (-> & -> & ->). cbn [orb negb].
      rewrite (IH _ Hall). cbn [rev]. now rewrite <- app_assoc.
    + unfold Posix.name_or_blank in Hc. rewrite Hv, orb_false_r in Hc.
      rewrite Hc. exact (IH _ Hall).
Qed.

(** A path written with names, taken as [os.path.normpath] takes it, is
    the place the walk leads to. *)
Lemma resolve_of_direct (w : world) (s : string) (p : FS.path) (x : node) :
  FS.wf (root w) = true ->
  Posix.direct (lift_state w) s = Some p ->
  FS.lookup p (root w) = Some x ->
  os.resolve w s = Some p.
Proof.
  intros Hwf Hd Hl. destruct (direct_parts _ s p Hd) as (Hall & Hp & Hne).
  unfold os.resolve. rewrite (proj2 (is_empty_false s) Hne). f_equal.
  unfold Posix.start in Hp. cbn [Posix.cwd lift_state] in Hp.
  set (st := if posixpath.isabs s then [] else cwd w) in *.
  assert (Hst : Forall (fun n => FS.valid_name n = true) st).
  { pose proof (lookup_names p _ _ Hwf Hl) as Hn. rewrite Hp in Hn.
    now apply Forall_app in Hn. }
  rewrite norm_comps_app, (norm_comps_valid st [] Hst). cbn [rev app].
  fold (Posix.parts s). rewrite (norm_comps_blank true _ _ Hall), rev_involutive.
  now symmetry.
Qed.

(** On a tree of files and directories, [clean_directory] does the same
    over the two filesystems: of a directory that is there and is named
    by a path without [..] that ends in a name, it leaves the same
    tree. *)
Lemma clean_directory_agrees (fuel : nat) (w : world) (directory : string)
  (p : FS.path) (es : FS.entries) :
  FS.wf (root w) = true ->
  FS.height (root w) < fuel ->
  Posix.direct (lift_state w) directory = Some p ->
  FS.lookup p (root w) = Some (Dir es) ->
  exists r',
    clean_directory fuel directory w = (Ok tt, set_root w r')
    /\ Posix.clean_directory fuel directory (lift_state w)
       = (Ok tt, lift_state (set_root w r')).
Proof.
  intros Hwf Hfuel Hd Hl.
  pose proof (resolve_of_direct w directory p _ Hwf Hd Hl) as Hres.
  assert (Hp : p <> []).
  { destruct (direct_shape _ _ _ Hd) as (i & n & k & _ & _ & _ & -> & _).
    intros E. apply app_eq_nil in E as [_ E]. discriminate E. }
  destruct (clean_directory_existing fuel w directory p es Hwf Hfuel Hres Hp Hl)
    as (r' & Hrem & Hrun & _).
  exists r'. split; [exact Hrun|].
  destruct (lift_facts (FS.height (root w)) (root w) (le_n _)) as (Hfree & Hw & Hh).
  destruct (px_clean_directory_existing fuel (lift_state w) directory p
              (lift_entries es)) as (r'' & Hrem' & Hrun' & _).
  - cbn [Posix.root lift_state]. now rewrite Hw.
  - cbn [Posix.root lift_state]. now rewrite Hh.
  - exact Hd.
  - cbn [Posix.root lift_state]. now rewrite lift_lookup, Hl.
  - rewrite <- lift_dir. apply (px_linkfree_lookup p (lift (root w))); auto.
    now rewrite lift_lookup, Hl.
  - rewrite Hrun'. f_equal. unfold lift_state, Posix.set_root.
    cbn [Posix.root Posix.cwd root cwd set_root]. f_equal.
    unfold Posix.remove_entry in Hrem'. unfold FS.remove_entry in Hrem.
    cbn [Posix.root lift_state] in Hrem'.
    destruct (FS.unsnoc p) as [[par n]|]; [|discriminate].
    rewrite lift_remove, Hrem in Hrem'. now injection Hrem' as <-.
Qed.

(** ** Relative paths built by [join_path] *)

Lemma contains_app (c : ascii) (a b : string) :
  Str.contains c (a ++ b) = Str.contains c a || Str.contains c b.
Proof.
  induction a as [|x a IH]; cbn [append Str.contains]; [reflexivity|].
  now rewrite IH, orb_assoc.
Qed.

Lemma replace_id (a b : ascii) (s : string) :
  Str.contains a s = false -> Str.replace a b s = s.
Proof.
  induction s as [|x s IH]; cbn [Str.contains Str.replace]; [reflexivity|].
  intros H. apply orb_false_iff in H as [Hx Hs]. now rewrite Hx, IH.
Qed.

Lemma replace_app (a b : ascii) (s t : string) :
  Str.replace a b (s ++ t) = Str.replace a b s ++ Str.replace a b t.
Proof.
  induction s as [|x s IH]; cbn [append Str.replace]; [reflexivity|].
  now rewrite IH.
Qed.

Lemma startswith_app (a b : string) :
  a <> "" -> Str.startswith (a ++ b) "/" = Str.startswith a "/".
Proof. destruct a; [congruence|reflexivity]. Qed.

Lemma endswith_app (a b : string) :
  b <> "" -> Str.endswith (a ++ b) "/" = Str.endswith b "/".
Proof.
  intros Hb. induction a as [|x a IH]; [reflexivity|].
  cbn [append Str.endswith]. rewrite IH.
  destruct (String.eqb_spec (String x (a ++ b)) "/") as [E|]; [|reflexivity].
  injection E as _ E. destruct a; cbn in E; congruence.
Qed.

Lemma endswith_no_slash (n : string) :
  Str.contains Str.slash n = false -> Str.endswith n "/" = false.
Proof.
  intros H. destruct (Str.endswith n "/") eqn:E; [|reflexivity].
  destruct (endswith_slash _ E) as [n' ->].
  rewrite contains_app in H. cbn in H. now rewrite orb_true_r in H.
Qed.

Lemma rcut_no_sep (c : ascii) (n : string) :
  Str.contains c n = false -> Str.rcut c n = ("", n).
Proof.
  induction n as [|x n IH]; cbn [Str.contains Str.rcut]; [reflexivity|].
  intros H. apply orb_false_iff in H as [Hx Hn]. now rewrite (IH Hn), Hx.
Qed.

Lemma rcut_app (c : ascii) (a n : string) :
  Str.contains c n = false ->
  Str.rcut c (a ++ String c n) = (a ++ String c "", n).
Proof.
  intros Hn. induction a as [|x a IH]; cbn [append Str.rcut].
  - now rewrite (rcut_no_sep _ _ Hn), Ascii.eqb_refl.
  - rewrite IH.
    replace (a ++ String c "" =? "") with false; [now rewrite orb_true_r|].
    symmetry. apply String.eqb_neq. destruct a; discriminate.
Qed.

(** The last component of a path that ends with a separator and a name. *)
Lemma split_tail (a n : string) :
  Str.contains Str.slash n = false ->
  snd (posixpath.split (a ++ "/" ++ n)) = n.
Proof.
  intros Hn. unfold posixpath.split.
  change (a ++ "/" ++ n) with (a ++ String Str.slash n).
  rewrite (rcut_app _ _ _ Hn).
  now destruct (negb (Str.is_empty (a ++ String Str.slash ""))
                && negb (Str.all_char Str.slash (a ++ String Str.slash ""))).
Qed.

Lemma mem_In (x : string) (xs : list string) :
  Str.mem x xs = true <-> In x xs.
Proof.
  unfold Str.mem. rewrite existsb_exists. split.
  - intros (y & Hy & E). apply String.eqb_eq in E. now subst.
  - intros H. exists x. split; [assumption|apply String.eqb_refl].
Qed.

Lemma mem_false (x : string) (xs : list string) :
  Str.mem x xs = false <-> ~ In x xs.
Proof.
  rewrite <- mem_In. destruct (Str.mem x xs); split; congruence.
Qed.

Lemma join_snoc (comps : list string) (n : string) :
  comps <> [] ->
  Str.join "/" (comps ++ [n]) = Str.join "/" comps ++ "/" ++ n.
Proof.
  unfold Str.join. induction comps as [|c comps IH]; [congruence|]. intros _.
  destruct comps as [|c' comps].
  - reflexivity.
  - cbn [app String.concat] in *. rewrite IH by discriminate.
    now rewrite !append_assoc.
Qed.

Lemma name_ok_facts (n : string) :
  name_ok n ->
  n <> "" /\ Str.startswith n "/" = false /\ Str.endswith n "/" = false
  /\ Str.contains Str.backslash n = false /\ Str.contains Str.slash n = false.
Proof.
  intros [Hv Hb]. destruct (valid_name_spec n Hv) as (Hne & Hs & _ & _).
  repeat split; auto.
  - destruct n as [|x n]; [congruence|].
    cbn [Str.contains] in Hs. cbn [Str.startswith]. unfold Str.slash in Hs.
    apply orb_false_iff in Hs as [Hx _]. now rewrite Hx.
  - now apply endswith_no_slash.
Qed.

Lemma relpath_single (n : string) : name_ok n -> relpath n [n].
Proof. intros H. repeat split; [discriminate|now constructor]. Qed.

Lemma relpath_snoc (folder n : string) (comps : list string) :
  relpath folder comps -> name_ok n ->
  relpath (folder ++ "/" ++ n) (comps ++ [n]).
Proof.
  intros (Hne & Hall & ->) Hn. repeat split.
  - destruct comps; discriminate.
  - apply Forall_app. split; [assumption|now constructor].
  - now rewrite join_snoc.
Qed.

Lemma relpath_facts (folder : string) (comps : list string) :
  relpath folder comps ->
  folder <> "" /\ Str.startswith folder "/" = false
  /\ Str.endswith folder "/" = false
  /\ Str.contains Str.backslash folder = false.
Proof.
  intros (Hne & Hall & ->). revert Hne Hall.
  induction comps as [|n comps IH] using rev_ind; [congruence|]. intros _ Hall.
  apply Forall_app in Hall as [Hcomps Hn]. inversion Hn as [|? ? Hn' _]; subst.
  destruct (name_ok_facts n Hn') as (Hn0 & Hst & Hen & Hbs & Hsl).
  destruct comps as [|c comps]; [cbn; auto|].
  rewrite join_snoc by discriminate.
  destruct IH as (H0 & H1 & H2 & H3); [discriminate|assumption|].
  repeat split.
  - destruct (Str.join "/" (c :: comps)); [congruence|discriminate].
  - now rewrite startswith_app.
  - rewrite endswith_app by discriminate.
    change ("/" ++ n) with (String Str.slash n).
    cbn [Str.endswith]. rewrite Hen, orb_false_r.
    apply String.eqb_neq. intros [= E]. congruence.
  - rewrite !contains_app, H3, Hbs. reflexivity.
Qed.

Lemma join_path_child (folder n : string) (comps : list string) :
  relpath folder comps -> name_ok n ->
  QCompilerEXE.join_path folder n = folder ++ "/" ++ n.
Proof.
  intros Hrel Hn.
  destruct (relpath_facts _ _ Hrel) as (H0 & H1 & H2 & H3).
  destruct (name_ok_facts n Hn) as (Hn0 & Hst & Hen & Hbs & Hsl).
  unfold QCompilerEXE.join_path, posixpath.join.
  rewrite Hst, (proj2 (is_empty_false folder) H0), H2. cbn [orb].
  apply replace_id. rewrite !contains_app, H3, Hbs. reflexivity.
Qed.

Lemma join_path_under (main_folder folder n : string) (comps : list string) :
  relpath folder comps -> name_ok n ->
  QCompilerEXE.join_path main_folder (folder ++ "/" ++ n)
  = QCompilerEXE.join_path main_folder folder ++ "/" ++ n.
Proof.
  intros Hrel Hn.
  destruct (relpath_facts _ _ Hrel) as (H0 & H1 & H2 & H3).
  destruct (name_ok_facts n Hn) as (Hn0 & Hst & Hen & Hbs & Hsl).
  unfold QCompilerEXE.join_path, posixpath.join.
  rewrite startswith_app, H1 by assumption.
  assert (Hn' : Str.replace Str.backslash Str.slash ("/" ++ n) = "/" ++ n).
  { apply replace_id. cbn [append Str.contains]. now rewrite Hbs. }
  destruct (Str.is_empty main_folder || Str.endswith main_folder "/").
  - rewrite <- (append_assoc main_folder folder ("/" ++ n)).
    now rewrite replace_app, Hn'.
  - replace (main_folder ++ "/" ++ folder ++ "/" ++ n)
      with ((main_folder ++ "/" ++ folder) ++ "/" ++ n)
      by now rewrite !append_assoc.
    now rewrite replace_app, Hn'.
Qed.

Lemma resolve_under (w : world) (main_folder folder n : string)
  (comps : list string) (p : FS.path) :
  relpath folder comps -> name_ok n ->
  os.resolve w (QCompilerEXE.join_path main_folder folder) = Some p ->
  os.resolve w (QCompilerEXE.join_path main_folder (QCompilerEXE.join_path folder n))
  = Some (p ++ [n])%list.
Proof.
  intros Hrel Hn Hres.
  rewrite (join_path_child _ _ _ Hrel Hn), (join_path_under _ _ _ _ Hrel Hn).
  apply resolve_child; [apply Hn|assumption].
Qed.

Lemma indexable_single (main_file n : string) (excluded : list string) :
  Str.mem n excluded = false ->
  Str.mem n ["bin"; "obj"; "__pycache__"; main_file] = false ->
  indexable main_file excluded [n].
Proof.
  intros He Hr. apply mem_false in He, Hr.
  assert (Hres : ~ In n ["bin"; "obj"; "__pycache__"]).
  { intros H. apply Hr. cbn in *. intuition. }
  repeat split.
  - intros pre suf E Hpre.
    destruct pre as [|a pre]; [congruence|].
    injection E as <- E. symmetry in E. apply app_eq_nil in E as [-> _].
    cbn. intros [<-|H]; [|contradiction].
    apply Hr. cbn. intuition.
  - exact Hres.
  - cbn. intros [->|[]]. apply Hres. cbn. intuition.
Qed.

Lemma indexable_snoc (main_file n : string) (excluded comps : list string) :
  comps <> [] ->
  indexable main_file excluded comps ->
  ~ In (Str.join "/" (comps ++ [n])) (main_file :: excluded) ->
  n <> "__pycache__" ->
  indexable main_file excluded (comps ++ [n]).
Proof.
  intros Hne (Hpre & Hhd & Hpyc) Hnew Hn. repeat split.
  - intros pre suf E Hp.
    destruct suf as [|x suf _] using rev_ind.
    + rewrite app_nil_r in E. now subst pre.
    + rewrite app_assoc in E. apply app_inj_tail in E as [E _]. eauto.
  - destruct comps; [congruence|exact Hhd].
  - intros H. apply in_app_or in H as [H|[H|[]]]; auto.
Qed.

Lemma names_ok (es : FS.entries) :
  FS.wf (Dir es) = true -> FS.portable (Dir es) = true ->
  Forall name_ok (map fst es).
Proof.
  induction es as [|[n c] es IH]; intros Hwf Hp; cbn [map fst]; constructor.
  - apply wf_cons in Hwf as (Hv & _). split; [assumption|].
    cbn [FS.portable] in Hp. apply andb_true_iff in Hp as [Hp _].
    apply andb_true_iff in Hp as [Hp _]. now apply negb_true_iff.
  - apply IH.
    + now apply wf_cons in Hwf.
    + cbn [FS.portable] in Hp. apply andb_true_iff in Hp as [_ Hp]. exact Hp.
Qed.

Lemma portable_find (n : string) (c : node) (es : FS.entries) :
  FS.portable (Dir es) = true -> FS.find n es = Some c -> FS.portable c = true.
Proof.
  induction es as [|[m c'] r IH]; cbn [FS.find]; [discriminate|].
  intros Hp. cbn [FS.portable] in Hp.
  apply andb_true_iff in Hp as [Hp Hr]. apply andb_true_iff in Hp as [_ Hc].
  destruct (String.eqb n m); [now intros [= <-]|auto].
Qed.

Lemma portable_lookup (p : FS.path) (t t' : node) :
  FS.portable t = true -> FS.lookup p t = Some t' -> FS.portable t' = true.
Proof.
  revert t; induction p as [|n p IH]; intros t Hp H.
  - cbn in H. now injection H as <-.
  - destruct t as [d|es]; [discriminate|]. cbn [FS.lookup] in H.
    destruct (FS.find n es) as [c|] eqn:E; [|discriminate].
    eauto using portable_find.
Qed.

Lemma set_allFiles_self (self : QCompilerEXE.t) :
  QCompilerEXE.set_allFiles self (QCompilerEXE.allFiles self) = self.
Proof. now destruct self. Qed.

(** The loop of [_reindex_relpath] over the names of a directory. *)
Lemma reindex_loop (w : world) (self : QCompilerEXE.t) (fuel : nat)
  (IH : reindexes fuel)
  (folder : string) (comps : list string) (p : FS.path) (es : FS.entries) :
  relpath folder comps ->
  indexable (QCompilerEXE.mainFile self) (excluded_of self w) comps ->
  os.resolve w (QCompilerEXE.join_path (QCompilerEXE.mainFolder self) folder) = Some p ->
  FS.lookup p (root w) = Some (Dir es) ->
  FS.wf (Dir es) = true ->
  FS.portable (Dir es) = true ->
  FS.height (Dir es) <= S fuel ->
  forall names : list string,
    Forall name_ok names ->
    forall files : list (string * string),
      Forall (indexed (QCompilerEXE.mainFolder self) (QCompilerEXE.mainFile self)
                (excluded_of self w)) files ->
      exists files',
        fold_each names (QCompilerEXE.set_allFiles self files)
          (fun self export_path =>
             let export_path := QCompilerEXE.join_path folder export_path in
             let path :=
               QCompilerEXE.join_path (QCompilerEXE.mainFolder self) export_path in
             excluded <- pylist.deref (QCompilerEXE.exclude self) ;;
             if Str.mem export_path excluded then ret self
             else if Str.mem export_path (QCompilerEXE.reserved self) then ret self
             else if Str.mem (snd (posixpath.split export_path)) ["__pycache__"]
             then ret self
             else
               f <- os.path_isfile path ;;
               let self :=
                 if f
                 then QCompilerEXE.set_allFiles self
                        (QCompilerEXE.allFiles self
                           ++ [(path, fst (posixpath.split export_path))])
                 else self in
               d <- os.path_isdir path ;;
               if d then QCompilerEXE._reindex_relpath fuel self export_path
               else ret self) w
        = (Ok (QCompilerEXE.set_allFiles self files'), w)
        /\ Forall (indexed (QCompilerEXE.mainFolder self) (QCompilerEXE.mainFile self)
                     (excluded_of self w)) files'.
Proof.
  set (main_folder := QCompilerEXE.mainFolder self).
  set (main_file := QCompilerEXE.mainFile self).
  set (excluded := excluded_of self w).
  set (good := indexed main_folder main_file excluded).
  intros Hrel Hidx Hres Hlook Hwf Hport Hh.
  induction names as [|n names IHn]; intros Hnames files Hfiles.
  - exists files. split; [reflexivity|assumption].
  - inversion Hnames as [|? ? Hn Hrest]; subst.
    cbn [fold_each].
    set (body := fun (self0 : QCompilerEXE.t) (export_path : string) => _).
    assert (Hstep : exists files1,
               body (QCompilerEXE.set_allFiles self files) n w
               = (Ok (QCompilerEXE.set_allFiles self files1), w)
               /\ Forall good files1).
    { subst body. cbv beta zeta.
      rewrite (join_path_child _ _ _ Hrel Hn).
      unfold bind at 1. unfold pylist.deref at 1.
      cbn [QCompilerEXE.exclude QCompilerEXE.set_allFiles].
      fold (excluded_of self w). fold excluded.
      destruct (Str.mem (folder ++ "/" ++ n) excluded) eqn:Eex;
        [exists files; split; [reflexivity|assumption]|].
      destruct (Str.mem (folder ++ "/" ++ n)
                  (QCompilerEXE.reserved (QCompilerEXE.set_allFiles self files)))
        eqn:Eres; [exists files; split; [reflexivity|assumption]|].
      destruct (name_ok_facts n Hn) as (Hn0 & Hst & Hen & Hbs & Hsl).
      rewrite (split_tail _ _ Hsl).
      destruct (Str.mem n ["__pycache__"]) eqn:Epyc;
        [exists files; split; [reflexivity|assumption]|].
      assert (Hidx' : indexable main_file excluded (comps ++ [n])).
      { apply indexable_snoc; auto.
        - apply Hrel.
        - destruct Hrel as (Hc & _ & Hf). rewrite join_snoc, <- Hf by assumption.
          intros [E|E].
          + apply mem_false in Eres. apply Eres.
            cbn [QCompilerEXE.reserved QCompilerEXE.mainFile QCompilerEXE.set_allFiles].
            fold main_file. rewrite <- E. cbn. intuition.
          + apply mem_false in Eex. contradiction.
        - intros ->. discriminate Epyc. }
      pose proof (relpath_snoc _ _ _ Hrel Hn) as Hrel'.
      assert (Hres' :
        os.resolve w (QCompilerEXE.join_path main_folder (folder ++ "/" ++ n))
        = Some (p ++ [n])%list).
      { rewrite <- (join_path_child _ _ _ Hrel Hn).
        now apply resolve_under with (comps := comps). }
      assert (Hstat :
        os.stat w (QCompilerEXE.join_path main_folder (folder ++ "/" ++ n))
        = FS.find n es).
      { unfold os.stat. now rewrite Hres', lookup_snoc, Hlook. }
      cbn [QCompilerEXE.mainFolder QCompilerEXE.set_allFiles].
      fold main_folder.
      unfold bind, os.path_isfile, os.path_isdir. rewrite Hstat.
      destruct (FS.find n es) as [[data|es_c]|] eqn:Efind; cbn [FS.is_file FS.is_dir].
      - eexists. split; [reflexivity|].
        cbn [QCompilerEXE.allFiles QCompilerEXE.set_allFiles].
        apply Forall_app. split; [assumption|]. constructor; [|constructor].
        exists (comps ++ [n])%list. destruct Hrel' as (Hc' & Ha' & Hj').
        split; [repeat split; assumption|].
        split; [cbn [fst]; now rewrite <- Hj'|exact Hidx'].
      - destruct (IH w (QCompilerEXE.set_allFiles self files) (folder ++ "/" ++ n)
                    (comps ++ [n])%list (p ++ [n])%list es_c)
          as (files1 & Hrun & Hgood); auto.
        + rewrite lookup_snoc, Hlook. exact Efind.
        + eauto using wf_find.
        + eauto using portable_find.
        + pose proof (height_find _ _ _ Efind). lia.
        + exists files1. split; [|exact Hgood].
          rewrite Hrun. reflexivity.
      - exists files. split; [reflexivity|assumption]. }
    destruct Hstep as (files1 & Hstep & Hgood1).
    rewrite (bind_ok _ _ _ _ _ Hstep).
    now apply IHn.
Qed.

Lemma reindex_relpath_spec (fuel : nat) : reindexes fuel.
Proof.
  induction fuel as [|fuel IH];
    intros w self folder comps p es Hrel Hidx Hres Hlook Hwf Hport Hh Hgood.
  - cbn in Hh. lia.
  - cbn [QCompilerEXE._reindex_relpath].
    assert (Hlist :
      os.listdir (QCompilerEXE.join_path (QCompilerEXE.mainFolder self) folder) w
      = (Ok (map fst es), w)).
    { unfold os.listdir, os.stat. now rewrite Hres, Hlook. }
    rewrite (bind_ok _ _ _ _ _ Hlist).
    destruct (reindex_loop w self fuel IH folder comps p es Hrel Hidx Hres Hlook
                Hwf Hport Hh (map fst es) (names_ok es Hwf Hport)
                (QCompilerEXE.allFiles self) Hgood) as (files & Hrun & Hfiles).
    rewrite set_allFiles_self in Hrun.
    exists files. split; [exact Hrun|exact Hfiles].
Qed.

Lemma reindex_top_loop (fuel : nat) (self : QCompilerEXE.t) (w : world) :
  FS.wf (root w) = true ->
  FS.portable (root w) = true ->
  FS.height (root w) <= fuel ->
  forall names : list string,
    Forall name_ok names ->
    forall files : list (string * string),
      Forall (indexed (QCompilerEXE.mainFolder self) (QCompilerEXE.mainFile self)
                (excluded_of self w)) files ->
      exists files',
        fold_each names (QCompilerEXE.set_allFiles self files)
          (fun self export_path =>
             let path :=
               QCompilerEXE.join_path (QCompilerEXE.mainFolder self) export_path in
             excluded <- pylist.deref (QCompilerEXE.exclude self) ;;
             if Str.mem export_path excluded then ret self
             else if Str.mem export_path (QCompilerEXE.reserved self) then ret self
             else
               f <- os.path_isfile path ;;
               let self :=
                 if f
                 then QCompilerEXE.set_allFiles self
                        (QCompilerEXE.allFiles self ++ [(path, ".")])
                 else self in
               d <- os.path_isdir path ;;
               if d then QCompilerEXE._reindex_relpath fuel self export_path
               else ret self) w
        = (Ok (QCompilerEXE.set_allFiles self files'), w)
        /\ Forall (indexed (QCompilerEXE.mainFolder self) (QCompilerEXE.mainFile self)
                     (excluded_of self w)) files'.
Proof.
  intros Hwf Hport Hh names Hnames.
  induction Hnames as [|n names Hn _ IHn]; intros files Hfiles.
  - exists files. split; [reflexivity|assumption].
  - cbn [fold_each].
    set (body := fun (self0 : QCompilerEXE.t) (export_path : string) => _).
    assert (Hstep : exists files1,
               body (QCompilerEXE.set_allFiles self files) n w
               = (Ok (QCompilerEXE.set_allFiles self files1), w)
               /\ Forall (indexed (QCompilerEXE.mainFolder self)
                            (QCompilerEXE.mainFile self) (excluded_of self w))
                    files1).
    { subst body. cbv beta zeta.
      unfold bind at 1. unfold pylist.deref at 1.
      cbn [QCompilerEXE.exclude QCompilerEXE.mainFolder QCompilerEXE.set_allFiles].
      fold (excluded_of self w).
      destruct (Str.mem n (excluded_of self w)) eqn:Eex;
        [exists files; split; [reflexivity|assumption]|].
      destruct (Str.mem n (QCompilerEXE.reserved (QCompilerEXE.set_allFiles self files)))
        eqn:Eres; [exists files; split; [reflexivity|assumption]|].
      assert (Hidx : indexable (QCompilerEXE.mainFile self) (excluded_of self w) [n])
        by now apply indexable_single.
      pose proof (relpath_single n Hn) as Hrel.
      unfold bind, os.path_isfile, os.path_isdir.
      destruct (os.stat w (QCompilerEXE.join_path (QCompilerEXE.mainFolder self) n))
        as [[data|es]|] eqn:Estat; cbn [FS.is_file FS.is_dir].
      - eexists. split; [reflexivity|].
        cbn [QCompilerEXE.allFiles QCompilerEXE.set_allFiles].
        apply Forall_app. split; [assumption|]. constructor; [|constructor].
        exists [n]. split; [exact Hrel|]. split; [reflexivity|exact Hidx].
      - unfold os.stat in Estat.
        destruct (os.resolve w (QCompilerEXE.join_path (QCompilerEXE.mainFolder self) n))
          as [p|] eqn:Eres'; [|discriminate].
        destruct (reindex_relpath_spec fuel w (QCompilerEXE.set_allFiles self files)
                    n [n] p es) as (files1 & Hrun & Hgood); auto.
        + eauto using wf_lookup.
        + eauto using portable_lookup.
        + pose proof (height_lookup _ _ _ Estat). lia.
        + exists files1. split; [|exact Hgood]. rewrite Hrun. reflexivity.
      - exists files. split; [reflexivity|assumption]. }
    destruct Hstep as (files1 & Hstep & Hgood1).
    rewrite (bind_ok _ _ _ _ _ Hstep).
    now apply IHn.
Qed.

(** C7 (amended).  In a well-formed filesystem whose names hold no
    backslash, with a recursion budget that covers its depth, [reindex]
    returns, and every path it lists is the main folder joined with a
    root-relative path [c1/.../ck] such that: neither the path nor any of
    the directories [c1/.../cj] above it is an entry of the exclusion list
    (or the main file); its first component is none of [bin], [obj] and
    [__pycache__]; and no component is [__pycache__].  Directories named
    [bin] or [obj] below the top level are indexed. *)
Theorem C7_reindex_skips_excluded_and_reserved (fuel : nat)
  (self : QCompilerEXE.t) (w : world) :
  FS.wf (root w) = true ->
  FS.portable (root w) = true ->
  Forall name_ok (QCompilerEXE.mainContents self) ->
  FS.height (root w) <= fuel ->
  exists files,
    QCompilerEXE.reindex fuel self w = (Ok (QCompilerEXE.set_allFiles self files), w)
    /\ Forall (indexed (QCompilerEXE.mainFolder self) (QCompilerEXE.mainFile self)
                 (excluded_of self w)) files.
Proof.
  intros Hwf Hport Hnames Hh. unfold QCompilerEXE.reindex. cbv zeta.
  cbn [QCompilerEXE.mainContents QCompilerEXE.set_allFiles].
  apply (reindex_top_loop fuel self w Hwf Hport Hh _ Hnames []).
  constructor.
Qed.

Lemma C7_reindex_skips_excluded_and_reserved_witness :
  exists files,
    QCompilerEXE.reindex 4 nested_exe nested_world
    = (Ok (QCompilerEXE.set_allFiles nested_exe files), nested_world)
    /\ Forall (indexed (QCompilerEXE.mainFolder nested_exe)
                 (QCompilerEXE.mainFile nested_exe)
                 (excluded_of nested_exe nested_world)) files.
Proof.
  apply (C7_reindex_skips_excluded_and_reserved 4 nested_exe nested_world).
  - reflexivity.
  - reflexivity.
  - repeat constructor.
  - vm_compute. lia.
Defined.

(** [proj/lib/bin/tool.txt] and [proj/lib/obj/o.txt] lie under directories
    named [bin] and [obj], and [reindex] lists them; the top-level [bin],
    the nested [__pycache__] and the excluded [lib/m.py] are skipped. *)
Lemma C7_nested_bin_and_obj_are_indexed :
  exists self',
    QCompilerEXE.reindex 4 nested_exe nested_world = (Ok self', nested_world)
    /\ QCompilerEXE.allFiles self'
       = [("proj/lib/bin/tool.txt", "lib/bin");
          ("proj/lib/obj/o.txt", "lib/obj");
          ("proj/lib/n.py", "lib")]
    /\ In ("proj/lib/bin/tool.txt", "lib/bin") (QCompilerEXE.allFiles self').
Proof.
  eexists. split; [vm_compute; reflexivity|].
  split; [reflexivity|]. cbn. auto.
Qed.

(** ** Argument construction *)

Lemma fold_left_append (l : list string) (acc : string) :
  fold_left (fun args arg => args ++ " " ++ arg) l acc
  = acc ++ fold_right (fun arg rest => " " ++ arg ++ rest) "" l.
Proof.
  revert acc; induction l as [|x l IH]; intro acc; simpl.
  - now rewrite append_nil_r.
  - rewrite IH, !append_assoc. reflexivity.
Qed.

(** The argument list starts with [-y] and ends with the main file. *)
Lemma get_args_shape (self : QCompilerEXE.t) :
  exists options,
    QCompilerEXE.get_args self
    = "-y" :: (options ++ [QCompilerEXE.main_fragment self])%list.
Proof.
  unfold QCompilerEXE.get_args.
  match goal with
  | |- exists _, List.concat (?first :: ?blocks) = _ =>
      exists (List.concat (removelast blocks));
      change (List.concat (first :: blocks))
        with (first ++ List.concat (removelast blocks ++ [last blocks []]))%list
  end.
  rewrite concat_app. cbn [List.concat last app].
  reflexivity.
Qed.

(** C5 (the code departs from the specification).  Whatever the
    configuration, the command [get_command(get_args())] holds the first
    fragment of the argument list, [-y], twice: once from [args_list[0]]
    and once more from the loop of [parse_arg_list], which starts again at
    the first element. *)
Theorem C5_first_fragment_twice (self : QCompilerEXE.t) (w : world) :
  exists options,
    QCompilerEXE.get_args self
    = "-y" :: (options ++ [QCompilerEXE.main_fragment self])%list
    /\ QCompilerEXE.get_command (QCompilerEXE.get_args self) w
       = (Ok ("pyinstaller -y -y"
              ++ fold_right (fun arg rest => " " ++ arg ++ rest) ""
                   (options ++ [QCompilerEXE.main_fragment self])), w).
Proof.
  destruct (get_args_shape self) as [options Hshape].
  exists options. split; [exact Hshape|].
  rewrite Hshape.
  unfold QCompilerEXE.get_command, QCompilerEXE.parse_arg_list, bind, ret.
  assert (Hlen : Nat.ltb 1 (length ("-y" :: options ++ [QCompilerEXE.main_fragment self])) = true).
  { apply Nat.ltb_lt. cbn [length]. rewrite length_app. cbn [length]. lia. }
  rewrite Hlen, fold_left_append. reflexivity.
Qed.

(** With every option at its default the command is
    [pyinstaller -y -y --log-level INFO  "proj/a.py"]. *)
Example get_command_sample :
  QCompilerEXE.get_command (QCompilerEXE.get_args sample_exe) sample_world
  = (Ok ("pyinstaller -y -y --log-level INFO  "
         ++ QCompilerEXE.quoted "proj/a.py"), sample_world).
Proof. reflexivity. Qed.

(** ** Construction of a bundler configuration *)

(** C2 (amended).  No call of the constructor of [QCompilerEXE] returns: it
    raises the error of [os.listdir(main_folder)] when the main folder
    cannot be listed, and otherwise the [AttributeError] of the lookup of
    [check_project] in [check]; the state is left as it was. *)
Theorem C2_constructor_never_returns `{Collaborators} (a : QCompilerEXE.args)
  (w : world) :
  QCompilerEXE.init a w
  = (Raise match os.stat w (QCompilerEXE.arg_main_folder a) with
           | Some (Dir _) => AttributeError "check_project"
           | Some (File _) => NotADirectoryError (QCompilerEXE.arg_main_folder a)
           | None => FileNotFoundError (QCompilerEXE.arg_main_folder a)
           end, w).
Proof.
  unfold QCompilerEXE.init, bind, os.listdir.
  destruct (os.stat w (QCompilerEXE.arg_main_folder a)) as [[d|es]|]; reflexivity.
Qed.

(** With a main folder that does not exist the constructor raises
    [FileNotFoundError], not [AttributeError]. *)
Lemma C2_missing_folder_raises_not_found :
  ~ (exists attribute w',
        @QCompilerEXE.init sample_tools
          (QCompilerEXE.default_args 0 None "nowhere" "a.py" None) sample_world
        = (Raise (AttributeError attribute), w'))
  /\ @QCompilerEXE.init sample_tools
       (QCompilerEXE.default_args 0 None "nowhere" "a.py" None) sample_world
     = (Raise (FileNotFoundError "nowhere"), sample_world).
Proof.
  split; [|reflexivity].
  intros (attribute & w' & H). vm_compute in H. discriminate H.
Qed.

(** ** The bytecode stage *)

(** C1 (the code departs from the specification).  [proj] is compiled
    with [secret.py] and [data.txt] in the exclusion set: the compiled
    [secret.pyc] and the copy of [data.txt] are in the output tree all the
    same, since neither [compile] nor [compile_directory] reads
    [self.exclude]. *)
Theorem C1_excluded_files_reach_the_output :
  exists self w',
    QCompilerPYC.init ["secret.py"; "data.txt"] "proj" true 2%Z false sample_world
    = (Ok self, sample_world)
    /\ QCompilerPYC.exclude self = ["secret.py"; "data.txt"]
    /\ @QCompilerPYC.compile sample_tools 4 self sample_world = (Ok tt, w')
    /\ os.stat w' "bin/pyc/proj/secret.pyc" = Some (File "code of def s")
    /\ os.stat w' "bin/pyc/proj/data.txt" = Some (File "x").
Proof.
  eexists. eexists. split; [reflexivity|].
  split; [reflexivity|].
  split; [vm_compute; reflexivity|].
  split; reflexivity.
Qed.

(** C4 (amended).  A source the bytecode compiler rejects does not fail
    [compile_file]: the compiler's message for the file goes to the error
    stream, nothing is written, and the call returns, so that the loop of
    [compile_directory] goes on with the next entry. *)
Theorem C4_malformed_source_is_reported `{Collaborators}
  (self : QCompilerPYC.t) (file to source msg : string) (w : world) :
  QCompilerPYC.cls self = QCompilerPYC.PYC ->
  os.stat w file = Some (File source) ->
  source_to_code file source (QCompilerPYC.optimize self) = inr msg ->
  FS.is_dir (os.stat w (fst (posixpath.splitext to) ++ ".pyc")) = false ->
  QCompilerPYC.compile_file self file to w
  = (Ok tt, set_stderr w (stderr w ++ [msg])).
Proof.
  intros Hcls Hfile Hbad Hdir.
  unfold QCompilerPYC.compile_file, py_compile, bind, os.path_exists,
    os.path_isfile, os.read_file.
  rewrite Hcls.
  set (cfile := fst (posixpath.splitext to) ++ ".pyc") in *.
  assert (Hfree : FS.is_some (os.stat w cfile) && negb (FS.is_file (os.stat w cfile)) = false).
  { destruct (os.stat w cfile) as [[d|es]|]; simpl in *; congruence. }
  rewrite Hfree, Hfile, Hbad. reflexivity.
Qed.

Lemma C4_malformed_source_is_reported_witness :
  @QCompilerPYC.compile_file sample_tools
     (QCompilerPYC.mk QCompilerPYC.PYC true false 2%Z [] "proj" "/bin/pyc")
     "proj/sub/b.py" "/bin/pyc/proj/sub/b.py" sample_world
  = (Ok tt, set_stderr sample_world (stderr sample_world ++ ["SyntaxError: proj/sub/b.py"])).
Proof.
  apply (@C4_malformed_source_is_reported sample_tools _ _ _ "oops"); reflexivity.
Defined.

(** The stage over [proj], whose [sub/b.py] is malformed, returns without
    any exception; the error is on the error stream, no [b.pyc] is written
    and [c.py], which comes after [b.py], is compiled. *)
Lemma C4_stage_goes_on_after_a_malformed_source :
  exists w',
    @QCompilerPYC.compile sample_tools 4
       (QCompilerPYC.mk QCompilerPYC.PYC true false 2%Z [] "proj" "/bin/pyc")
       sample_world
    = (Ok tt, w')
    /\ @source_to_code sample_tools "proj/sub/b.py" "oops" 2%Z
       = inr "SyntaxError: proj/sub/b.py"
    /\ stderr w' = ["SyntaxError: proj/sub/b.py"]
    /\ os.stat w' "bin/pyc/proj/sub/b.pyc" = None
    /\ os.stat w' "bin/pyc/proj/sub/c.pyc" = Some (File "code of def c").
Proof.
  eexists. split; [vm_compute; reflexivity|].
  repeat split; reflexivity.
Qed.

(** ** The archive stage *)

(** C3 (amended).  With an inner compiler that is neither a
    [QCompilerPYC] nor a [QCompilerPYD], whenever the static check of the
    project and the staging of [bin/pyz/] and [obj/pyz/] return, in a
    well-formed filesystem (of regular files and directories) and with a
    recursion budget above its depth: [compile] raises the
    incompatible-compiler error before the inner compiler runs and before
    any archive is written, but after the check and the staging, and
    [clean_directory] has removed [obj/pyz/] by the time the error is
    raised. *)
Theorem C3_incompatible_compiler_raised_after_staging `{Collaborators}
  (fuel : nat) (self : QCompilerPYZ.t) (type_name : string) (w w1 : world)
  (p : FS.path) (es : FS.entries) :
  QCompilerPYZ.compiler self = Some (QCompilerPYZ.Foreign type_name) ->
  staged (QCompilerPYZ.path self) w w1 ->
  os.resolve w1 "obj/pyz/" = Some p ->
  p <> [] ->
  FS.lookup p (root w1) = Some (Dir es) ->
  FS.wf (root w1) = true ->
  FS.height (root w1) < fuel ->
  exists r',
    FS.remove_entry p (root w1) = Some r'
    /\ QCompilerPYZ.compile fuel self w
       = (Raise (CompilerError ("Incompatible compiler: " ++ type_name)),
          set_root w1 r')
    /\ os.stat (set_root w1 r') "obj/pyz/" = None.
Proof.
  intros Hc Hstaged Hres Hp Hlook Hwf Hfuel.
  destruct (clean_directory_existing fuel w1 "obj/pyz/" p es Hwf Hfuel Hres Hp Hlook)
    as (r' & Hrem & Hclean & Hgone & _).
  exists r'. repeat split; auto.
  unfold QCompilerPYZ.compile. rewrite Hc.
  unfold staged in Hstaged.
  revert Hstaged. unfold bind.
  destruct (check_project (QCompilerPYZ.path self) w) as [[[]|x] wc]; [|discriminate].
  destruct (os.path_exists "bin/pyz/" wc) as [[e|x] w0]; [|discriminate].
  destruct (when (negb e) (os.makedirs "bin/pyz/") w0) as [[[]|x] w0']; [|discriminate].
  destruct (os.path_exists "obj/pyz/" w0') as [[e'|x] w0'']; [|discriminate].
  intros Hs. rewrite Hs, Hclean. reflexivity.
Qed.

Lemma C3_incompatible_compiler_raised_after_staging_witness :
  exists r',
    FS.remove_entry ["obj"; "pyz"] (root pyz_staged_world) = Some r'
    /\ @QCompilerPYZ.compile sample_tools 5 foreign_pyz sample_world
       = (Raise (CompilerError ("Incompatible compiler: " ++ "str")),
          set_root pyz_staged_world r')
    /\ os.stat (set_root pyz_staged_world r') "obj/pyz/" = None.
Proof.
  apply (@C3_incompatible_compiler_raised_after_staging sample_tools 5
           foreign_pyz "str" sample_world pyz_staged_world ["obj"; "pyz"] []);
    try reflexivity; [discriminate | vm_compute; lia].
Defined.

(** With an inner compiler that is a [str], [compile] raises the
    configuration error after it has created [bin/pyz] and [obj]: the
    filesystem is not the one it started from. *)
Lemma C3_directories_created_before_the_error :
  exists w',
    @QCompilerPYZ.compile sample_tools 5 foreign_pyz sample_world
    = (Raise (CompilerError "Incompatible compiler: str"), w')
    /\ os.stat sample_world "bin/pyz" = None
    /\ os.stat w' "bin/pyz" = Some (Dir [])
    /\ os.stat sample_world "obj" = None
    /\ os.stat w' "obj" = Some (Dir [])
    /\ root w' <> root sample_world.
Proof.
  eexists. split; [vm_compute; reflexivity|].
  repeat split; try reflexivity. discriminate.
Qed.

(** ** The executable stage *)

(** C8 (amended).  The relocation step follows a backend invocation that
    returns: the banner and the text of [traceback.format_exc()] are then
    written to the error stream, whatever the outcome, and [move_project]
    runs on the staging directory.  When the backend invocation raises,
    the relocation step is not attempted: the filesystem stays as the
    backend left it. *)
Theorem C8_relocation_follows_a_return `{Collaborators}
  (self : QCompilerEXE.t) (command : string) (words : list string)
  (w w1 : world) (outcome : result unit) :
  let temporary_directory :=
    QCompilerEXE.join_path (QCompilerEXE.mainFolder self) "obj" in
  let dist_path := posixpath.join temporary_directory "application" in
  let output := QCompilerEXE.join_path (QCompilerEXE.mainFolder self) "bin" in
  shlex_split command = Some words ->
  pyi_run (set_argv w (words ++ ["--distpath"; dist_path;
                                 "--workpath"; posixpath.join temporary_directory "build";
                                 "--specpath"; temporary_directory]))
  = (outcome, w1) ->
  match outcome with
  | Ok _ =>
      QCompilerEXE.compile self command w
      = QCompilerEXE.move_project dist_path
          (posixpath.abspath (os.getcwd_of w1) output)
          (set_stderr w1
             (stderr w1 ++ ["An error occurred, traceback follows:";
                            QCompilerEXE.no_traceback]))
  | Raise _ =>
      root (snd (QCompilerEXE.compile self command w)) = root w1
  end.
Proof.
  cbv zeta. intros Hsplit Hrun.
  unfold QCompilerEXE.compile. rewrite Hsplit.
  unfold bind, sys.assign_argv. rewrite Hrun.
  destruct outcome as [[]|e]; [|reflexivity].
  unfold sys.print_stderr, os.getcwd. cbn [stderr set_stderr].
  rewrite <- app_assoc. reflexivity.
Qed.

Lemma C8_relocation_follows_a_return_witness :
  @QCompilerEXE.compile sample_tools sample_exe "pyinstaller -y" staged_world
  = QCompilerEXE.move_project "proj/obj/application" "/proj/bin"
      (mkWorld staged_tree []
         ["An error occurred, traceback follows:"; QCompilerEXE.no_traceback]
         ["pyinstaller"; "-y"; "--distpath"; "proj/obj/application";
          "--workpath"; "proj/obj/build"; "--specpath"; "proj/obj"]
         [[]]).
Proof.
  exact (@C8_relocation_follows_a_return sample_tools sample_exe
           "pyinstaller -y" ["pyinstaller"; "-y"] staged_world _ (Ok tt)
           eq_refl eq_refl).
Defined.

(** A backend that raises: the exception leaves [compile], nothing is
    written to the error stream and [app.exe] stays in the staging
    directory. *)
Lemma C8_backend_exception_propagates :
  exists w',
    @QCompilerEXE.compile failing_backend sample_exe "pyinstaller -y" staged_world
    = (Raise (SystemExit "build failed"), w')
    /\ stderr w' = []
    /\ os.stat w' "proj/obj/application/app.exe" = Some (File "exe")
    /\ os.stat w' "proj/bin/app.exe" = None.
Proof.
  eexists. split; [vm_compute; reflexivity|].
  repeat split; reflexivity.
Qed.

(** When the backend returns, [app.exe] is moved to [proj/bin]. *)
Example compile_relocates_sample :
  exists w',
    @QCompilerEXE.compile sample_tools sample_exe "pyinstaller -y" staged_world
    = (Ok tt, w')
    /\ os.stat w' "proj/obj/application/app.exe" = None
    /\ os.stat w' "proj/bin/app.exe" = Some (File "exe").
Proof.
  eexists. split; [vm_compute; reflexivity|].
  split; reflexivity.
Qed.

(** ** The multi-target merger *)

(** C9 (the code departs from the specification).  A target whose app
    name was left at its default, the empty string, gets the empty string
    as its bin-subfolder name and not [a], the stem of its main file
    [a.py]: the stem is taken only when the app name [is None]. *)
Theorem C9_default_app_name_gives_empty_folder :
  QCompilerEXE.appName sample_exe
  = QCompilerEXE.arg_app_name (QCompilerEXE.default_args 0 None "proj" "a.py" None)
  /\ fst (posixpath.splitext (QCompilerEXE.mainFile sample_exe)) = "a"
  /\ fst (MultiCompiler.init sample_exe [] (Some "suite") staged_world)
     = Ok (MultiCompiler.mk (Some "suite") [""] [sample_exe]).
Proof. repeat split; reflexivity. Qed.

(** ** The heap of list objects *)




Lemma update_update (r : pylist.ref) (f g : list string -> list string)
  (h : list (list string)) :
  pylist.update r g (pylist.update r f h) = pylist.update r (fun l => g (f l)) h.
Proof.
  revert r; induction h as [|l h IH]; intros [|r]; cbn; auto. now rewrite IH.
Qed.

Lemma update_ext (r : pylist.ref) (f g : list string -> list string)
  (h : list (list string)) :
  (forall l, f l = g l) -> pylist.update r f h = pylist.update r g h.
Proof.
  intros E. revert r; induction h as [|l h IH]; intros [|r]; cbn; auto.
  - now rewrite E.
  - now rewrite IH.
Qed.

Lemma update_id (r : pylist.ref) (h : list (list string)) :
  pylist.update r (fun l => l) h = h.
Proof.
  revert r; induction h as [|l h IH]; intros [|r]; cbn; auto. now rewrite IH.
Qed.

Lemma set_heap_heap (w : world) : set_heap w (heap w) = w.
Proof. now destruct w. Qed.

(** The loop of [reconcile] over the main files. *)
Lemma reconcile_files (r : pylist.ref) (here : string) (excludes files : list string)
  (w : world) :
  for_each files
    (fun file =>
       when (negb (Str.mem (posixpath.abspath here file) excludes))
         (pylist.append r file)) w
  = (Ok tt,
     set_heap w
       (pylist.update r
          (fun l => (l ++ filter (fun file =>
                                    negb (Str.mem (posixpath.abspath here file) excludes))
                          files)%list)
          (heap w))).
Proof.
  revert w; induction files as [|file files IH]; intro w; cbn [for_each filter].
  - unfold ret. f_equal.
    rewrite (update_ext _ _ (fun l => l)) by (intro; apply app_nil_r).
    now rewrite update_id, set_heap_heap.
  - unfold bind. destruct (negb (Str.mem (posixpath.abspath here file) excludes)).
    + cbn [when]. unfold pylist.append at 1. rewrite IH.
      unfold set_heap. cbn [heap root cwd stderr argv].
      rewrite update_update.
      rewrite (update_ext r _
                 (fun l => (l ++ file :: filter (fun file0 =>
                      negb (Str.mem (posixpath.abspath here file0) excludes)) files)%list));
        [reflexivity|].
      intros l. now rewrite <- app_assoc.
    + cbn [when]. unfold ret. apply IH.
Qed.

(** ** Back to the working directory *)

Lemma split_join (cs : list string) :
  cs <> [] ->
  Forall (fun n => FS.valid_name n = true) cs ->
  Str.split Str.slash (Str.join "/" cs) = cs.
Proof.
  intros Hne H. induction H as [|n cs Hn Hcs IH]; [congruence|].
  destruct (valid_name_spec n Hn) as (_ & Hs & _).
  destruct cs as [|m cs].
  - cbn. now apply split_no_sep.
  - change (Str.join "/" (n :: m :: cs)) with (n ++ String Str.slash (Str.join "/" (m :: cs))).
    rewrite split_app_sep, (split_no_sep _ _ Hs), IH by discriminate. reflexivity.
Qed.

Lemma resolve_getcwd (w w' : world) :
  Forall (fun n => FS.valid_name n = true) (cwd w) ->
  os.resolve w' (os.getcwd_of w) = Some (cwd w).
Proof.
  intros H. unfold os.resolve, os.getcwd_of.
  change (Str.is_empty ("/" ++ Str.join "/" (cwd w))) with false.
  change (posixpath.isabs ("/" ++ Str.join "/" (cwd w))) with true.
  cbn [app]. f_equal.
  destruct (cwd w) as [|n cs] eqn:E.
  - reflexivity.
  - change ("/" ++ Str.join "/" (n :: cs)) with (String Str.slash (Str.join "/" (n :: cs))).
    cbn [Str.split]. rewrite Ascii.eqb_refl, split_join by (discriminate || assumption).
    change (posixpath.norm_comps true ("" :: n :: cs) [])
      with (posixpath.norm_comps true (n :: cs) []).
    now rewrite norm_comps_valid.
Qed.

Lemma update_at (r : pylist.ref) (f : list string -> list string)
  (h : list (list string)) :
  pylist.update r f h = pylist.update r (fun _ => f (nth r h [])) h.
Proof.
  revert r; induction h as [|l h IH]; intros [|r]; cbn; auto. now rewrite <- IH.
Qed.

Lemma reconcile_spec (w0 w : world) (mainfiles : list string) (c : QCompilerEXE.t) :
  Forall (fun n => FS.valid_name n = true) (cwd w0) ->
  FS.is_dir (FS.lookup (cwd w0) (root w0)) = true ->
  root w = root w0 ->
  cwd w = cwd w0 ->
  FS.is_dir (os.stat w0 (QCompilerEXE.mainFolder c)) = true ->
  MultiCompiler.reconcile (os.getcwd_of w0) mainfiles c w
  = (Ok tt,
     set_heap w
       (pylist.update (QCompilerEXE.exclude c)
          (fun _ => extended (here_of w0 (QCompilerEXE.mainFolder c))
                      (nth (QCompilerEXE.exclude c) (heap w) []) mainfiles)
          (heap w))).
Proof.
  intros Hcwd Hdir Hroot Hsame Hfolder.
  unfold MultiCompiler.reconcile, here_of.
  unfold os.stat in Hfolder.
  assert (Hres : os.resolve w (QCompilerEXE.mainFolder c)
                 = os.resolve w0 (QCompilerEXE.mainFolder c)).
  { unfold os.resolve. now rewrite Hsame. }
  destruct (os.resolve w0 (QCompilerEXE.mainFolder c)) as [p|] eqn:Ep; [|discriminate].
  destruct (FS.lookup p (root w0)) as [[d|es]|] eqn:El; try discriminate.
  assert (Hcd : os.chdir (QCompilerEXE.mainFolder c) w = (Ok tt, set_cwd w p)).
  { unfold os.chdir. now rewrite Hres, Hroot, El. }
  rewrite (bind_ok _ _ _ _ _ Hcd).
  unfold bind at 1. unfold os.getcwd at 1. unfold os.getcwd_of at 1.
  cbn [cwd set_cwd].
  unfold bind at 1. unfold pylist.deref at 1. cbn [heap set_cwd].
  rewrite (bind_ok _ _ _ _ _ (reconcile_files _ _ _ _ _)).
  unfold os.chdir. rewrite (resolve_getcwd w0 _ Hcwd).
  change (root (set_heap (set_cwd w p) ?h)) with (root w).
  cbn [root set_heap set_cwd heap cwd]. rewrite Hroot.
  destruct (FS.lookup (cwd w0) (root w0)) as [[d|es0]|]; try discriminate.
  rewrite update_at. unfold extended, os.getcwd_of. cbn [cwd set_cwd].
  rewrite <- Hsame. destruct w; reflexivity.
Qed.


Lemma appname_seen (a : option string) (names : list (option string)) :
  existsb (MultiCompiler.eq_str_or_none a) names = false <-> ~ In a names.
Proof.
  split.
  - intros H Hin. assert (E : existsb (MultiCompiler.eq_str_or_none a) names = true).
    { apply existsb_exists. exists a. split; [assumption|].
      destruct a; cbn; [apply String.eqb_refl|reflexivity]. }
    congruence.
  - intros H. destruct (existsb _ names) eqn:E; [|reflexivity].
    apply existsb_exists in E as (b & Hb & E). exfalso. apply H.
    destruct a as [x|], b as [y|]; cbn in E; try discriminate; auto.
    apply String.eqb_eq in E. now subst.
Qed.





(** Two targets built from the same list object share their exclusion
    list: the main files are appended once, while the first of the two is
    reconciled, and the second finds them there. *)
Example shared_exclusion_list :
  let shared := target "app2" "two.py" (Some "two") 0 ["two.py"] in
  exists m w',
    MultiCompiler.init target_one [shared] (Some "suite") merge_world = (Ok m, w')
    /\ heap w' = [["helper.py"; "two.py"; "one.py"]; []].
Proof.
  eexists. eexists. split; [vm_compute; reflexivity|reflexivity].
Qed.

(** * Further properties *)

(** ** [join_path] *)

Lemma replace_removes (a b : ascii) (s : string) :
  a <> b -> Str.contains a (Str.replace a b s) = false.
Proof.
  intros Hab. induction s as [|x s IH]; cbn [Str.replace Str.contains]; [reflexivity|].
  rewrite IH, orb_false_r.
  destruct (Ascii.eqb_spec x a) as [->|Hx].
  - apply Ascii.eqb_neq. congruence.
  - now apply Ascii.eqb_neq.
Qed.

(** X1.  Whatever its arguments, [join_path] returns a path without any
    backslash. *)
Theorem join_path_has_no_backslash (path p : string) :
  Str.contains Str.backslash (QCompilerEXE.join_path path p) = false.
Proof. apply replace_removes. discriminate. Qed.

(** ** [reindex] only reads *)

Lemma reads_only_bind {A B} (m : M A) (k : A -> M B) :
  reads_only m -> (forall a, reads_only (k a)) -> reads_only (bind m k).
Proof.
  intros Hm Hk w. unfold bind. specialize (Hm w).
  destruct (m w) as [[a|e] w']; cbn [snd] in *; subst; [apply Hk|reflexivity].
Qed.

Lemma reads_only_fold_each {A S} (xs : list A) (body : S -> A -> M S) :
  (forall s x, reads_only (body s x)) ->
  forall s, reads_only (fold_each xs s body).
Proof.
  intros Hbody. induction xs as [|x xs IH]; intros s; cbn [fold_each].
  - now intros w.
  - apply reads_only_bind; auto.
Qed.

Lemma reindex_relpath_reads_only (fuel : nat) :
  forall self folder, reads_only (QCompilerEXE._reindex_relpath fuel self folder).
Proof.
  induction fuel as [|fuel IH]; intros self folder; cbn [QCompilerEXE._reindex_relpath].
  - now intros w.
  - apply reads_only_bind.
    + intros w. unfold os.listdir. now destruct (os.stat w _) as [[d|es]|].
    + intros listing. apply reads_only_fold_each. intros self' name.
      cbv zeta. apply reads_only_bind; [now intros w|]. intros excluded.
      repeat (match goal with
              | |- reads_only (if ?b then _ else _) => destruct b
              | |- reads_only (ret _) => now intros w
              end).
      apply reads_only_bind; [now intros w|]. intros f.
      apply reads_only_bind; [now intros w|]. intros d.
      destruct d; [apply IH|now intros w].
Qed.

Lemma reindex_keeps_world (fuel : nat) (self : QCompilerEXE.t) :
  reads_only (QCompilerEXE.reindex fuel self).
Proof.
  unfold QCompilerEXE.reindex. cbv zeta.
  apply reads_only_fold_each. intros self' name.
  apply reads_only_bind; [now intros w|]. intros excluded.
  repeat (match goal with
          | |- reads_only (if ?b then _ else _) => destruct b
          | |- reads_only (ret _) => now intros w
          end).
  apply reads_only_bind; [now intros w|]. intros f.
  apply reads_only_bind; [now intros w|]. intros d.
  destruct d; [apply reindex_relpath_reads_only|now intros w].
Qed.

(** X2.  Whatever the recursion budget and whatever the outcome, [reindex]
    leaves the filesystem, the working directory, the error stream and the
    list objects as it found them. *)
Theorem reindex_reads_only (fuel : nat) (self : QCompilerEXE.t) (w : world) :
  snd (QCompilerEXE.reindex fuel self w) = w.
Proof. exact (reindex_keeps_world fuel self w). Qed.

(** ** [reindex] starts from an empty list *)

(** A computation on a bundler configuration that changes nothing of it
    but the file list. *)
Lemma fold_each_keeps {A} (xs : list A)
  (body : QCompilerEXE.t -> A -> M QCompilerEXE.t) (self : QCompilerEXE.t) :
  (forall files x w s' w',
      body (QCompilerEXE.set_allFiles self files) x w = (Ok s', w') ->
      exists files', s' = QCompilerEXE.set_allFiles self files') ->
  forall files w s' w',
    fold_each xs (QCompilerEXE.set_allFiles self files) body w = (Ok s', w') ->
    exists files', s' = QCompilerEXE.set_allFiles self files'.
Proof.
  intros Hbody. induction xs as [|x xs IH]; intros files w s' w'; cbn [fold_each].
  - intros [= <- <-]. eauto.
  - unfold bind.
    destruct (body (QCompilerEXE.set_allFiles self files) x w) as [[s1|e] w1] eqn:E;
      [|discriminate].
    destruct (Hbody _ _ _ _ _ E) as (files1 & ->). apply IH.
Qed.

Lemma reindex_relpath_keeps (fuel : nat) (self : QCompilerEXE.t) :
  forall files folder w s' w',
    QCompilerEXE._reindex_relpath fuel (QCompilerEXE.set_allFiles self files) folder w
    = (Ok s', w') ->
    exists files', s' = QCompilerEXE.set_allFiles self files'.
Proof.
  induction fuel as [|fuel IH]; intros files folder w s' w';
    cbn [QCompilerEXE._reindex_relpath]; [discriminate|].
  unfold bind at 1.
  destruct (os.listdir _ w) as [[listing|e] w1]; [|discriminate].
  apply fold_each_keeps. clear files w s' w' w1.
  intros files name w s' w'. cbv zeta. unfold bind at 1.
  destruct (pylist.deref _ w) as [[excluded|e] w1]; [|discriminate].
  repeat (match goal with
          | |- (if ?b then _ else _) _ = _ -> _ => destruct b
          | |- ret _ _ = _ -> _ => intros [= <- <-]; eauto
          end).
  unfold bind.
  destruct (os.path_isfile _ w1) as [[f|e] w2]; [|discriminate].
  destruct (os.path_isdir _ w2) as [[d|e] w3]; [|discriminate].
  destruct f, d; try (intros [= <- <-]; eexists; reflexivity);
    match goal with
    | |- QCompilerEXE._reindex_relpath _ ?s ?f ?w = _ -> _ =>
        intros E; exact (IH (QCompilerEXE.allFiles s) f w s' w' E)
    end.
Qed.

(** X3.  [reindex] is idempotent: run again on its own result, it returns
    that result; the file list does not grow from one run to the next. *)
Theorem reindex_idempotent (fuel : nat) (self self' : QCompilerEXE.t) (w w' : world) :
  QCompilerEXE.reindex fuel self w = (Ok self', w') ->
  QCompilerEXE.reindex fuel self' w' = (Ok self', w').
Proof.
  intros H. pose proof (reindex_keeps_world fuel self w) as Hw.
  rewrite H in Hw. cbn [snd] in Hw. subst w'.
  assert (Hkeeps : exists files, self' = QCompilerEXE.set_allFiles self files).
  { revert H. unfold QCompilerEXE.reindex. cbv zeta.
    cbn [QCompilerEXE.mainContents QCompilerEXE.set_allFiles].
    apply fold_each_keeps. clear.
    intros files name w s' w'. unfold bind at 1.
    destruct (pylist.deref _ w) as [[excluded|e] w1]; [|discriminate].
    repeat (match goal with
            | |- (if ?b then _ else _) _ = _ -> _ => destruct b
            | |- ret _ _ = _ -> _ => intros [= <- <-]; eauto
            end).
    unfold bind.
    destruct (os.path_isfile _ w1) as [[f|e] w2]; [|discriminate].
    destruct (os.path_isdir _ w2) as [[d|e] w3]; [|discriminate].
    destruct f, d; try (intros [= <- <-]; eexists; reflexivity);
      match goal with
      | |- QCompilerEXE._reindex_relpath _ ?s ?f ?w = _ -> _ =>
          intros E;
          exact (reindex_relpath_keeps fuel self (QCompilerEXE.allFiles s) f w s' w' E)
      end. }
  destruct Hkeeps as (files & ->). exact H.
Qed.

Lemma reindex_idempotent_witness :
  QCompilerEXE.reindex 4
    (QCompilerEXE.set_allFiles nested_exe
       [("proj/lib/bin/tool.txt", "lib/bin");
        ("proj/lib/obj/o.txt", "lib/obj");
        ("proj/lib/n.py", "lib")])
    nested_world
  = (Ok (QCompilerEXE.set_allFiles nested_exe
           [("proj/lib/bin/tool.txt", "lib/bin");
            ("proj/lib/obj/o.txt", "lib/obj");
            ("proj/lib/n.py", "lib")]),
     nested_world).
Proof.
  apply (reindex_idempotent 4 nested_exe _ nested_world nested_world).
  vm_compute. reflexivity.
Defined.

(** ** The argument list *)

(** X4.  The main file is always the last fragment of the argument list,
    and [-y] the first. *)
Theorem get_args_ends_with_main_file (self : QCompilerEXE.t) :
  last (QCompilerEXE.get_args self) "" = QCompilerEXE.main_fragment self
  /\ hd "" (QCompilerEXE.get_args self) = "-y".
Proof.
  destruct (get_args_shape self) as (options & ->). split; [|reflexivity].
  change ("-y" :: options ++ [QCompilerEXE.main_fragment self])%list
    with (("-y" :: options) ++ [QCompilerEXE.main_fragment self])%list.
  apply last_last.
Qed.

(** ** Validation in [MultiCompiler.__init__] *)

(** The first loop either goes through or raises a [ValueError]; it never
    touches the state. *)
Lemma collect_cases (cs : list QCompilerEXE.t) :
  forall names mainfiles binfolders w,
    (exists r, MultiCompiler.collect cs names mainfiles binfolders w = (Ok r, w))
    \/ (exists args,
          MultiCompiler.collect cs names mainfiles binfolders w
          = (Raise (ValueError args), w)).
Proof.
  induction cs as [|c cs IH]; intros names mainfiles binfolders w;
    cbn [MultiCompiler.collect].
  - left. eexists. reflexivity.
  - destruct (QCompilerEXE.oneFile c); [right; eexists; reflexivity|].
    destruct (existsb _ names); [right; eexists; reflexivity|].
    apply IH.
Qed.

Lemma collect_one_file (cs : list QCompilerEXE.t) :
  Exists (fun c => QCompilerEXE.oneFile c = true) cs ->
  forall names mainfiles binfolders w,
    exists args,
      MultiCompiler.collect cs names mainfiles binfolders w
      = (Raise (ValueError args), w).
Proof.
  intros H names mainfiles binfolders w.
  destruct (collect_cases cs names mainfiles binfolders w) as [(r & Hr)|?];
    [exfalso|assumption].
  revert names mainfiles binfolders r Hr.
  induction H as [c cs Hc|c cs _ IH]; intros names mainfiles binfolders r;
    cbn [MultiCompiler.collect].
  - now rewrite Hc.
  - destruct (QCompilerEXE.oneFile c); [discriminate|].
    destruct (existsb _ names); [discriminate|]. apply IH.
Qed.

Lemma collect_duplicate (cs : list QCompilerEXE.t) :
  forall names mainfiles binfolders w,
    NoDup names ->
    ~ NoDup (names ++ map QCompilerEXE.appName cs) ->
    exists args,
      MultiCompiler.collect cs names mainfiles binfolders w
      = (Raise (ValueError args), w).
Proof.
  induction cs as [|c cs IH]; intros names mainfiles binfolders w Hnames Hdup.
  - cbn [map] in Hdup. rewrite app_nil_r in Hdup. contradiction.
  - cbn [MultiCompiler.collect].
    destruct (QCompilerEXE.oneFile c); [eexists; reflexivity|].
    destruct (existsb _ names) eqn:E; [eexists; reflexivity|].
    apply IH.
    + apply appname_seen in E. apply NoDup_app; repeat split; auto.
      * constructor; [intros []|constructor].
      * intros a Ha [<-|[]]. contradiction.
    + cbn [map] in Hdup. now rewrite <- app_assoc.
Qed.

(** X5.  [MultiCompiler.__init__] rejects a target in one-file mode: it
    raises a [ValueError] and has changed nothing by then, neither the
    exclusion lists nor the working directory. *)
Theorem multicompiler_rejects_one_file (compiler : QCompilerEXE.t)
  (compilers : list QCompilerEXE.t) (appname : option string) (w : world) :
  Exists (fun c => QCompilerEXE.oneFile c = true) (compilers ++ [compiler]) ->
  exists args,
    MultiCompiler.init compiler compilers appname w = (Raise (ValueError args), w).
Proof.
  intros H. unfold MultiCompiler.init.
  destruct (collect_one_file _ H [appname] [] [] w) as (args & Hc).
  exists args. now rewrite (bind_raise _ _ _ _ _ Hc).
Qed.

Lemma multicompiler_rejects_one_file_witness :
  exists args,
    MultiCompiler.init
      (QCompilerEXE.mk true false "app2" "two.py" ["two.py"] None 1 None []
         None false false (Some "INFO") (Some "two") None None [] None None
         None None None false false None None false false false false None
         (Some "") false [])
      [target_one] (Some "suite") merge_world
    = (Raise (ValueError args), merge_world).
Proof.
  apply multicompiler_rejects_one_file.
  apply Exists_cons_tl, Exists_cons_hd. reflexivity.
Defined.

(** X6.  [MultiCompiler.__init__] rejects app names that are not pairwise
    distinct, the name of the merge itself counted with those of the
    targets: it raises a [ValueError] and has changed nothing by then. *)
Theorem multicompiler_rejects_duplicate_names (compiler : QCompilerEXE.t)
  (compilers : list QCompilerEXE.t) (appname : option string) (w : world) :
  ~ NoDup (appname :: map QCompilerEXE.appName (compilers ++ [compiler])) ->
  exists args,
    MultiCompiler.init compiler compilers appname w = (Raise (ValueError args), w).
Proof.
  intros H. unfold MultiCompiler.init.
  destruct (collect_duplicate (compilers ++ [compiler]) [appname] [] [] w)
    as (args & Hc); [repeat constructor; intros []|exact H|].
  exists args. now rewrite (bind_raise _ _ _ _ _ Hc).
Qed.

(** Two targets that keep the default app name, the empty string. *)
Lemma multicompiler_rejects_duplicate_names_witness :
  exists args,
    MultiCompiler.init sample_exe [nested_exe] (Some "suite") merge_world
    = (Raise (ValueError args), merge_world).
Proof.
  apply multicompiler_rejects_duplicate_names.
  intros H. inversion H as [|? ? _ H']. inversion H' as [|? ? Hin _].
  apply Hin. now left.
Defined.

(** ** The working directory around [MultiCompiler.__init__] *)

Lemma reconcile_cases (w0 w : world) (mainfiles : list string) (c : QCompilerEXE.t) :
  Forall (fun n => FS.valid_name n = true) (cwd w0) ->
  FS.is_dir (FS.lookup (cwd w0) (root w0)) = true ->
  root w = root w0 ->
  cwd w = cwd w0 ->
  exists r h,
    MultiCompiler.reconcile (os.getcwd_of w0) mainfiles c w = (r, set_heap w h).
Proof.
  intros Hcwd Hdir Hroot Hsame.
  destruct (FS.is_dir (os.stat w0 (QCompilerEXE.mainFolder c))) eqn:E.
  - rewrite (reconcile_spec w0 w mainfiles c Hcwd Hdir Hroot Hsame E). eauto.
  - exists (Raise (match os.stat w0 (QCompilerEXE.mainFolder c) with
                   | Some _ => NotADirectoryError (QCompilerEXE.mainFolder c)
                   | None => FileNotFoundError (QCompilerEXE.mainFolder c)
                   end)), (heap w).
    rewrite set_heap_heap. unfold MultiCompiler.reconcile.
    apply bind_raise. unfold os.chdir, os.stat in *.
    assert (Hres : os.resolve w (QCompilerEXE.mainFolder c)
                   = os.resolve w0 (QCompilerEXE.mainFolder c)).
    { unfold os.resolve. now rewrite Hsame. }
    rewrite Hres, Hroot.
    destruct (os.resolve w0 (QCompilerEXE.mainFolder c)) as [p|]; [|reflexivity].
    now destruct (FS.lookup p (root w0)) as [[d|es]|].
Qed.

(** X7.  On every exit path of [MultiCompiler.__init__], whether it
    returns or raises, the working directory is the one it started in and
    the filesystem is untouched: only exclusion lists can have changed. *)
Theorem multicompiler_restores_working_directory (compiler : QCompilerEXE.t)
  (compilers : list QCompilerEXE.t) (appname : option string) (w : world) :
  Forall (fun n => FS.valid_name n = true) (cwd w) ->
  FS.is_dir (FS.lookup (cwd w) (root w)) = true ->
  exists h,
    snd (MultiCompiler.init compiler compilers appname w) = set_heap w h.
Proof.
  intros Hcwd Hdir. unfold MultiCompiler.init.
  set (targets := (compilers ++ [compiler])%list).
  destruct (collect_cases targets [appname] [] [] w) as [(r & Hr)|(args & Hr)].
  2:{ exists (heap w). now rewrite (bind_raise _ _ _ _ _ Hr), set_heap_heap. }
  rewrite (bind_ok _ _ _ _ _ Hr). unfold bind at 1. unfold os.getcwd at 1.
  assert (Hloop : forall cs w1, root w1 = root w -> cwd w1 = cwd w ->
            exists r' h,
              for_each cs (MultiCompiler.reconcile (os.getcwd_of w) (fst r)) w1
              = (r', set_heap w1 h)).
  { induction cs as [|c cs IH]; intros w1 Hroot Hsame; cbn [for_each].
    - exists (Ok tt), (heap w1). now rewrite set_heap_heap.
    - destruct (reconcile_cases w w1 (fst r) c Hcwd Hdir Hroot Hsame)
        as ([[]|e] & h & Hstep).
      + rewrite (bind_ok _ _ _ _ _ Hstep).
        destruct (IH (set_heap w1 h) Hroot Hsame) as (r' & h' & Hrest).
        exists r', h'. exact Hrest.
      + rewrite (bind_raise _ _ _ _ _ Hstep). eauto. }
  destruct (Hloop targets w eq_refl eq_refl) as ([[]|e] & h & Hrun).
  - rewrite (bind_ok _ _ _ _ _ Hrun). exists h. reflexivity.
  - rewrite (bind_raise _ _ _ _ _ Hrun). exists h. reflexivity.
Qed.

Lemma multicompiler_restores_working_directory_witness :
  exists h,
    snd (MultiCompiler.init target_one [target_two] (Some "suite") merge_world)
    = set_heap merge_world h.
Proof.
  apply multicompiler_restores_working_directory; [constructor|reflexivity].
Defined.

(** ** What [clean_directory] leaves alone *)

Lemma find_set_other (n m : string) (v : node) (es : FS.entries) :
  n <> m -> FS.find m (FS.set n v es) = FS.find m es.
Proof.
  intros Hne. induction es as [|[k c] r IH]; cbn [FS.set FS.find].
  - apply String.eqb_neq in Hne. rewrite String.eqb_sym in Hne. now rewrite Hne.
  - destruct (String.eqb_spec n k) as [->|Hnk]; cbn [FS.find].
    + destruct (String.eqb_spec m k) as [->|]; [congruence|reflexivity].
    + now rewrite IH.
Qed.

Lemma find_del_other (n m : string) (es : FS.entries) :
  n <> m -> FS.find m (FS.del n es) = FS.find m es.
Proof.
  intros Hne. induction es as [|[k c] r IH]; cbn [FS.del FS.find]; [reflexivity|].
  destruct (String.eqb_spec n k) as [->|Hnk]; cbn [FS.find].
  - destruct (String.eqb_spec m k) as [->|]; [congruence|reflexivity].
  - now rewrite IH.
Qed.

(** Rewriting a directory does not show on a path that has parted ways with
    it. *)
Lemma lookup_modify_diverge (c x y : FS.path) (a b : string)
  (f : FS.entries -> FS.entries) (t t' : node) :
  a <> b ->
  FS.modify (c ++ a :: x)%list f t = Some t' ->
  FS.lookup (c ++ b :: y)%list t' = FS.lookup (c ++ b :: y)%list t.
Proof.
  intros Hab. revert t t'. induction c as [|n c IH]; intros t t' H;
    (destruct t as [d|es]; [discriminate|]); cbn [app FS.modify FS.lookup] in *.
  - destruct (FS.find a es) as [ca|]; [|discriminate].
    destruct (FS.modify x f ca) as [ca'|]; [|discriminate].
    injection H as <-. cbn [FS.lookup]. now rewrite find_set_other.
  - destruct (FS.find n es) as [cn|] eqn:E; [|discriminate].
    destruct (FS.modify (c ++ a :: x)%list f cn) as [cn'|] eqn:Em; [|discriminate].
    injection H as <-. cbn [FS.lookup]. rewrite find_set_same. eauto.
Qed.

(** Taking an entry out of its directory does not show on a path that has
    parted ways with the entry. *)
Lemma lookup_remove_diverge (p q : FS.path) (t t' : node) :
  diverge p q ->
  FS.remove_entry p t = Some t' ->
  FS.lookup q t' = FS.lookup q t.
Proof.
  intros (c & a & b & x & y & Hab & -> & ->). unfold FS.remove_entry.
  destruct x as [|x0 x] using rev_ind.
  - rewrite unsnoc_snoc. intros H.
    destruct (modify_some _ _ _ _ H) as (es & Hl).
    destruct (modify_spec c (FS.del a) _ _ Hl) as (t'' & Hm & Hl').
    rewrite H in Hm. injection Hm as <-.
    rewrite !lookup_app, Hl, Hl'. cbn [FS.lookup].
    now rewrite find_del_other.
  - clear IHx.
    replace (c ++ a :: x ++ [x0])%list with ((c ++ a :: x) ++ [x0])%list
      by now rewrite <- app_assoc.
    rewrite unsnoc_snoc. now apply lookup_modify_diverge.
Qed.

(** X8.  [clean_directory] on a directory that is there, is reached
    without a link and holds none leaves every path that is neither under
    the directory nor on the way to it as it was: siblings of the
    directory and of its ancestors keep their content. *)
Theorem clean_directory_leaves_the_rest (fuel : nat) (w : Posix.state)
  (directory : string) (p q : FS.path) (es : Posix.entries) :
  Posix.wf (Posix.root w) = true ->
  Posix.height (Posix.root w) < fuel ->
  Posix.direct w directory = Some p ->
  Posix.lookup p (Posix.root w) = Some (Posix.Folder es) ->
  Posix.linkfree (Posix.Folder es) = true ->
  diverge p q ->
  Posix.lookup q (Posix.root (snd (Posix.clean_directory fuel directory w)))
  = Posix.lookup q (Posix.root w).
Proof.
  intros Hwf Hfuel Hdir Hlook Hfree Hdiv.
  destruct (px_clean_directory_existing fuel w directory p es Hwf Hfuel Hdir Hlook
              Hfree) as (r' & Hrem & Hrun & _).
  rewrite Hrun. cbn [snd Posix.root Posix.set_root].
  now apply px_lookup_remove_diverge with (p := p).
Qed.

Lemma clean_directory_leaves_the_rest_witness :
  Posix.lookup ["cache"; "out"]
    (Posix.root (snd (Posix.clean_directory 5 "outside" linked_state)))
  = Posix.lookup ["cache"; "out"] (Posix.root linked_state).
Proof.
  apply (clean_directory_leaves_the_rest 5 linked_state "outside" ["outside"]
           ["cache"; "out"] [("precious.txt", Posix.Reg "p")]);
    try reflexivity.
  - vm_compute. lia.
  - exists [], "outside", "cache", [], ["out"]. repeat split. discriminate.
Defined.

(** ** The first bytecode run *)

(** X9.  With [clean] set, as it is by default, [QCompilerPYC.compile]
    on a first run: when the static checker returns, the project path
    names a directory and the output root is not there (one of its
    components is missing from a directory that is there), both written
    without [..], [compile] raises [FileNotFoundError] for the output root
    before it has compiled or created anything: the state is as the
    checker left it. *)
Theorem pyc_compile_needs_the_output_root `{Collaborators} (fuel : nat)
  (self : QCompilerPYC.t) (w w0 : world) (pre rest : FS.path) (n : string)
  (e : FS.entries) :
  check_project (QCompilerPYC.path self) w = (Ok tt, w0) ->
  QCompilerPYC.clean self = true ->
  dotless (QCompilerPYC.path self) = true ->
  FS.is_dir (os.stat w0 (QCompilerPYC.path self)) = true ->
  dotless (QCompilerPYC.output self) = true ->
  os.resolve w0 (QCompilerPYC.output self) = Some (pre ++ n :: rest)%list ->
  FS.lookup pre (root w0) = Some (Dir e) ->
  FS.find n e = None ->
  QCompilerPYC.compile (S fuel) self w
  = (Raise (FileNotFoundError (QCompilerPYC.output self)), w0).
Proof.
  intros Hcheck Hclean _ Hdir _ Hres Hpre Hmiss.
  assert (Hpath : FS.is_some (os.stat w0 (QCompilerPYC.path self)) = true).
  { now destruct (os.stat w0 (QCompilerPYC.path self)) as [[d|es]|]. }
  assert (Hout : os.stat w0 (QCompilerPYC.output self) = None).
  { unfold os.stat. rewrite Hres, lookup_app, Hpre. cbn [FS.lookup].
    now rewrite Hmiss. }
  unfold QCompilerPYC.compile.
  rewrite (bind_ok _ _ _ _ _ Hcheck).
  unfold bind at 1. unfold os.path_exists at 1. rewrite Hpath. cbn [negb when].
  rewrite (bind_ok _ _ w0 w0 tt) by reflexivity.
  rewrite Hclean. cbn [when]. apply bind_raise.
  cbn [clean_directory]. apply bind_raise.
  unfold os.listdir. now rewrite Hout.
Qed.

Lemma pyc_compile_needs_the_output_root_witness :
  @QCompilerPYC.compile sample_tools 5
     (QCompilerPYC.mk QCompilerPYC.PYC true false 2%Z [] "proj" "/bin/pyc")
     staged_world
  = (Raise (FileNotFoundError "/bin/pyc"), staged_world).
Proof.
  apply (@pyc_compile_needs_the_output_root sample_tools 4
           (QCompilerPYC.mk QCompilerPYC.PYC true false 2%Z [] "proj" "/bin/pyc")
           staged_world staged_world [] ["pyc"] "bin"
           [("proj", Dir [("a.py", File "def a");
                          ("obj", Dir [("application",
                                        Dir [("app.exe", File "exe")])])])]);
    reflexivity.
Defined.

(** ** The path of an archive *)

Lemma rstrip_snoc (c : ascii) (s : string) :
  Str.rstrip c (s ++ String c "") = Str.rstrip c s.
Proof.
  induction s as [|x s IH]; cbn [append Str.rstrip].
  - now rewrite Ascii.eqb_refl.
  - now rewrite IH.
Qed.

(** ** The output root of the bytecode compilers *)

(** X11.  The output root set by the constructors of [QCompilerPYC] and
    [QCompilerPYD] is absolute: it names [bin/pyc] (or [bin/pyd]) under the
    working directory of the time of construction, wherever the process
    stands later. *)
Theorem pyc_output_root_is_absolute (exclude : list string) (path : string)
  (clean : bool) (optimize : Z) (quiet : bool) (w w' : world) :
  Forall (fun n => FS.valid_name n = true) (cwd w) ->
  (exists self,
      QCompilerPYC.init exclude path clean optimize quiet w = (Ok self, w)
      /\ os.resolve w' (QCompilerPYC.output self) = Some (cwd w ++ ["bin"; "pyc"])%list)
  /\ (exists self,
        QCompilerPYC.init_pyd exclude path clean optimize quiet w = (Ok self, w)
        /\ os.resolve w' (QCompilerPYC.output self)
           = Some (cwd w ++ ["bin"; "pyd"])%list).
Proof.
  intros Hcwd.
  pose proof (resolve_getcwd w w' Hcwd) as Hhere.
  split; eexists; (split; [reflexivity|]); cbn [QCompilerPYC.output];
    change (cwd w ++ [?a; ?b])%list with (cwd w ++ [a] ++ [b])%list;
    rewrite app_assoc; repeat apply resolve_join; auto.
Qed.

Lemma pyc_output_root_is_absolute_witness :
  (exists self,
      QCompilerPYC.init [] "proj" true 2%Z false sample_world = (Ok self, sample_world)
      /\ os.resolve (set_cwd sample_world ["proj"]) (QCompilerPYC.output self)
         = Some (cwd sample_world ++ ["bin"; "pyc"])%list)
  /\ (exists self,
        QCompilerPYC.init_pyd [] "proj" true 2%Z false sample_world
        = (Ok self, sample_world)
        /\ os.resolve (set_cwd sample_world ["proj"]) (QCompilerPYC.output self)
           = Some (cwd sample_world ++ ["bin"; "pyd"])%list).
Proof.
  apply pyc_output_root_is_absolute. constructor.
Defined.

(** ** The file list of [reindex], read on the tree *)

Lemma rstrip_id (s : string) :
  Str.endswith s "/" = false -> Str.rstrip Str.slash s = s.
Proof.
  induction s as [|x s IH]; [reflexivity|].
  cbn [Str.endswith Str.rstrip]. intros H.
  apply orb_false_iff in H as [Hx Hs].
  destruct s as [|y s].
  - cbn [Str.rstrip]. destruct (Ascii.eqb_spec x Str.slash) as [->|]; [|reflexivity].
    discriminate Hx.
  - rewrite (IH Hs). reflexivity.
Qed.

(** The directory part of a relative path extended by a name. *)
Lemma split_head (folder n : string) (comps : list string) :
  relpath folder comps -> name_ok n ->
  fst (posixpath.split (folder ++ "/" ++ n)) = folder.
Proof.
  intros Hrel Hn.
  destruct (relpath_facts _ _ Hrel) as (H0 & H1 & H2 & H3).
  destruct (name_ok_facts n Hn) as (_ & _ & _ & _ & Hsl).
  unfold posixpath.split.
  change (folder ++ "/" ++ n) with (folder ++ String Str.slash n).
  rewrite (rcut_app _ _ _ Hsl).
  assert (Hne : Str.is_empty (folder ++ String Str.slash "") = false).
  { apply is_empty_false. destruct folder; discriminate. }
  assert (Hall : Str.all_char Str.slash (folder ++ String Str.slash "") = false).
  { destruct folder as [|x folder]; [congruence|].
    cbn [append Str.all_char]. cbn [Str.startswith] in H1.
    rewrite andb_true_r in H1. unfold Str.slash. now rewrite H1. }
  rewrite Hne, Hall. cbn [negb andb fst].
  now rewrite rstrip_snoc, rstrip_id.
Qed.

Lemma find_in_wf (n : string) (c : node) (es : FS.entries) :
  FS.wf (Dir es) = true -> In (n, c) es -> FS.find n es = Some c.
Proof.
  induction es as [|[m c'] r IH]; intros Hwf Hin; [destruct Hin|].
  apply wf_cons in Hwf as (_ & Hfresh & _ & Hr). cbn [FS.find].
  destruct Hin as [[= -> ->]|Hin].
  - now rewrite String.eqb_refl.
  - specialize (IH Hr Hin). destruct (String.eqb_spec n m) as [->|]; congruence.
Qed.

Lemma set_allFiles_twice (self : QCompilerEXE.t) (a b : list (string * string)) :
  QCompilerEXE.set_allFiles (QCompilerEXE.set_allFiles self a) b
  = QCompilerEXE.set_allFiles self b.
Proof. reflexivity. Qed.

(** The loop of [_reindex_relpath] over the entries of a directory. *)
Lemma listing_loop (w : world) (self : QCompilerEXE.t) (fuel : nat)
  (IH : lists fuel)
  (folder : string) (comps : list string) (p : FS.path) (es : FS.entries) :
  relpath folder comps ->
  os.resolve w (QCompilerEXE.join_path (QCompilerEXE.mainFolder self) folder) = Some p ->
  FS.lookup p (root w) = Some (Dir es) ->
  FS.wf (Dir es) = true ->
  FS.portable (Dir es) = true ->
  FS.height (Dir es) <= S fuel ->
  forall rest : FS.entries,
    (forall nc, In nc rest -> In nc es) ->
    forall files : list (string * string),
      fold_each (map fst rest) (QCompilerEXE.set_allFiles self files)
        (fun self export_path =>
           let export_path := QCompilerEXE.join_path folder export_path in
           let path :=
             QCompilerEXE.join_path (QCompilerEXE.mainFolder self) export_path in
           excluded <- pylist.deref (QCompilerEXE.exclude self) ;;
           if Str.mem export_path excluded then ret self
           else if Str.mem export_path (QCompilerEXE.reserved self) then ret self
           else if Str.mem (snd (posixpath.split export_path)) ["__pycache__"]
           then ret self
           else
             f <- os.path_isfile path ;;
             let self :=
               if f
               then QCompilerEXE.set_allFiles self
                      (QCompilerEXE.allFiles self
                         ++ [(path, fst (posixpath.split export_path))])
               else self in
             d <- os.path_isdir path ;;
             if d then QCompilerEXE._reindex_relpath fuel self export_path
             else ret self) w
      = (Ok (QCompilerEXE.set_allFiles self
               (files ++ listing (QCompilerEXE.mainFolder self) (QCompilerEXE.mainFile self)
                 (excluded_of self w) folder (Dir rest))), w).
Proof.
  intros Hrel Hres Hlook Hwf Hport Hh.
  pose proof (names_ok es Hwf Hport) as Hnames.
  induction rest as [|[n c] rest IHrest]; intros Hsub files.
  - cbn [map fold_each listing]. now rewrite app_nil_r.
  - assert (Hin : In (n, c) es) by (apply Hsub; now left).
    assert (Hn : name_ok n).
    { rewrite Forall_forall in Hnames. apply Hnames.
      change n with (fst (n, c)). now apply in_map. }
    pose proof (find_in_wf n c es Hwf Hin) as Hfind.
    cbn [map fst fold_each].
    set (body := fun (self0 : QCompilerEXE.t) (export_path : string) => _).
    assert (Hstep :
      body (QCompilerEXE.set_allFiles self files) n w
      = (Ok (QCompilerEXE.set_allFiles self
               (files ++
                (if skipped (QCompilerEXE.mainFile self) (excluded_of self w) (folder ++ "/" ++ n)
                    || String.eqb n "__pycache__" then []
                 else match c with
                      | File _ =>
                          [(QCompilerEXE.join_path (QCompilerEXE.mainFolder self)
                              (folder ++ "/" ++ n), folder)]
                      | Dir _ => listing (QCompilerEXE.mainFolder self) (QCompilerEXE.mainFile self)
                 (excluded_of self w) (folder ++ "/" ++ n) c
                      end))), w)).
    { subst body. cbv beta zeta.
      rewrite (join_path_child _ _ _ Hrel Hn).
      unfold bind at 1. unfold pylist.deref at 1.
      cbn [QCompilerEXE.exclude QCompilerEXE.set_allFiles].
      fold (excluded_of self w). unfold skipped.
      destruct (Str.mem (folder ++ "/" ++ n) (excluded_of self w)) eqn:Eex;
        [cbn [orb]; now rewrite app_nil_r|].
      unfold QCompilerEXE.reserved.
      cbn [QCompilerEXE.mainFile QCompilerEXE.set_allFiles].
      destruct (Str.mem (folder ++ "/" ++ n)
                  ["bin"; "obj"; "__pycache__"; QCompilerEXE.mainFile self]) eqn:Eres;
        [cbn [orb]; now rewrite app_nil_r|].
      destruct (name_ok_facts n Hn) as (Hn0 & Hst & Hen & Hbs & Hsl).
      rewrite (split_tail _ _ Hsl), (split_head _ _ _ Hrel Hn).
      cbn [Str.mem existsb orb]. rewrite orb_false_r.
      destruct (String.eqb n "__pycache__") eqn:Epyc;
        [now rewrite app_nil_r|].
      pose proof (relpath_snoc _ _ _ Hrel Hn) as Hrel'.
      assert (Hres' :
        os.resolve w (QCompilerEXE.join_path (QCompilerEXE.mainFolder self)
                        (folder ++ "/" ++ n))
        = Some (p ++ [n])%list).
      { rewrite <- (join_path_child _ _ _ Hrel Hn).
        now apply resolve_under with (comps := comps). }
      assert (Hstat :
        os.stat w (QCompilerEXE.join_path (QCompilerEXE.mainFolder self)
                     (folder ++ "/" ++ n))
        = Some c).
      { unfold os.stat. now rewrite Hres', lookup_snoc, Hlook. }
      cbn [QCompilerEXE.mainFolder QCompilerEXE.set_allFiles].
      unfold bind, os.path_isfile, os.path_isdir. rewrite Hstat.
      destruct c as [data|es_c]; cbn [FS.is_file FS.is_dir].
      - reflexivity.
      - assert (Hlook' : FS.lookup (p ++ [n])%list (root w) = Some (Dir es_c)).
        { rewrite lookup_snoc, Hlook. exact Hfind. }
        assert (Hh' : FS.height (Dir es_c) <= fuel).
        { pose proof (height_find _ _ _ Hfind). lia. }
        rewrite (IH w (QCompilerEXE.set_allFiles self files) (folder ++ "/" ++ n)
                   (comps ++ [n])%list (p ++ [n])%list es_c Hrel' Hres' Hlook'
                   (wf_find _ _ _ Hwf Hfind) (portable_find _ _ _ Hport Hfind) Hh').
        reflexivity. }
    rewrite (bind_ok _ _ _ _ _ Hstep).
    rewrite IHrest by (intros nc H; apply Hsub; now right).
    rewrite <- app_assoc. reflexivity.
Qed.

Lemma reindex_relpath_lists (fuel : nat) : lists fuel.
Proof.
  induction fuel as [|fuel IH];
    intros w self folder comps p es Hrel Hres Hlook Hwf Hport Hh.
  - cbn in Hh. lia.
  - cbn [QCompilerEXE._reindex_relpath].
    assert (Hlist :
      os.listdir (QCompilerEXE.join_path (QCompilerEXE.mainFolder self) folder) w
      = (Ok (map fst es), w)).
    { unfold os.listdir, os.stat. now rewrite Hres, Hlook. }
    rewrite (bind_ok _ _ _ _ _ Hlist).
    pose proof (listing_loop w self fuel IH folder comps p es Hrel Hres Hlook
                  Hwf Hport Hh es (fun nc H => H) (QCompilerEXE.allFiles self))
      as Hrun.
    rewrite set_allFiles_self in Hrun. exact Hrun.
Qed.

Lemma listing_top_loop (fuel : nat) (self : QCompilerEXE.t) (w : world) :
  FS.wf (root w) = true ->
  FS.portable (root w) = true ->
  FS.height (root w) <= fuel ->
  forall names : list string,
    Forall name_ok names ->
    forall files : list (string * string),
      fold_each names (QCompilerEXE.set_allFiles self files)
        (fun self export_path =>
           let path :=
             QCompilerEXE.join_path (QCompilerEXE.mainFolder self) export_path in
           excluded <- pylist.deref (QCompilerEXE.exclude self) ;;
           if Str.mem export_path excluded then ret self
           else if Str.mem export_path (QCompilerEXE.reserved self) then ret self
           else
             f <- os.path_isfile path ;;
             let self :=
               if f
               then QCompilerEXE.set_allFiles self
                      (QCompilerEXE.allFiles self ++ [(path, ".")])
               else self in
             d <- os.path_isdir path ;;
             if d then QCompilerEXE._reindex_relpath fuel self export_path
             else ret self) w
      = (Ok (QCompilerEXE.set_allFiles self
               (files ++
                flat_map
                  (fun n =>
                     if skipped (QCompilerEXE.mainFile self) (excluded_of self w) n
                     then []
                     else match os.stat w (QCompilerEXE.join_path
                                             (QCompilerEXE.mainFolder self) n) with
                          | Some (File _) =>
                              [(QCompilerEXE.join_path (QCompilerEXE.mainFolder self) n,
                                ".")]
                          | Some (Dir es) =>
                              listing (QCompilerEXE.mainFolder self)
                                (QCompilerEXE.mainFile self) (excluded_of self w) n
                                (Dir es)
                          | None => []
                          end)
                  names)), w).
Proof.
  intros Hwf Hport Hh names Hnames.
  induction Hnames as [|n names Hn _ IHn]; intros files.
  - cbn [fold_each flat_map]. now rewrite app_nil_r.
  - cbn [fold_each flat_map].
    set (body := fun (self0 : QCompilerEXE.t) (export_path : string) => _).
    set (item := fun n0 : string => _).
    assert (Hstep :
      body (QCompilerEXE.set_allFiles self files) n w
      = (Ok (QCompilerEXE.set_allFiles self (files ++ item n)), w)).
    { subst body item. cbv beta zeta.
      unfold bind at 1. unfold pylist.deref at 1.
      cbn [QCompilerEXE.exclude QCompilerEXE.mainFolder QCompilerEXE.set_allFiles].
      fold (excluded_of self w). unfold skipped.
      destruct (Str.mem n (excluded_of self w)) eqn:Eex;
        [cbn [orb]; now rewrite app_nil_r|].
      unfold QCompilerEXE.reserved.
      cbn [QCompilerEXE.mainFile QCompilerEXE.set_allFiles].
      destruct (Str.mem n ["bin"; "obj"; "__pycache__"; QCompilerEXE.mainFile self])
        eqn:Eres;
        [cbn [orb]; now rewrite app_nil_r|].
      cbn [orb].
      pose proof (relpath_single n Hn) as Hrel.
      unfold bind, os.path_isfile, os.path_isdir.
      destruct (os.stat w (QCompilerEXE.join_path (QCompilerEXE.mainFolder self) n))
        as [[data|es]|] eqn:Estat; cbn [FS.is_file FS.is_dir].
      - reflexivity.
      - unfold os.stat in Estat.
        destruct (os.resolve w (QCompilerEXE.join_path (QCompilerEXE.mainFolder self) n))
          as [p|] eqn:Eres'; [|discriminate].
        assert (Hh' : FS.height (Dir es) <= fuel).
        { pose proof (height_lookup _ _ _ Estat). lia. }
        rewrite (reindex_relpath_lists fuel w (QCompilerEXE.set_allFiles self files)
                   n [n] p es Hrel Eres' Estat (wf_lookup _ _ _ Hwf Estat)
                   (portable_lookup _ _ _ Hport Estat) Hh').
        reflexivity.
      - now rewrite app_nil_r. }
    rewrite (bind_ok _ _ _ _ _ Hstep), IHn, <- app_assoc. reflexivity.
Qed.

Lemma reindex_result (fuel : nat) (self : QCompilerEXE.t) (w : world) :
  FS.wf (root w) = true ->
  FS.portable (root w) = true ->
  Forall name_ok (QCompilerEXE.mainContents self) ->
  FS.height (root w) <= fuel ->
  QCompilerEXE.reindex fuel self w
  = (Ok (QCompilerEXE.set_allFiles self (listing_top self w)), w).
Proof.
  intros Hwf Hport Hnames Hh. unfold QCompilerEXE.reindex. cbv zeta.
  cbn [QCompilerEXE.mainContents QCompilerEXE.set_allFiles].
  exact (listing_top_loop fuel self w Hwf Hport Hh _ Hnames []).
Qed.

(** X12.  In a well-formed filesystem whose names hold no backslash, with
    a recursion budget that covers its depth, the file list [reindex]
    builds is the depth-first listing of the tree: the names of the main
    folder in their order, each directory's entries in the order of the
    directory, a file recorded with the relative path of the directory
    that holds it ([.] at the top), and nothing for a name that is
    excluded, reserved or [__pycache__]. *)
Theorem reindex_lists_depth_first (fuel : nat) (self : QCompilerEXE.t) (w : world) :
  FS.wf (root w) = true ->
  FS.portable (root w) = true ->
  Forall name_ok (QCompilerEXE.mainContents self) ->
  FS.height (root w) <= fuel ->
  QCompilerEXE.reindex fuel self w
  = (Ok (QCompilerEXE.set_allFiles self (listing_top self w)), w).
Proof. exact (reindex_result fuel self w). Qed.

Lemma reindex_lists_depth_first_witness :
  QCompilerEXE.reindex 4 nested_exe nested_world
  = (Ok (QCompilerEXE.set_allFiles nested_exe (listing_top nested_exe nested_world)),
     nested_world).
Proof.
  apply reindex_lists_depth_first.
  - reflexivity.
  - reflexivity.
  - repeat constructor.
  - vm_compute. lia.
Defined.

(** ** Every file that is not skipped is listed *)

Lemma listing_entry (main_folder main_file folder n : string)
  (excluded : list string) (c : node) (es : FS.entries) (x : string * string) :
  FS.find n es = Some c ->
  skipped main_file excluded (folder ++ "/" ++ n) = false ->
  n <> "__pycache__" ->
  In x match c with
       | File _ => [(QCompilerEXE.join_path main_folder (folder ++ "/" ++ n), folder)]
       | Dir _ => listing main_folder main_file excluded (folder ++ "/" ++ n) c
       end ->
  In x (listing main_folder main_file excluded folder (Dir es)).
Proof.
  intros Hfind Hskip Hpyc Hin.
  induction es as [|[m c'] r IH]; [discriminate|].
  cbn [FS.find] in Hfind. cbn [listing]. apply in_or_app.
  destruct (String.eqb_spec n m) as [<-|Hnm].
  - injection Hfind as <-. left.
    apply String.eqb_neq in Hpyc. now rewrite Hskip, Hpyc.
  - right. apply IH. exact Hfind.
Qed.

Lemma join_cons (n : string) (q : list string) :
  q <> [] -> Str.join "/" (n :: q) = n ++ "/" ++ Str.join "/" q.
Proof. destruct q; [congruence|reflexivity]. Qed.

Lemma join_has_slash (a b : string) (r : list string) :
  Str.contains Str.slash (Str.join "/" (a :: b :: r)) = true.
Proof.
  change (Str.join "/" (a :: b :: r)) with (a ++ String Str.slash (Str.join "/" (b :: r))).
  rewrite contains_app. cbn [Str.contains]. rewrite Ascii.eqb_refl.
  now rewrite orb_true_r.
Qed.

(** An indexable path extended under [folder] passes the tests of the
    walk at each of its components. *)
Lemma listing_complete (main_folder main_file : string) (excluded : list string) :
  forall (comps : list string) (folder : string) (t : node) (data : string),
    comps <> [] ->
    FS.lookup comps t = Some (File data) ->
    (forall pre suf, comps = (pre ++ suf)%list -> pre <> [] ->
        skipped main_file excluded (folder ++ "/" ++ Str.join "/" pre) = false) ->
    ~ In "__pycache__" comps ->
    exists dir,
      In (QCompilerEXE.join_path main_folder (folder ++ "/" ++ Str.join "/" comps), dir)
         (listing main_folder main_file excluded folder t).
Proof.
  induction comps as [|n q IH]; intros folder t data Hne Hlook Hskip Hpyc;
    [congruence|].
  destruct t as [d|es]; [discriminate|]. cbn [FS.lookup] in Hlook.
  destruct (FS.find n es) as [c|] eqn:Efind; [|discriminate].
  assert (Hn : skipped main_file excluded (folder ++ "/" ++ n) = false).
  { apply (Hskip [n] q); [reflexivity|discriminate]. }
  assert (Hnp : n <> "__pycache__").
  { intros ->. apply Hpyc. now left. }
  destruct q as [|m q].
  - cbn in Hlook. injection Hlook as ->. exists folder.
    apply (listing_entry _ _ _ n _ (File data) es); auto. now left.
  - destruct c as [d|es_c]; [discriminate|].
    destruct (IH (folder ++ "/" ++ n) (Dir es_c) data) as (dir & Hin); auto.
    + discriminate.
    + intros pre suf E Hpre.
      specialize (Hskip (n :: pre) suf). cbn [app] in Hskip.
      rewrite join_cons in Hskip by assumption.
      rewrite !append_assoc. apply Hskip; [now rewrite E|discriminate].
    + intros H. apply Hpyc. now right.
    + exists dir.
      apply (listing_entry _ _ _ n _ (Dir es_c) es); auto.
      rewrite join_cons by discriminate.
      now rewrite !append_assoc in Hin.
Qed.

Lemma contains_join (c : ascii) (a b : string) :
  Str.contains c a = false -> Str.contains c b = false -> c <> Str.slash ->
  Str.contains c (posixpath.join a b) = false.
Proof.
  intros Ha Hb Hc. unfold posixpath.join.
  destruct (Str.startswith b "/"); [assumption|].
  destruct (Str.is_empty a || Str.endswith a "/"); rewrite !contains_app, Ha, Hb;
    [reflexivity|].
  cbn [Str.contains]. apply Ascii.eqb_neq in Hc. rewrite Ascii.eqb_sym in Hc.
  unfold Str.slash in Hc. now rewrite Hc.
Qed.

(** X13.  Under the same conditions, every regular file under the main
    folder is listed, provided its first component is one of the names
    [reindex] starts from and its root-relative path is indexable: no
    leading part of the path is excluded or is the main file, its first
    component is none of [bin], [obj], [__pycache__], and no component is
    [__pycache__]. *)
Theorem reindex_lists_every_indexable_file (fuel : nat) (self : QCompilerEXE.t)
  (w : world) (pm comps : FS.path) (data : string) :
  FS.wf (root w) = true ->
  FS.portable (root w) = true ->
  Forall name_ok (QCompilerEXE.mainContents self) ->
  FS.height (root w) <= fuel ->
  os.resolve w (QCompilerEXE.mainFolder self) = Some pm ->
  Str.contains Str.backslash (QCompilerEXE.mainFolder self) = false ->
  comps <> [] ->
  In (hd "" comps) (QCompilerEXE.mainContents self) ->
  FS.lookup (pm ++ comps)%list (root w) = Some (File data) ->
  indexable (QCompilerEXE.mainFile self) (excluded_of self w) comps ->
  exists self' dir,
    QCompilerEXE.reindex fuel self w = (Ok self', w)
    /\ In (QCompilerEXE.join_path (QCompilerEXE.mainFolder self) (Str.join "/" comps),
           dir)
          (QCompilerEXE.allFiles self').
Proof.
  intros Hwf Hport Hnames Hh Hres Hbs Hne Hhd Hlook (Hpre & Hfirst & Hpyc).
  rewrite (reindex_result fuel self w Hwf Hport Hnames Hh).
  destruct comps as [|n q]; [congruence|]. cbn [hd] in *.
  assert (Hn : name_ok n).
  { rewrite Forall_forall in Hnames. now apply Hnames. }
  assert (Hskip : forall pre suf, (n :: q) = (pre ++ suf)%list -> pre <> [] ->
            skipped (QCompilerEXE.mainFile self) (excluded_of self w)
              (Str.join "/" pre) = false).
  { intros pre suf E Hp. unfold skipped.
    specialize (Hpre pre suf E Hp). cbn [In] in Hpre.
    apply orb_false_iff. split; apply mem_false.
    - tauto.
    - destruct pre as [|a [|b pre]]; [congruence| |].
      + injection E as <- _. cbn [Str.join String.concat In] in *. tauto.
      + pose proof (join_has_slash a b pre) as Hs.
        cbn [In]. intros [H|[H|[H|[H|[]]]]]; try tauto;
          rewrite <- H in Hs; discriminate Hs. }
  assert (Hstat :
    os.stat w (QCompilerEXE.join_path (QCompilerEXE.mainFolder self) n)
    = FS.lookup (pm ++ [n])%list (root w)).
  { unfold QCompilerEXE.join_path, os.stat.
    rewrite replace_id by (apply contains_join; [assumption|apply Hn|discriminate]).
    now rewrite (resolve_join _ _ _ _ (proj1 Hn) Hres). }
  replace (pm ++ n :: q)%list with ((pm ++ [n]) ++ q)%list in Hlook
    by now rewrite <- app_assoc.
  rewrite lookup_app in Hlook.
  destruct (FS.lookup (pm ++ [n])%list (root w)) as [t|] eqn:Et; [|discriminate].
  assert (Htop : forall x,
            In x match t with
                 | File _ =>
                     [(QCompilerEXE.join_path (QCompilerEXE.mainFolder self) n, ".")]
                 | Dir es =>
                     listing (QCompilerEXE.mainFolder self) (QCompilerEXE.mainFile self)
                       (excluded_of self w) n (Dir es)
                 end ->
            In x (listing_top self w)).
  { intros x Hx. unfold listing_top. apply in_flat_map. exists n.
    split; [assumption|].
    pose proof (Hskip [n] q eq_refl) as Hs. cbn [Str.join String.concat] in Hs.
    rewrite Hs by discriminate. now rewrite Hstat. }
  destruct q as [|m q].
  - cbn in Hlook. injection Hlook as ->.
    eexists. exists ".". split; [reflexivity|].
    apply Htop. now left.
  - destruct t as [d|es]; [discriminate|].
    destruct (listing_complete (QCompilerEXE.mainFolder self)
                (QCompilerEXE.mainFile self) (excluded_of self w)
                (m :: q) n (Dir es) data) as (dir & Hin); auto.
    + discriminate.
    + intros pre suf E Hp.
      specialize (Hskip (n :: pre) suf). cbn [app] in Hskip.
      rewrite join_cons in Hskip by assumption.
      apply Hskip; [now rewrite E|discriminate].
    + intros H. apply Hpyc. now right.
    + eexists. exists dir. split; [reflexivity|].
      apply Htop. now rewrite join_cons by discriminate.
Qed.

Lemma reindex_lists_every_indexable_file_witness :
  exists self' dir,
    QCompilerEXE.reindex 4 nested_exe nested_world = (Ok self', nested_world)
    /\ In (QCompilerEXE.join_path (QCompilerEXE.mainFolder nested_exe)
             (Str.join "/" ["lib"; "bin"; "tool.txt"]), dir)
          (QCompilerEXE.allFiles self').
Proof.
  apply (reindex_lists_every_indexable_file 4 nested_exe nested_world ["proj"]
           ["lib"; "bin"; "tool.txt"] "t").
  - reflexivity.
  - reflexivity.
  - repeat constructor.
  - vm_compute. lia.
  - reflexivity.
  - reflexivity.
  - discriminate.
  - cbn. auto.
  - reflexivity.
  - apply (indexable_snoc _ "tool.txt" _ ["lib"; "bin"]); [discriminate| | |discriminate].
    + apply (indexable_snoc _ "bin" _ ["lib"]); [discriminate| | |discriminate].
      * apply indexable_single; reflexivity.
      * apply mem_false. reflexivity.
    + apply mem_false. reflexivity.
Defined.

(** ** Relocating the build *)

Lemma bind_assoc {A B C} (m : M A) (f : A -> M B) (g : B -> M C) (w : world) :
  bind (bind m f) g w = bind m (fun x => bind (f x) g) w.
Proof. unfold bind. now destruct (m w) as [[a|e] w1]. Qed.

Lemma diverge_sym (p q : FS.path) : diverge p q -> diverge q p.
Proof.
  intros (c & a & b & x & y & Hab & -> & ->).
  exists c, b, a, y, x. repeat split; congruence.
Qed.

Lemma modify_frame (p q : FS.path) (f : FS.entries -> FS.entries) (t t' : node) :
  diverge p q -> FS.modify p f t = Some t' -> FS.lookup q t' = FS.lookup q t.
Proof.
  intros (c & a & b & x & y & Hab & -> & ->). now apply lookup_modify_diverge.
Qed.

Lemma modify_at (p : FS.path) (f : FS.entries -> FS.entries) (t t' : node)
  (es : FS.entries) :
  FS.lookup p t = Some (Dir es) -> FS.modify p f t = Some t' ->
  FS.lookup p t' = Some (Dir (f es)).
Proof.
  intros Hl Hm. destruct (modify_spec p f t es Hl) as (t'' & Hm' & Hl').
  congruence.
Qed.

Lemma del_absent (n : string) (es : FS.entries) :
  FS.find n es = None -> FS.del n es = es.
Proof.
  induction es as [|[m c] r IH]; cbn [FS.find FS.del]; [reflexivity|].
  destruct (String.eqb n m); [discriminate|]. intros H. now rewrite IH.
Qed.

(** The last component of a path extended by a name is the name. *)
Lemma join_shape (a n : string) :
  FS.valid_name n = true ->
  posixpath.join a n = n \/ exists b, posixpath.join a n = b ++ String Str.slash n.
Proof.
  intros Hn. destruct (valid_name_spec n Hn) as (Hn0 & Hs & _ & _).
  unfold posixpath.join.
  assert (Hst : Str.startswith n "/" = false).
  { destruct n as [|x n]; [congruence|].
    cbn [Str.contains] in Hs. cbn [Str.startswith]. unfold Str.slash in Hs.
    apply orb_false_iff in Hs as [Hx _]. now rewrite Hx. }
  rewrite Hst.
  destruct (Str.is_empty a) eqn:Ea; cbn [orb].
  - apply String.eqb_eq in Ea. subst a. now left.
  - destruct (Str.endswith a "/") eqn:Ee.
    + destruct (endswith_slash a Ee) as (b & ->). right. exists b.
      now rewrite append_assoc.
    + right. now exists a.
Qed.

Lemma basename_join (a n : string) :
  FS.valid_name n = true ->
  posixpath.basename (Str.rstrip Str.slash (posixpath.join a n)) = n.
Proof.
  intros Hn. destruct (valid_name_spec n Hn) as (Hn0 & Hs & _ & _).
  pose proof (endswith_no_slash n Hs) as He.
  unfold posixpath.basename.
  destruct (join_shape a n Hn) as [->|(b & ->)].
  - now rewrite (rstrip_id n He), (rcut_no_sep _ _ Hs).
  - rewrite rstrip_id.
    + now rewrite (rcut_app _ _ _ Hs).
    + change (String Str.slash n) with ("/" ++ n). rewrite <- append_assoc.
      now rewrite endswith_app.
Qed.

Lemma stat_at (w : world) (r : node) (s : string) (p : FS.path) :
  os.resolve w s = Some p -> os.stat (set_root w r) s = FS.lookup p r.
Proof. unfold os.stat. rewrite resolve_set_root. now intros ->. Qed.

Lemma modify_parent_at (w : world) (r r' : node) (s : string) (p : FS.path)
  (n : string) (f : string -> FS.entries -> FS.entries) :
  os.resolve w s = Some (p ++ [n])%list ->
  FS.modify p (f n) r = Some r' ->
  os.modify_parent s f (set_root w r) = (Ok tt, set_root w r').
Proof.
  intros Hres Hm. unfold os.modify_parent.
  rewrite resolve_set_root, Hres, unsnoc_snoc. cbn [root set_root].
  now rewrite Hm.
Qed.

(** The first half of the loop body: whatever holds the name [n] in the
    destination is deleted. *)
Lemma move_clears (w : world) (r : node) (dst n : string) (pd : FS.path)
  (ed : FS.entries) :
  os.resolve w dst = Some pd ->
  FS.valid_name n = true ->
  FS.lookup pd r = Some (Dir ed) ->
  exists r1,
    (e' <- os.path_exists (posixpath.join dst n) ;;
     when e'
       (f <- os.path_isfile (posixpath.join dst n) ;;
        if f then os.remove (posixpath.join dst n)
        else shutil.rmtree (posixpath.join dst n))) (set_root w r)
    = (Ok tt, set_root w r1)
    /\ FS.lookup pd r1 = Some (Dir (FS.del n ed))
    /\ forall q, diverge pd q -> FS.lookup q r1 = FS.lookup q r.
Proof.
  intros Hres Hn Hl.
  pose proof (resolve_join w dst n pd Hn Hres) as Hres'.
  assert (Hstat : os.stat (set_root w r) (posixpath.join dst n) = FS.find n ed).
  { rewrite (stat_at _ _ _ _ Hres'), lookup_snoc. now rewrite Hl. }
  unfold bind at 1. unfold os.path_exists. rewrite Hstat.
  destruct (FS.find n ed) as [c|] eqn:Ef; cbn [FS.is_some when].
  - destruct (modify_spec pd (FS.del n) r ed Hl) as (r1 & Hm & Hl1).
    exists r1. split; [|split].
    + unfold bind, os.path_isfile. rewrite Hstat.
      destruct c as [d|es]; cbn [FS.is_file].
      * unfold os.remove. rewrite Hstat.
        exact (modify_parent_at w r r1 _ pd n FS.del Hres' Hm).
      * unfold shutil.rmtree. rewrite Hstat.
        exact (modify_parent_at w r r1 _ pd n FS.del Hres' Hm).
    + exact Hl1.
    + intros q Hq. exact (modify_frame pd q _ _ _ Hq Hm).
  - exists r. split; [reflexivity|]. split; [|reflexivity].
    now rewrite del_absent.
Qed.

(** The second half: [shutil.move] into a directory that has no entry of
    that name. *)
Lemma move_renames (w : world) (r : node) (src dst n : string) (c : node)
  (ps pd : FS.path) (es ed : FS.entries) :
  os.resolve w src = Some ps ->
  os.resolve w dst = Some pd ->
  diverge ps pd ->
  FS.valid_name n = true ->
  FS.lookup ps r = Some (Dir ((n, c) :: es)) ->
  FS.lookup pd r = Some (Dir ed) ->
  FS.find n ed = None ->
  exists r2,
    shutil.move (posixpath.join src n) dst (set_root w r) = (Ok tt, set_root w r2)
    /\ FS.lookup ps r2 = Some (Dir es)
    /\ FS.lookup pd r2 = Some (Dir (FS.set n c ed))
    /\ forall q, diverge ps q -> diverge pd q -> FS.lookup q r2 = FS.lookup q r.
Proof.
  intros Hs Hd Hdiv Hn Hls Hld Hfresh.
  pose proof (resolve_join w src n ps Hn Hs) as Hs'.
  pose proof (resolve_join w dst n pd Hn Hd) as Hd'.
  destruct (modify_spec ps (FS.del n) r _ Hls) as (ra & Hma & Hla).
  cbn [FS.del] in Hla. rewrite String.eqb_refl in Hla.
  assert (Hlda : FS.lookup pd ra = Some (Dir ed)).
  { rewrite (modify_frame ps pd _ _ _ Hdiv Hma). exact Hld. }
  destruct (modify_spec pd (FS.set n c) ra _ Hlda) as (rb & Hmb & Hlb).
  exists rb. split; [|split; [|split]].
  - unfold shutil.move, bind, os.path_isdir, os.path_exists.
    rewrite (stat_at _ _ _ _ Hd), Hld. cbn [FS.is_dir].
    rewrite (basename_join src n Hn).
    rewrite (stat_at _ _ _ _ Hd'), lookup_snoc, Hld, Hfresh.
    cbn [FS.is_some andb]. unfold os.rename.
    rewrite (stat_at _ _ _ _ Hs'), lookup_snoc, Hls. cbn [FS.find].
    rewrite String.eqb_refl. unfold bind.
    rewrite (modify_parent_at w r ra _ ps n FS.del Hs' Hma).
    exact (modify_parent_at w ra rb _ pd n (fun n => FS.set n c) Hd' Hmb).
  - rewrite (modify_frame pd ps _ _ _ (diverge_sym _ _ Hdiv) Hmb). exact Hla.
  - exact Hlb.
  - intros q Hq1 Hq2.
    rewrite (modify_frame pd q _ _ _ Hq2 Hmb).
    exact (modify_frame ps q _ _ _ Hq1 Hma).
Qed.

Lemma find_del_none (n m : string) (es : FS.entries) :
  FS.find m es = None -> FS.find m (FS.del n es) = None.
Proof.
  induction es as [|[k c] r IH]; cbn [FS.find FS.del]; [reflexivity|].
  destruct (String.eqb_spec m k) as [->|Hmk]; [discriminate|]. intros H.
  destruct (String.eqb n k); [exact H|]. cbn [FS.find].
  destruct (String.eqb_spec m k); [congruence|auto].
Qed.

Lemma wf_del (n : string) (es : FS.entries) :
  FS.wf (Dir es) = true -> FS.wf (Dir (FS.del n es)) = true.
Proof.
  induction es as [|[m c] r IH]; intros Hwf; [reflexivity|].
  pose proof Hwf as Hwf'. apply wf_cons in Hwf' as (Hv & Hf & Hc & Hr).
  cbn [FS.del]. destruct (String.eqb n m); [exact Hr|].
  specialize (IH Hr). cbn [FS.wf] in IH |- *.
  rewrite Hv, Hc, (find_del_none n m r Hf). cbn [FS.is_some negb andb].
  exact IH.
Qed.

Lemma wf_set (n : string) (c : node) (es : FS.entries) :
  FS.wf (Dir es) = true -> FS.valid_name n = true -> FS.wf c = true ->
  FS.wf (Dir (FS.set n c es)) = true.
Proof.
  intros Hwf Hn Hc. induction es as [|[m c'] r IH].
  - cbn. now rewrite Hn, Hc.
  - pose proof Hwf as Hwf'. apply wf_cons in Hwf' as (Hv & Hf & Hc' & Hr).
    cbn [FS.set]. destruct (String.eqb_spec n m) as [->|Hne].
    + cbn [FS.wf] in Hr |- *. rewrite Hv, Hc, Hf. cbn [FS.is_some negb andb].
      exact Hr.
    + specialize (IH Hr). cbn [FS.wf] in IH |- *.
      rewrite Hv, Hc'. rewrite (find_set_other n m c r Hne), Hf.
      cbn [FS.is_some negb andb]. exact IH.
Qed.


Lemma moved_fresh (es : FS.entries) :
  FS.wf (Dir es) = true ->
  forall (ed : FS.entries),
    (forall n c, In (n, c) es -> FS.find n ed = None) ->
    fold_left (fun acc e => FS.set (fst e) (snd e) (FS.del (fst e) acc)) es ed
    = (ed ++ es)%list.
Proof.
  assert (Hset : forall n c ed, FS.find n ed = None ->
            FS.set n c ed = (ed ++ [(n, c)])%list).
  { intros n c ed. induction ed as [|[m c'] r IH]; cbn [FS.find FS.set app];
      [reflexivity|].
    destruct (String.eqb n m); [discriminate|]. intros H. now rewrite IH. }
  induction es as [|[n c] r IH]; intros Hwf ed Hfresh.
  - now rewrite app_nil_r.
  - apply wf_cons in Hwf as (Hv & Hf & Hc & Hr).
    cbn [fold_left fst snd].
    assert (Hn : FS.find n ed = None) by (apply (Hfresh n c); now left).
    rewrite (del_absent n ed Hn), (Hset n c ed Hn), (IH Hr).
    + now rewrite <- app_assoc.
    + intros m c' Hin.
      assert (Hm : FS.find m ed = None) by (apply (Hfresh m c'); now right).
      assert (Hne : n <> m).
      { intros ->. rewrite (find_in_wf m c' r Hr Hin) in Hf. discriminate. }
      clear - Hm Hne. induction ed as [|[k c''] ed IH]; cbn [app FS.find] in *.
      * apply String.eqb_neq in Hne. rewrite String.eqb_sym in Hne. now rewrite Hne.
      * destruct (String.eqb m k); [discriminate|auto].
Qed.

Lemma move_loop (src dst : string) (ps pd : FS.path) (w : world) :
  os.resolve w src = Some ps ->
  os.resolve w dst = Some pd ->
  diverge ps pd ->
  forall (es ed : FS.entries) (r : node),
    FS.lookup ps r = Some (Dir es) ->
    FS.lookup pd r = Some (Dir ed) ->
    FS.wf (Dir es) = true ->
    FS.wf (Dir ed) = true ->
    exists r',
      for_each (map fst es) (fun file_or_folder =>
        let _dst := posixpath.join dst file_or_folder in
        e' <- os.path_exists _dst ;;
        when e'
          (f <- os.path_isfile _dst ;;
           if f then os.remove _dst else shutil.rmtree _dst) ;;
        shutil.move (posixpath.join src file_or_folder) dst) (set_root w r)
      = (Ok tt, set_root w r')
      /\ FS.lookup ps r' = Some (Dir [])
      /\ FS.lookup pd r'
         = Some (Dir (fold_left (fun acc e => FS.set (fst e) (snd e) (FS.del (fst e) acc))
                        es ed))
      /\ forall q, diverge ps q -> diverge pd q -> FS.lookup q r' = FS.lookup q r.
Proof.
  intros Hs Hd Hdiv. induction es as [|[n c] es IH]; intros ed r Hls Hld Hwfs Hwfd.
  - exists r. cbn [map for_each fold_left]. repeat split; auto.
  - pose proof Hwfs as Hwfs'. apply wf_cons in Hwfs' as (Hv & Hf & Hc & Hr).
    destruct (move_clears w r dst n pd ed Hd Hv Hld) as (r1 & Hrun1 & Hld1 & Hfr1).
    assert (Hls1 : FS.lookup ps r1 = Some (Dir ((n, c) :: es))).
    { rewrite (Hfr1 ps (diverge_sym _ _ Hdiv)). exact Hls. }
    destruct (move_renames w r1 src dst n c ps pd es (FS.del n ed) Hs Hd Hdiv Hv
                Hls1 Hld1 (find_del_same n ed Hwfd))
      as (r2 & Hrun2 & Hls2 & Hld2 & Hfr2).
    destruct (IH (FS.set n c (FS.del n ed)) r2 Hls2 Hld2 Hr
                (wf_set n c _ (wf_del n ed Hwfd) Hv Hc))
      as (r' & Hrun & Hls' & Hld' & Hfr').
    exists r'. split; [|split; [|split]].
    + cbn [map fst for_each]. cbv zeta.
      rewrite (bind_ok _ _ _ (set_root w r2) tt); [exact Hrun|].
      etransitivity; [symmetry; apply bind_assoc|].
      rewrite (bind_ok _ _ _ _ _ Hrun1). exact Hrun2.
    + exact Hls'.
    + exact Hld'.
    + intros q Hq1 Hq2. rewrite (Hfr' q Hq1 Hq2), (Hfr2 q Hq1 Hq2). now apply Hfr1.
Qed.



Lemma mkdirs_child (par : FS.path) (n : string) :
  forall (t : node) (e : FS.entries),
    FS.lookup par t = Some (Dir e) ->
    FS.find n e = None ->
    FS.mkdirs (par ++ [n])%list t = FS.modify par (FS.set n (Dir [])) t.
Proof.
  induction par as [|m q IH]; intros t e Hl Hf.
  - cbn in Hl. injection Hl as ->. cbn. now rewrite Hf.
  - destruct t as [d|es]; [discriminate|]. cbn [FS.lookup] in Hl.
    cbn [app FS.mkdirs FS.modify].
    destruct (FS.find m es) as [c|]; [|discriminate].
    now rewrite (IH c e Hl Hf).
Qed.

Lemma set_frame (par q : FS.path) (n : string) (v : node) (t t' : node) :
  diverge (par ++ [n])%list q ->
  FS.modify par (FS.set n v) t = Some t' ->
  FS.lookup q t' = FS.lookup q t.
Proof.
  intros (c & a & b & x & y & Hab & Hp & ->) Hm.
  destruct x as [|x0 x _] using rev_ind.
  - apply (app_inj_tail par c n a) in Hp as [-> ->].
    destruct (modify_some _ _ _ _ Hm) as (es & Hl).
    rewrite !lookup_app, (modify_at _ _ _ _ _ Hl Hm), Hl. cbn [FS.lookup].
    now rewrite find_set_other.
  - replace (c ++ a :: x ++ [x0])%list with ((c ++ a :: x) ++ [x0])%list in Hp
      by now rewrite <- app_assoc.
    apply app_inj_tail in Hp as [-> ->].
    now apply lookup_modify_diverge with (a := a) (x := x) (f := FS.set x0 v).
Qed.

(** X15.  [move_project] into a directory that is not there yet, under a
    directory that is: the destination is created and then holds exactly
    the entries of the source, in their order; the source directory is left
    empty, and a path that has parted ways with both is as it was. *)
Theorem move_project_creates_the_destination (w : world) (src dst : string)
  (ps par : FS.path) (n : string) (es e : FS.entries) :
  FS.wf (root w) = true ->
  os.resolve w src = Some ps ->
  os.resolve w dst = Some (par ++ [n])%list ->
  diverge ps (par ++ [n])%list ->
  FS.lookup ps (root w) = Some (Dir es) ->
  FS.lookup par (root w) = Some (Dir e) ->
  FS.find n e = None ->
  exists r' : node,
    QCompilerEXE.move_project src dst w = (Ok tt, set_root w r')
    /\ FS.lookup ps r' = Some (Dir [])
    /\ FS.lookup (par ++ [n])%list r' = Some (Dir es)
    /\ (forall q, diverge ps q -> diverge (par ++ [n])%list q ->
                  FS.lookup q r' = FS.lookup q (root w)).
Proof.
  intros Hwf Hs Hd Hdiv Hls Hlp Hfresh.
  pose proof (wf_lookup _ _ _ Hwf Hls) as Hwfs.
  destruct (modify_spec par (FS.set n (Dir [])) (root w) e Hlp) as (r0 & Hm & Hl0).
  assert (Hfr0 : forall q, diverge (par ++ [n])%list q ->
                           FS.lookup q r0 = FS.lookup q (root w)).
  { intros q Hq. exact (set_frame par q n _ _ _ Hq Hm). }
  assert (Hld0 : FS.lookup (par ++ [n])%list r0 = Some (Dir [])).
  { now rewrite lookup_snoc, Hl0, find_set_same. }
  assert (Hls0 : FS.lookup ps r0 = Some (Dir es)).
  { rewrite (Hfr0 ps (diverge_sym _ _ Hdiv)). exact Hls. }
  destruct (move_loop src dst ps (par ++ [n])%list w Hs Hd Hdiv es [] r0 Hls0 Hld0
              Hwfs eq_refl)
    as (r' & Hrun & Hls' & Hld' & Hfr).
  rewrite (moved_fresh es Hwfs []) in Hld' by reflexivity.
  exists r'. split; [|split; [exact Hls'|split; [exact Hld'|]]].
  - unfold QCompilerEXE.move_project.
    unfold bind at 1. unfold os.path_exists, os.stat. rewrite Hd.
    rewrite lookup_snoc, Hlp, Hfresh.
    cbn [FS.is_some negb when]. unfold bind at 1. unfold os.makedirs.
    rewrite Hd, lookup_snoc, Hlp, Hfresh.
    rewrite (mkdirs_child par n _ e Hlp Hfresh), Hm.
    unfold bind at 1. unfold os.listdir. rewrite (stat_at w r0 src ps Hs), Hls0.
    exact Hrun.
  - intros q Hq1 Hq2. rewrite (Hfr q Hq1 Hq2). now apply Hfr0.
Qed.

Lemma move_project_creates_the_destination_witness :
  exists r' : node,
    QCompilerEXE.move_project "proj/obj/application" "/proj/bin" staged_world
    = (Ok tt, set_root staged_world r')
    /\ FS.lookup ["proj"; "obj"; "application"] r' = Some (Dir [])
    /\ FS.lookup (["proj"] ++ ["bin"])%list r' = Some (Dir [("app.exe", File "exe")])
    /\ (forall q, diverge ["proj"; "obj"; "application"] q ->
                  diverge (["proj"] ++ ["bin"])%list q ->
                  FS.lookup q r' = FS.lookup q (root staged_world)).
Proof.
  apply (move_project_creates_the_destination staged_world "proj/obj/application"
           "/proj/bin" ["proj"; "obj"; "application"] ["proj"] "bin"
           [("app.exe", File "exe")]
           [("a.py", File "def a");
            ("obj", Dir [("application", Dir [("app.exe", File "exe")])])]);
    try reflexivity.
  exists ["proj"], "obj", "bin", ["application"], []. repeat split. discriminate.
Defined.

(** ** The bytecode of a directory *)

Lemma contains_rev_acc (c : ascii) (s acc : string) :
  Str.contains c (Str.rev_acc s acc) = Str.contains c s || Str.contains c acc.
Proof.
  revert acc. induction s as [|x s IH]; intro acc; cbn [Str.rev_acc Str.contains];
    [reflexivity|].
  rewrite IH. cbn [Str.contains].
  destruct (Ascii.eqb x c), (Str.contains c s), (Str.contains c acc); reflexivity.
Qed.

Lemma rcut_concat (c : ascii) (s : string) :
  s = fst (Str.rcut c s) ++ snd (Str.rcut c s).
Proof.
  induction s as [|x s IH]; [reflexivity|]. cbn [Str.rcut].
  destruct (Str.rcut c s) as [h t]. cbn [fst snd] in IH.
  destruct (Ascii.eqb x c || negb (String.eqb h "")) eqn:E; cbn [fst snd append].
  - now rewrite IH.
  - apply orb_false_iff in E as [_ E]. apply negb_false_iff, String.eqb_eq in E.
    subst h. now rewrite IH.
Qed.

(** The stem of a name holds no character that the name does not hold. *)
Lemma stem_contains (c : ascii) (n : string) :
  Str.contains c n = false ->
  Str.contains c (fst (posixpath.splitext n)) = false.
Proof.
  intros Hn. unfold posixpath.splitext.
  pose proof (rcut_concat Str.slash n) as Hd.
  destruct (Str.rcut Str.slash n) as [dir name]. cbn [fst snd] in Hd.
  pose proof (rcut_concat Str.dot name) as Hs.
  destruct (Str.rcut Str.dot name) as [stem ext]. cbn [fst snd] in Hs.
  destruct (Str.rev stem) as [|x rstem] eqn:Er; [exact Hn|].
  destruct (Str.is_empty (posixpath.lstrip_dots (Str.rev rstem))); [exact Hn|].
  cbn [fst]. subst n name. rewrite !contains_app in Hn.
  apply orb_false_iff in Hn as [Hdir Hn]. apply orb_false_iff in Hn as [Hstem _].
  rewrite contains_app, Hdir. cbn [orb].
  assert (H : Str.contains c (Str.rev stem) = false).
  { unfold Str.rev. rewrite contains_rev_acc, Hstem. reflexivity. }
  rewrite Er in H. cbn [Str.contains] in H. apply orb_false_iff in H as [_ H].
  unfold Str.rev. rewrite contains_rev_acc, H. reflexivity.
Qed.

Lemma splitext_under (b n : string) :
  Str.contains Str.slash n = false ->
  posixpath.splitext (b ++ String Str.slash n)
  = (b ++ String Str.slash (fst (posixpath.splitext n)), snd (posixpath.splitext n)).
Proof.
  intros Hn. unfold posixpath.splitext.
  rewrite (rcut_app _ _ _ Hn), (rcut_no_sep _ _ Hn).
  destruct (Str.rcut Str.dot n) as [stem ext].
  destruct (Str.rev stem) as [|x rstem]; [reflexivity|].
  destruct (Str.is_empty (posixpath.lstrip_dots (Str.rev rstem))); [reflexivity|].
  cbn [fst snd append]. now rewrite append_assoc.
Qed.

Lemma compiled_name_valid (n : string) :
  FS.valid_name n = true -> FS.valid_name (compiled_name n) = true.
Proof.
  intros Hn. destruct (valid_name_spec n Hn) as (_ & Hs & _ & _).
  pose proof (stem_contains Str.slash n Hs) as Hst.
  unfold FS.valid_name, compiled_name.
  set (s := fst (posixpath.splitext n)) in *.
  rewrite contains_app, Hst. cbn [Str.contains orb negb andb].
  assert (Hp : Str.contains "p"%char (s ++ ".pyc") = true).
  { rewrite contains_app. cbn. apply orb_true_r. }
  unfold Str.is_empty.
  destruct (String.eqb_spec (s ++ ".pyc") "") as [E|_];
    [rewrite E in Hp; discriminate Hp|].
  destruct (String.eqb_spec (s ++ ".pyc") ".") as [E|_];
    [rewrite E in Hp; discriminate Hp|].
  destruct (String.eqb_spec (s ++ ".pyc") "..") as [E|_];
    [rewrite E in Hp; discriminate Hp|].
  reflexivity.
Qed.

(** The directory a path stands in front of every name added to it. *)
Lemma join_base (a : string) :
  a <> "" ->
  exists b,
    (a = b /\ Str.endswith a "/" = false \/ a = b ++ "/")
    /\ forall n, FS.valid_name n = true ->
                 posixpath.join a n = b ++ String Str.slash n.
Proof.
  intros Ha. apply is_empty_false in Ha.
  assert (Hst : forall n, FS.valid_name n = true -> Str.startswith n "/" = false).
  { intros n Hn. destruct (valid_name_spec n Hn) as (Hn0 & Hs & _ & _).
    destruct n as [|x n]; [congruence|].
    cbn [Str.contains] in Hs. cbn [Str.startswith]. unfold Str.slash in Hs.
    apply orb_false_iff in Hs as [Hx _]. now rewrite Hx. }
  destruct (Str.endswith a "/") eqn:Ee.
  - destruct (endswith_slash a Ee) as (b & ->). exists b. split; [now right|].
    intros n Hn. unfold posixpath.join. rewrite (Hst n Hn), Ha, Ee. cbn [orb].
    now rewrite append_assoc.
  - exists a. split; [now left|].
    intros n Hn. unfold posixpath.join. now rewrite (Hst n Hn), Ha, Ee.
Qed.

(** The path of the bytecode file, as [compile_file] builds it. *)
Lemma compiled_path (to n : string) :
  to <> "" -> FS.valid_name n = true ->
  fst (posixpath.splitext (posixpath.join to n)) ++ ".pyc"
  = posixpath.join to (compiled_name n).
Proof.
  intros Hto Hn. destruct (join_base to Hto) as (b & _ & Hb).
  destruct (valid_name_spec n Hn) as (_ & Hs & _ & _).
  rewrite (Hb n Hn), (Hb _ (compiled_name_valid n Hn)), (splitext_under b n Hs).
  cbn [fst]. unfold compiled_name. now rewrite append_assoc.
Qed.

Lemma source_under (directory n : string) :
  directory <> "" -> FS.valid_name n = true ->
  snd (posixpath.splitext (posixpath.join directory n)) = snd (posixpath.splitext n).
Proof.
  intros Hd Hn. destruct (join_base directory Hd) as (b & _ & Hb).
  destruct (valid_name_spec n Hn) as (_ & Hs & _ & _).
  now rewrite (Hb n Hn), (splitext_under b n Hs).
Qed.

Lemma rstrip_slashes (s : string) :
  exists k, s = Str.rstrip Str.slash s ++ slashes k.
Proof.
  induction s as [|x s (k & IH)]; [now exists 0|]. cbn [Str.rstrip].
  destruct (Str.rstrip Str.slash s) as [|y r] eqn:E.
  - cbn [append] in IH. destruct (Ascii.eqb_spec x Str.slash) as [->|].
    + exists (S k). cbn [append slashes]. now rewrite <- IH.
    + exists k. cbn [append]. now rewrite <- IH.
  - exists k. cbn [append] in *. now rewrite <- IH.
Qed.

Lemma all_char_slashes (k : nat) : Str.all_char Str.slash (slashes k) = true.
Proof. induction k as [|k IH]; [reflexivity|]. cbn. exact IH. Qed.

Lemma resolve_slashes (w : world) (k : nat) :
  forall s, s <> "" -> os.resolve w (s ++ slashes k) = os.resolve w s.
Proof.
  induction k as [|k IH]; intros s Hs; cbn [slashes].
  - now rewrite append_nil_r.
  - change (String Str.slash (slashes k)) with ("/" ++ slashes k).
    rewrite <- append_assoc, IH.
    + now apply resolve_trailing_slash.
    + destruct s; [congruence|discriminate].
Qed.

Lemma resolve_rstrip (w : world) (s : string) :
  Str.all_char Str.slash s = false ->
  os.resolve w (Str.rstrip Str.slash s) = os.resolve w s.
Proof.
  intros Hs. destruct (rstrip_slashes s) as (k & Hk).
  destruct (Str.rstrip Str.slash s) as [|x r] eqn:E.
  - cbn [append] in Hk. rewrite Hk, all_char_slashes in Hs. discriminate.
  - rewrite Hk. symmetry. apply resolve_slashes. discriminate.
Qed.

Lemma all_char_app (c : ascii) (a b : string) :
  Str.all_char c (a ++ b) = Str.all_char c a && Str.all_char c b.
Proof.
  induction a as [|x a IH]; cbn [append Str.all_char]; [reflexivity|].
  now rewrite IH, andb_assoc.
Qed.

Lemma all_char_endswith (a : string) :
  a <> "" -> Str.all_char Str.slash a = true -> Str.endswith a "/" = true.
Proof.
  induction a as [|x a IH]; [congruence|]. intros _ H.
  cbn [Str.all_char] in H. apply andb_true_iff in H as [Hx Ha].
  apply Ascii.eqb_eq in Hx. subst x. cbn [Str.endswith].
  destruct a as [|y a]; [reflexivity|].
  rewrite IH by (auto; discriminate). apply orb_true_r.
Qed.

(** The directory of a path extended by a name is the path. *)
Lemma resolve_dirname (w : world) (a m : string) (p : FS.path) :
  os.resolve w a = Some p ->
  FS.valid_name m = true ->
  os.resolve w (fst (posixpath.split (posixpath.join a m))) = Some p.
Proof.
  intros Hres Hm. pose proof (resolve_nonempty _ _ _ Hres) as Ha.
  destruct (join_base a Ha) as (b & Hab & Hb).
  destruct (valid_name_spec m Hm) as (_ & Hs & _ & _).
  rewrite (Hb m Hm). unfold posixpath.split. rewrite (rcut_app _ _ _ Hs).
  assert (He : Str.is_empty (b ++ String Str.slash "") = false) by now destruct b.
  rewrite He. cbn [negb andb].
  destruct (Str.all_char Str.slash (b ++ String Str.slash "")) eqn:Eall;
    cbn [negb fst].
  - destruct Hab as [[<- Hend]| ->]; [|exact Hres].
    rewrite all_char_app in Eall. apply andb_true_iff in Eall as [Eall _].
    rewrite (all_char_endswith a Ha Eall) in Hend. discriminate.
  - rewrite rstrip_snoc. destruct Hab as [[<- Hend]| ->].
    + now rewrite (rstrip_id a Hend).
    + rewrite all_char_app in Eall. cbn [Str.all_char] in Eall.
      rewrite andb_true_r in Eall.
      rewrite (resolve_rstrip w b Eall).
      rewrite resolve_trailing_slash in Hres; [exact Hres|].
      intros ->. discriminate Eall.
Qed.

(** *** More on the tree *)

Lemma set_fresh (n : string) (v : node) (es : FS.entries) :
  FS.find n es = None -> FS.set n v es = (es ++ [(n, v)])%list.
Proof.
  induction es as [|[m c'] r IH]; cbn [FS.find FS.set app]; [reflexivity|].
  destruct (String.eqb n m); [discriminate|]. intros H. now rewrite IH.
Qed.

Lemma modify_congr (p : FS.path) (f g : FS.entries -> FS.entries) :
  forall (t : node) (es : FS.entries),
    FS.lookup p t = Some (Dir es) -> f es = g es ->
    FS.modify p f t = FS.modify p g t.
Proof.
  induction p as [|n q IH]; intros t es Hl Hfg;
    (destruct t as [d|es0]; [discriminate|]).
  - cbn in Hl. injection Hl as ->. cbn. now rewrite Hfg.
  - cbn [FS.lookup] in Hl. cbn [FS.modify].
    destruct (FS.find n es0) as [c|]; [|reflexivity].
    now rewrite (IH c es Hl Hfg).
Qed.

Lemma modify_child (par : FS.path) (n : string) (f : FS.entries -> FS.entries)
  (x : FS.entries) :
  forall (t t0 : node),
    FS.modify par (FS.set n (Dir x)) t = Some t0 ->
    FS.modify (par ++ [n])%list f t0 = FS.modify par (FS.set n (Dir (f x))) t.
Proof.
  induction par as [|m q IH]; intros t t0 Hm;
    (destruct t as [d|es]; [discriminate|]).
  - cbn in Hm. injection Hm as <-. cbn. now rewrite find_set_same, set_set.
  - cbn [app FS.modify] in Hm |- *.
    destruct (FS.find m es) as [c|] eqn:Ef; [|discriminate].
    destruct (FS.modify q (FS.set n (Dir x)) c) as [c0|] eqn:Ec; [|discriminate].
    injection Hm as <-. cbn [FS.modify]. rewrite find_set_same.
    rewrite (IH c c0 Ec).
    destruct (FS.modify q (FS.set n (Dir (f x))) c); [|reflexivity].
    now rewrite set_set.
Qed.

Lemma mkdirs_lookup (p : FS.path) :
  forall (t t' : node),
    FS.mkdirs p t = Some t' ->
    FS.lookup p t = None \/ t = Dir [] ->
    FS.lookup p t' = Some (Dir []).
Proof.
  induction p as [|n q IH]; intros t t' Hm Hl;
    (destruct t as [d|es]; [discriminate|]).
  - cbn in Hm. injection Hm as <-. destruct Hl as [Hl|Hl]; [discriminate|].
    now rewrite Hl.
  - cbn [FS.mkdirs] in Hm.
    destruct (FS.mkdirs q match FS.find n es with Some c => c | None => Dir [] end)
      as [c'|] eqn:Ec; [|discriminate].
    injection Hm as <-. cbn [FS.lookup]. rewrite find_set_same.
    apply (IH _ _ Ec).
    destruct (FS.find n es) as [c|] eqn:Ef; [|now right].
    destruct Hl as [Hl|Hl].
    + cbn [FS.lookup] in Hl. rewrite Ef in Hl. now left.
    + injection Hl as ->. discriminate.
Qed.

Lemma lookup_empty (p : FS.path) : p <> [] -> FS.lookup p (Dir []) = None.
Proof. destruct p; [congruence|reflexivity]. Qed.

Lemma mkdirs_frame (p q : FS.path) (t t' : node) :
  diverge p q -> FS.mkdirs p t = Some t' -> FS.lookup q t' = FS.lookup q t.
Proof.
  intros (c & a & b & x & y & Hab & -> & ->). revert t t'.
  induction c as [|n c IH]; intros t t' Hm;
    (destruct t as [d|es]; [discriminate|]); cbn [app FS.mkdirs FS.lookup] in *.
  - destruct (FS.mkdirs x _) as [c'|]; [|discriminate].
    injection Hm as <-. cbn [FS.lookup]. now rewrite find_set_other.
  - destruct (FS.mkdirs (c ++ a :: x)%list _) as [c'|] eqn:Ec; [|discriminate].
    injection Hm as <-. cbn [FS.lookup]. rewrite find_set_same.
    rewrite (IH _ _ Ec).
    destruct (FS.find n es); [reflexivity|].
    apply lookup_empty. now destruct c.
Qed.

Lemma diverge_snoc (p q : FS.path) (n m : string) :
  diverge p q -> diverge (p ++ [n])%list (q ++ [m])%list.
Proof.
  intros (c & a & b & x & y & Hab & -> & ->).
  exists c, a, b, (x ++ [n])%list, (y ++ [m])%list.
  split; [assumption|]. now rewrite <- !app_assoc.
Qed.

Lemma diverge_under (p q : FS.path) (n : string) :
  diverge p q -> diverge (p ++ [n])%list q.
Proof.
  intros (c & a & b & x & y & Hab & -> & ->).
  exists c, a, b, (x ++ [n])%list, y.
  split; [assumption|]. now rewrite <- !app_assoc.
Qed.

Lemma modify_parent_run (w : world) (r' : node) (s : string) (p : FS.path)
  (n : string) (f : string -> FS.entries -> FS.entries) :
  os.resolve w s = Some (p ++ [n])%list ->
  FS.modify p (f n) (root w) = Some r' ->
  os.modify_parent s f w = (Ok tt, set_root w r').
Proof.
  intros Hres Hm. unfold os.modify_parent. now rewrite Hres, unsnoc_snoc, Hm.
Qed.

Lemma stat_child (w : world) (a n : string) (p : FS.path) (es : FS.entries) :
  os.resolve w a = Some p -> FS.valid_name n = true ->
  FS.lookup p (root w) = Some (Dir es) ->
  os.stat w (posixpath.join a n) = FS.find n es.
Proof.
  intros Hres Hn Hl. unfold os.stat.
  now rewrite (resolve_join w a n p Hn Hres), lookup_snoc, Hl.
Qed.

Lemma write_file_run (w : world) (to n data : string) (pto : FS.path)
  (acc : FS.entries) :
  os.resolve w to = Some pto -> FS.valid_name n = true ->
  FS.lookup pto (root w) = Some (Dir acc) ->
  FS.is_dir (FS.find n acc) = false ->
  exists r1,
    os.write_file (posixpath.join to n) data w = (Ok tt, set_root w r1)
    /\ FS.modify pto (FS.set n (File data)) (root w) = Some r1.
Proof.
  intros Hres Hn Hl Hd.
  destruct (modify_spec pto (FS.set n (File data)) (root w) acc Hl) as (r1 & Hm & _).
  exists r1. split; [|exact Hm].
  unfold os.write_file. rewrite (stat_child w to n pto acc Hres Hn Hl).
  pose proof (modify_parent_run w r1 _ pto n (fun n => FS.set n (File data))
                (resolve_join w to n pto Hn Hres) Hm) as Hrun.
  destruct (FS.find n acc) as [[d|es]|]; [exact Hrun|discriminate Hd|exact Hrun].
Qed.

(** [compile_file] on a source the compiler accepts. *)
Lemma compile_file_run `{Collaborators} (self : QCompilerPYC.t) (w : world)
  (file to n source code : string) (pto : FS.path) (acc : FS.entries) :
  QCompilerPYC.cls self = QCompilerPYC.PYC ->
  os.resolve w to = Some pto ->
  FS.valid_name n = true ->
  FS.lookup pto (root w) = Some (Dir acc) ->
  FS.is_dir (FS.find (compiled_name n) acc) = false ->
  os.stat w file = Some (File source) ->
  source_to_code file source (QCompilerPYC.optimize self) = inl code ->
  exists r1,
    QCompilerPYC.compile_file self file (posixpath.join to n) w = (Ok tt, set_root w r1)
    /\ FS.modify pto (FS.set (compiled_name n) (File code)) (root w) = Some r1.
Proof.
  intros Hcls Hres Hn Hl Hd Hfile Hgood.
  pose proof (compiled_name_valid n Hn) as Hm.
  destruct (write_file_run w to (compiled_name n) code pto acc Hres Hm Hl Hd)
    as (r1 & Hrun & Hmod).
  exists r1. split; [|exact Hmod].
  unfold QCompilerPYC.compile_file. rewrite Hcls.
  rewrite (compiled_path to n (resolve_nonempty _ _ _ Hres) Hn).
  pose proof (stat_child w to (compiled_name n) pto acc Hres Hm Hl) as Hstat.
  unfold py_compile, bind, os.path_exists, os.path_isfile, os.read_file.
  rewrite Hstat.
  assert (Hfree : FS.is_some (FS.find (compiled_name n) acc)
                  && negb (FS.is_file (FS.find (compiled_name n) acc)) = false).
  { destruct (FS.find (compiled_name n) acc) as [[d|es]|]; [reflexivity| |reflexivity].
    discriminate Hd. }
  rewrite Hfree, Hfile, Hgood.
  pose proof (resolve_dirname w to (compiled_name n) pto Hres Hm) as Hdir.
  rewrite (proj2 (is_empty_false _) (resolve_nonempty _ _ _ Hdir)).
  cbn [negb when]. unfold ignore_exists, os.makedirs. rewrite Hdir, Hl.
  now rewrite Hrun.
Qed.

(** [compile_file] on a source the compiler rejects. *)
Lemma compile_file_rejected `{Collaborators} (self : QCompilerPYC.t) (w : world)
  (file to n source msg : string) (pto : FS.path) (acc : FS.entries) :
  QCompilerPYC.cls self = QCompilerPYC.PYC ->
  os.resolve w to = Some pto ->
  FS.valid_name n = true ->
  FS.lookup pto (root w) = Some (Dir acc) ->
  FS.is_dir (FS.find (compiled_name n) acc) = false ->
  os.stat w file = Some (File source) ->
  source_to_code file source (QCompilerPYC.optimize self) = inr msg ->
  QCompilerPYC.compile_file self file (posixpath.join to n) w
  = (Ok tt, set_stderr w (stderr w ++ [msg])%list).
Proof.
  intros Hcls Hres Hn Hl Hd Hfile Hbad.
  pose proof (compiled_name_valid n Hn) as Hm.
  unfold QCompilerPYC.compile_file. rewrite Hcls.
  rewrite (compiled_path to n (resolve_nonempty _ _ _ Hres) Hn).
  pose proof (stat_child w to (compiled_name n) pto acc Hres Hm Hl) as Hstat.
  unfold py_compile, bind, os.path_exists, os.path_isfile, os.read_file.
  rewrite Hstat.
  assert (Hfree : FS.is_some (FS.find (compiled_name n) acc)
                  && negb (FS.is_file (FS.find (compiled_name n) acc)) = false).
  { destruct (FS.find (compiled_name n) acc) as [[d|es]|]; [reflexivity| |reflexivity].
    discriminate Hd. }
  now rewrite Hfree, Hfile, Hbad.
Qed.

(** [copy_file] onto a name that is not a directory. *)
Lemma copy_file_run (w : world) (file to n data : string) (pto : FS.path)
  (acc : FS.entries) :
  os.resolve w to = Some pto ->
  FS.valid_name n = true ->
  FS.lookup pto (root w) = Some (Dir acc) ->
  FS.is_dir (FS.find n acc) = false ->
  os.stat w file = Some (File data) ->
  exists r1,
    QCompilerPYC.copy_file file (posixpath.join to n) w = (Ok tt, set_root w r1)
    /\ FS.modify pto (FS.set n (File data)) (root w) = Some r1.
Proof.
  intros Hres Hn Hl Hd Hfile.
  destruct (write_file_run w to n data pto acc Hres Hn Hl Hd) as (r1 & Hrun & Hmod).
  exists r1. split; [|exact Hmod].
  unfold QCompilerPYC.copy_file, shutil.copy2, bind, os.path_isdir, os.read_file.
  rewrite (stat_child w to n pto acc Hres Hn Hl), Hd, Hfile. exact Hrun.
Qed.

Lemma find_app (k : string) (a b : FS.entries) :
  FS.find k (a ++ b)%list
  = match FS.find k a with
    | Some c => Some c
    | None => FS.find k b
    end.
Proof.
  induction a as [|[m c] a IH]; cbn [app FS.find]; [reflexivity|].
  now destruct (String.eqb k m).
Qed.

Lemma clash_free_cons (n : string) (c : node) (r : FS.entries) :
  clash_free (Dir ((n, c) :: r)) = true ->
  ~ In (written_name n c) (map (fun e => written_name (fst e) (snd e)) r)
  /\ clash_free c = true /\ clash_free (Dir r) = true.
Proof.
  cbn [clash_free]. intros H.
  apply andb_true_iff in H as [H Hr]. apply andb_true_iff in H as [Hm Hc].
  apply negb_true_iff, mem_false in Hm. auto.
Qed.

Lemma world_same (w : world) :
  set_stderr (set_root w (root w)) (stderr w ++ [])%list = w.
Proof. destruct w. unfold set_stderr, set_root. cbn. now rewrite app_nil_r. Qed.

Lemma world_quiet (w : world) (r : node) :
  set_stderr (set_root w r) (stderr w ++ [])%list = set_root w r.
Proof. unfold set_stderr, set_root. cbn. now rewrite app_nil_r. Qed.

Lemma modify_same (p : FS.path) (t : node) (es : FS.entries) :
  FS.lookup p t = Some (Dir es) ->
  FS.modify p (fun _ => (es ++ [])%list) t = Some t.
Proof. rewrite app_nil_r. apply modify_id. Qed.

Lemma modify_appends (p : FS.path) (t t' : node) (es : FS.entries) (n : string)
  (v : node) :
  FS.lookup p t = Some (Dir es) ->
  FS.find n es = None ->
  FS.modify p (FS.set n v) t = Some t' ->
  FS.modify p (fun _ => (es ++ [(n, v)])%list) t = Some t'.
Proof.
  intros Hl Hf Hm. rewrite <- Hm. apply (modify_congr p _ _ t es Hl).
  symmetry. now apply set_fresh.
Qed.

(** The loop of [compile_directory] over the entries [rest] of the source,
    once the destination holds [acc]. *)
Lemma mirror_loop `{Collaborators} (fuel : nat) (self : QCompilerPYC.t)
  (directory to : string) (pdir pto : FS.path) (es_all : FS.entries) :
  mirrors fuel ->
  QCompilerPYC.cls self = QCompilerPYC.PYC ->
  diverge pdir pto ->
  forall (rest acc : FS.entries) (w : world),
    os.resolve w directory = Some pdir ->
    os.resolve w to = Some pto ->
    FS.lookup pdir (root w) = Some (Dir es_all) ->
    (forall n c, In (n, c) rest -> FS.find n es_all = Some c) ->
    FS.wf (Dir rest) = true ->
    clash_free (Dir rest) = true ->
    FS.lookup pto (root w) = Some (Dir acc) ->
    (forall n c, In (n, c) rest -> FS.find (written_name n c) acc = None) ->
    FS.height (Dir rest) <= S fuel ->
    exists r',
      for_each (map fst rest) (fun item =>
        let i_path := posixpath.join directory item in
        let t_path := posixpath.join to item in
        d <- os.path_isdir i_path ;;
        if d then QCompilerPYC.compile_directory fuel self i_path (Some t_path)
        else
          f <- os.path_isfile i_path ;;
          if f then
            if String.eqb (snd (posixpath.splitext i_path)) ".py"
            then QCompilerPYC.compile_file self i_path t_path
            else QCompilerPYC.copy_file i_path t_path
          else ret tt) w
      = (Ok tt, set_stderr (set_root w r')
                  (stderr w ++ complaints (QCompilerPYC.optimize self) directory (Dir rest))%list)
      /\ FS.modify pto
           (fun _ => (acc ++ mirror (QCompilerPYC.optimize self) directory (Dir rest))%list)
           (root w)
         = Some r'.
Proof.
  intros Hrec Hcls Hdiv.
  induction rest as [|[n c] rest IH];
    intros acc w Hrd Hrt Hld Hsub Hwf Hfree Hlt Hfresh Hh.
  - exists (root w). cbn [map for_each mirror complaints]. split.
    + unfold ret. now rewrite world_same.
    + now apply modify_same.
  - pose proof Hwf as Hwf'. apply wf_cons in Hwf' as (Hv & Hnew & Hwfc & Hwfr).
    apply clash_free_cons in Hfree as (Hclash & Hfc & Hfr).
    apply height_entries_le in Hh as (Hhc & Hhr).
    assert (Hc : FS.find n es_all = Some c) by (apply Hsub; now left).
    assert (Hstat : os.stat w (posixpath.join directory n) = Some c).
    { now rewrite (stat_child w directory n pdir es_all Hrd Hv Hld). }
    assert (Hnone : FS.find (written_name n c) acc = None) by (apply Hfresh; now left).
    set (opt := QCompilerPYC.optimize self) in *.
    set (items :=
           match c with
           | Dir _ => [(n, Dir (mirror opt (posixpath.join directory n) c))]
           | File source =>
               if is_source n then
                 match source_to_code (posixpath.join directory n) source opt with
                 | inl code => [(compiled_name n, File code)]
                 | inr _ => []
                 end
               else [(n, File source)]
           end).
    set (msgs :=
           match c with
           | Dir _ => complaints opt (posixpath.join directory n) c
           | File source =>
               if is_source n then
                 match source_to_code (posixpath.join directory n) source opt with
                 | inl _ => []
                 | inr msg => [msg]
                 end
               else []
           end).
    assert (Hstep : exists r1,
      (d <- os.path_isdir (posixpath.join directory n) ;;
       if d then QCompilerPYC.compile_directory fuel self (posixpath.join directory n)
                   (Some (posixpath.join to n))
       else
         f <- os.path_isfile (posixpath.join directory n) ;;
         if f then
           if String.eqb (snd (posixpath.splitext (posixpath.join directory n))) ".py"
           then QCompilerPYC.compile_file self (posixpath.join directory n)
                  (posixpath.join to n)
           else QCompilerPYC.copy_file (posixpath.join directory n)
                  (posixpath.join to n)
         else ret tt) w
      = (Ok tt, set_stderr (set_root w r1) (stderr w ++ msgs)%list)
      /\ FS.modify pto (fun _ => (acc ++ items)%list) (root w) = Some r1).
    { unfold bind at 1. unfold os.path_isdir. rewrite Hstat.
      destruct c as [source|sub]; cbn [FS.is_dir written_name] in *.
      - unfold bind at 1. unfold os.path_isfile. rewrite Hstat. cbn [FS.is_file].
        rewrite (source_under directory n (resolve_nonempty _ _ _ Hrd) Hv).
        fold (is_source n). subst items msgs.
        destruct (is_source n) eqn:Esrc.
        + destruct (source_to_code (posixpath.join directory n) source opt)
            as [code|msg] eqn:Ecode.
          * destruct (compile_file_run self w (posixpath.join directory n) to n
                        source code pto acc Hcls Hrt Hv Hlt)
              as (r1 & Hrun & Hmod); [now rewrite Hnone|exact Hstat|exact Ecode|].
            exists r1. split; [now rewrite world_quiet|].
            now apply modify_appends.
          * exists (root w). split.
            -- rewrite set_root_root.
               apply (compile_file_rejected self w (posixpath.join directory n) to n
                        source msg pto acc Hcls Hrt Hv Hlt);
                 [now rewrite Hnone|exact Hstat|exact Ecode].
            -- now apply modify_same.
        + destruct (copy_file_run w (posixpath.join directory n) to n source pto acc
                      Hrt Hv Hlt)
            as (r1 & Hrun & Hmod); [now rewrite Hnone|exact Hstat|].
          exists r1. split; [now rewrite world_quiet|].
          now apply modify_appends.
      - subst items msgs.
        destruct (modify_spec pto (FS.set n (Dir [])) (root w) acc Hlt)
          as (r0 & Hm0 & _).
        destruct (Hrec self w (posixpath.join directory n) (posixpath.join to n)
                    (pdir ++ [n])%list (pto ++ [n])%list sub r0 Hcls)
          as (r1 & Hrun & Hmod).
        + exact (resolve_join w directory n pdir Hv Hrd).
        + exact (resolve_join w to n pto Hv Hrt).
        + now apply diverge_snoc.
        + now rewrite lookup_snoc, Hld.
        + exact Hwfc.
        + exact Hfc.
        + now rewrite lookup_snoc, Hlt.
        + now rewrite (mkdirs_child pto n (root w) acc Hlt Hnone).
        + exact Hhc.
        + exists r1. split; [exact Hrun|].
          rewrite (modify_child pto n _ [] (root w) r0 Hm0) in Hmod.
          now apply modify_appends. }
    destruct Hstep as (r1 & Hstep & Hmod1).
    assert (Hitems : forall k, k <> written_name n c -> FS.find k items = None).
    { intros k Hk. subst items. destruct c as [source|sub]; cbn [written_name] in Hk.
      - destruct (is_source n).
        + destruct (source_to_code _ _ _); [|reflexivity].
          cbn [FS.find]. apply String.eqb_neq in Hk. now rewrite Hk.
        + cbn [FS.find]. apply String.eqb_neq in Hk. now rewrite Hk.
      - cbn [FS.find]. apply String.eqb_neq in Hk. now rewrite Hk. }
    destruct (IH (acc ++ items)%list
                (set_stderr (set_root w r1) (stderr w ++ msgs)%list))
      as (r' & Hrun & Hmod); auto.
    + cbn [root set_stderr set_root].
      rewrite (modify_frame pto pdir _ _ _ (diverge_sym _ _ Hdiv) Hmod1). exact Hld.
    + intros m c' Hin. apply Hsub. now right.
    + cbn [root set_stderr set_root]. exact (modify_at pto _ _ _ acc Hlt Hmod1).
    + intros m c' Hin. rewrite find_app.
      rewrite (Hfresh m c') by now right.
      apply Hitems. intros E. apply Hclash. rewrite <- E.
      apply (in_map (fun e => written_name (fst e) (snd e)) rest (m, c') Hin).
    + exists r'. split.
      * cbn [map fst for_each].
        etransitivity; [exact (bind_ok _ _ _ _ _ Hstep)|].
        cbv beta. etransitivity; [exact Hrun|].
        cbn [complaints]. fold msgs.
        unfold set_stderr, set_root. cbn [root cwd stderr argv heap].
        now rewrite app_assoc.
      * cbn [root set_stderr set_root] in Hmod.
        rewrite (modify_modify pto _ _ _ _ Hmod1) in Hmod.
        rewrite <- Hmod. apply modify_ext. intros es.
        cbn [mirror]. fold items. now rewrite app_assoc.
Qed.

Lemma compile_directory_mirrors `{Collaborators} (fuel : nat) : mirrors fuel.
Proof.
  induction fuel as [|fuel IH];
    intros self w directory to pdir pto es r0 Hcls Hrd Hrt Hdiv Hld Hwf Hfree
      Hnone Hmk Hh.
  - cbn [FS.height] in Hh. lia.
  - pose proof (mkdirs_lookup pto _ _ Hmk (or_introl Hnone)) as Hl0.
    assert (Hld0 : FS.lookup pdir r0 = Some (Dir es)).
    { rewrite (mkdirs_frame pto pdir _ _ (diverge_sym _ _ Hdiv) Hmk). exact Hld. }
    destruct (mirror_loop fuel self directory to pdir pto es IH Hcls Hdiv es []
                (set_root w r0))
      as (r' & Hrun & Hmod); auto.
    + intros n c Hin. now apply find_in_wf.
    + exists r'. split; [|exact Hmod].
      cbn [QCompilerPYC.compile_directory].
      unfold bind at 1. unfold os.path_exists, os.stat. rewrite Hrt, Hnone.
      cbn [FS.is_some negb when]. unfold bind at 1. unfold os.makedirs.
      rewrite Hrt, Hnone, Hmk.
      unfold bind at 1. unfold os.listdir. rewrite (stat_at w r0 directory pdir Hrd), Hld0.
      exact Hrun.
Qed.

(** X16.  [compile_directory] into a destination that is not there yet
    and lies elsewhere creates it and fills it with the image of the source
    directory: a directory for each directory, the bytecode under
    [<stem>.pyc] for each [.py] file the compiler accepts, a copy of each
    other file, in the order of the source; the messages for the rejected
    sources go to the error stream in the order of the walk, and the call
    returns.  Nothing changes outside the destination. *)
Theorem compile_directory_mirrors_the_tree `{Collaborators} (fuel : nat)
  (self : QCompilerPYC.t) (w : world) (directory to : string)
  (pdir pto : FS.path) (es : FS.entries) :
  QCompilerPYC.cls self = QCompilerPYC.PYC ->
  os.resolve w directory = Some pdir ->
  os.resolve w to = Some pto ->
  diverge pdir pto ->
  FS.lookup pdir (root w) = Some (Dir es) ->
  FS.wf (Dir es) = true ->
  clash_free (Dir es) = true ->
  FS.lookup pto (root w) = None ->
  FS.is_some (FS.mkdirs pto (root w)) = true ->
  FS.height (Dir es) <= fuel ->
  exists r',
    QCompilerPYC.compile_directory fuel self directory (Some to) w
    = (Ok tt, set_stderr (set_root w r')
                (stderr w ++ complaints (QCompilerPYC.optimize self) directory (Dir es))%list)
    /\ FS.lookup pto r'
       = Some (Dir (mirror (QCompilerPYC.optimize self) directory (Dir es)))
    /\ forall q, diverge pto q -> FS.lookup q r' = FS.lookup q (root w).
Proof.
  intros Hcls Hrd Hrt Hdiv Hld Hwf Hfree Hnone Hmk Hh.
  destruct (FS.mkdirs pto (root w)) as [r0|] eqn:Emk; [|discriminate Hmk].
  destruct (compile_directory_mirrors fuel self w directory to pdir pto es r0)
    as (r' & Hrun & Hmod); auto.
  exists r'. split; [exact Hrun|]. split.
  - exact (modify_at pto (fun _ => mirror _ directory (Dir es)) r0 r' []
             (mkdirs_lookup pto _ _ Emk (or_introl Hnone)) Hmod).
  - intros q Hq. rewrite (modify_frame pto q _ _ _ Hq Hmod).
    exact (mkdirs_frame pto q _ _ Hq Emk).
Qed.

Lemma compile_directory_mirrors_the_tree_witness :
  exists r',
    @QCompilerPYC.compile_directory sample_tools 2 sample_pyc "proj" (Some "out")
      sample_world
    = (Ok tt, set_stderr (set_root sample_world r')
                (stderr sample_world
                 ++ @complaints sample_tools (QCompilerPYC.optimize sample_pyc) "proj"
                      (Dir sample_sources))%list)
    /\ FS.lookup ["out"] r'
       = Some (Dir (@mirror sample_tools (QCompilerPYC.optimize sample_pyc) "proj"
                      (Dir sample_sources)))
    /\ forall q, diverge ["out"] q -> FS.lookup q r' = FS.lookup q (root sample_world).
Proof.
  apply (@compile_directory_mirrors_the_tree sample_tools 2 sample_pyc sample_world
           "proj" "out" ["proj"] ["out"] sample_sources); try reflexivity.
  exists [], "proj", "out", [], []. repeat split. discriminate.
Defined.



(** ** The bytecode stage as a whole *)

Lemma mkdirs_two (par : FS.path) (o n : string) :
  forall (t : node) (e : FS.entries),
    FS.lookup par t = Some (Dir e) ->
    FS.find o e = None ->
    FS.mkdirs (par ++ [o; n])%list t
    = FS.modify par (FS.set o (Dir [(n, Dir [])])) t.
Proof.
  induction par as [|m q IH]; intros t e Hl Hf.
  - cbn in Hl. injection Hl as ->. cbn. now rewrite Hf.
  - destruct t as [d|es]; [discriminate|]. cbn [FS.lookup] in Hl.
    cbn [app FS.mkdirs FS.modify].
    destruct (FS.find m es) as [c|]; [|discriminate].
    now rewrite (IH c e Hl Hf).
Qed.

Lemma compile_directory_default `{Collaborators} (fuel : nat)
  (self : QCompilerPYC.t) (directory : string) :
  QCompilerPYC.compile_directory fuel self directory None
  = QCompilerPYC.compile_directory fuel self directory
      (Some (posixpath.join (QCompilerPYC.output self)
               (snd (posixpath.split (QCompilerPYC.path self))))).
Proof. now destruct fuel. Qed.

(** [QCompilerPYC.compile] with [clean] set, on a project directory and an
    output root [par/o] that is there, once the static checker has returned
    and taken the state [v] to [w]: the output root is taken out of its
    parent and put back with the image of the project in it. *)
Lemma pyc_compile_rebuilds `{Collaborators} (fuel : nat) (self : QCompilerPYC.t)
  (v w : world) (ppath par : FS.path) (o : string) (es eo epar : FS.entries) :
  check_project (QCompilerPYC.path self) v = (Ok tt, w) ->
  QCompilerPYC.cls self = QCompilerPYC.PYC ->
  QCompilerPYC.clean self = true ->
  os.resolve w (QCompilerPYC.path self) = Some ppath ->
  FS.lookup ppath (root w) = Some (Dir es) ->
  FS.wf (Dir es) = true ->
  clash_free (Dir es) = true ->
  FS.height (Dir es) <= fuel ->
  FS.valid_name (snd (posixpath.split (QCompilerPYC.path self))) = true ->
  os.resolve w (QCompilerPYC.output self) = Some (par ++ [o])%list ->
  FS.lookup par (root w) = Some (Dir epar) ->
  FS.find o epar = Some (Dir eo) ->
  FS.find o (FS.del o epar) = None ->
  FS.wf (Dir eo) = true ->
  FS.height (Dir eo) <= fuel ->
  diverge ppath (par ++ [o])%list ->
  exists r1 r',
    FS.modify par (FS.del o) (root w) = Some r1
    /\ FS.modify par
         (FS.set o (Dir [(snd (posixpath.split (QCompilerPYC.path self)),
                          Dir (mirror (QCompilerPYC.optimize self)
                                 (QCompilerPYC.path self) (Dir es)))])) r1
       = Some r'
    /\ QCompilerPYC.compile fuel self v
       = (Ok tt, set_stderr (set_root w r')
                   (stderr w ++ complaints (QCompilerPYC.optimize self)
                                  (QCompilerPYC.path self) (Dir es))%list).
Proof.
  intros Hcheck Hcls Hclean Hrp Hlp Hwfs Hfree Hhs Hname Hro Hlpar Hfo Hfo' Hwfo Hho
    Hdiv.
  set (name := snd (posixpath.split (QCompilerPYC.path self))) in *.
  set (opt := QCompilerPYC.optimize self).
  set (M := mirror opt (QCompilerPYC.path self) (Dir es)).
  assert (Hlo : FS.lookup (par ++ [o])%list (root w) = Some (Dir eo)).
  { now rewrite lookup_snoc, Hlpar. }
  destruct (clean_directory_removes fuel w (QCompilerPYC.output self) par o eo
              Hro Hlo Hwfo Hho) as (r1 & Hrem & Hclean_run).
  pose proof (modify_at par _ _ _ epar Hlpar Hrem) as Hlpar1.
  assert (Hrem' : FS.remove_entry (par ++ [o])%list (root w) = Some r1).
  { unfold FS.remove_entry. now rewrite unsnoc_snoc. }
  assert (Hlp1 : FS.lookup ppath r1 = Some (Dir es)).
  { rewrite (lookup_remove_diverge _ ppath _ _ (diverge_sym _ _ Hdiv) Hrem').
    exact Hlp. }
  destruct (modify_spec par (FS.set o (Dir [])) r1 _ Hlpar1) as (ra & Hra & _).
  destruct (modify_spec par (FS.set o (Dir [(name, Dir [])])) r1 _ Hlpar1)
    as (r0 & Hr0 & _).
  assert (Hmk : FS.mkdirs ((par ++ [o]) ++ [name])%list r1 = Some r0).
  { rewrite <- app_assoc. cbn [app].
    now rewrite (mkdirs_two par o name r1 _ Hlpar1 Hfo'). }
  assert (Hdiv' : diverge ppath ((par ++ [o]) ++ [name])%list).
  { apply diverge_sym, diverge_under, diverge_sym, Hdiv. }
  assert (Hgone : FS.lookup ((par ++ [o]) ++ [name])%list r1 = None).
  { now rewrite !lookup_snoc, Hlpar1, Hfo'. }
  destruct (compile_directory_mirrors fuel self (set_root w r1)
              (QCompilerPYC.path self)
              (posixpath.join (QCompilerPYC.output self) name)
              ppath ((par ++ [o]) ++ [name])%list es r0)
    as (r' & Hrun & Hmod); auto.
  { exact (resolve_join w _ name _ Hname Hro). }
  assert (Hfinal : FS.modify par (FS.set o (Dir [(name, Dir M)])) r1 = Some r').
  { change (FS.modify ((par ++ [o]) ++ [name])%list (fun _ => M) r0 = Some r')
      in Hmod.
    rewrite <- Hmod.
    assert (Hr0' : FS.modify (par ++ [o])%list (FS.set name (Dir [])) ra = Some r0).
    { rewrite (modify_child par o (FS.set name (Dir [])) [] r1 ra Hra). exact Hr0. }
    rewrite (modify_child (par ++ [o])%list name (fun _ => M) [] ra r0 Hr0').
    now rewrite (modify_child par o (FS.set name (Dir M)) [] r1 ra Hra). }
  exists r1, r'. split; [exact Hrem|]. split; [exact Hfinal|].
  unfold QCompilerPYC.compile.
  rewrite (bind_ok _ _ _ _ _ Hcheck).
  unfold bind at 1. unfold os.path_exists, os.stat. rewrite Hrp, Hlp.
  cbn [FS.is_some negb when]. unfold bind at 1. unfold ret at 1.
  rewrite Hclean. cbn [when]. unfold bind at 1. rewrite Hclean_run.
  unfold bind at 1. unfold os.path_isdir.
  rewrite (stat_at w r1 _ ppath Hrp), Hlp1. cbn [FS.is_dir when].
  unfold bind at 1. rewrite compile_directory_default. fold name.
  rewrite Hrun.
  unfold bind at 1. unfold os.path_isfile, os.stat.
  change (os.resolve _ (QCompilerPYC.path self))
    with (os.resolve w (QCompilerPYC.path self)).
  rewrite Hrp. cbn [root set_stderr set_root].
  rewrite (set_frame par ppath o _ _ _ (diverge_sym _ _ Hdiv) Hfinal), Hlp1.
  cbn [FS.is_file andb when]. reflexivity.
Qed.

(** X18.  With [clean] set, [QCompilerPYC.compile] on a project directory
    rebuilds the output root from nothing.  In a well-formed filesystem of
    regular files and directories, with a recursion budget above its
    depth, when the static checker returns, the project is a directory
    whose sources compile to distinct names and the output root is a
    directory apart from it, both named without [..]: [compile] returns;
    what the output root held is gone, and it holds one directory, named
    after the project, with the image of the project in it; the messages
    for the rejected sources are added to the error stream; nothing else
    changes in what the checker left outside the output root. *)
Theorem pyc_compile_rebuilds_the_output `{Collaborators} (fuel : nat)
  (self : QCompilerPYC.t) (v w : world) (ppath pout : FS.path)
  (es eo : FS.entries) :
  check_project (QCompilerPYC.path self) v = (Ok tt, w) ->
  QCompilerPYC.cls self = QCompilerPYC.PYC ->
  QCompilerPYC.clean self = true ->
  FS.wf (root w) = true ->
  FS.height (root w) < fuel ->
  dotless (QCompilerPYC.path self) = true ->
  os.resolve w (QCompilerPYC.path self) = Some ppath ->
  FS.lookup ppath (root w) = Some (Dir es) ->
  clash_free (Dir es) = true ->
  FS.valid_name (snd (posixpath.split (QCompilerPYC.path self))) = true ->
  dotless (QCompilerPYC.output self) = true ->
  os.resolve w (QCompilerPYC.output self) = Some pout ->
  pout <> [] ->
  FS.lookup pout (root w) = Some (Dir eo) ->
  diverge ppath pout ->
  exists r',
    QCompilerPYC.compile fuel self v
    = (Ok tt, set_stderr (set_root w r')
                (stderr w ++ complaints (QCompilerPYC.optimize self)
                               (QCompilerPYC.path self) (Dir es))%list)
    /\ FS.lookup pout r'
       = Some (Dir [(snd (posixpath.split (QCompilerPYC.path self)),
                     Dir (mirror (QCompilerPYC.optimize self)
                            (QCompilerPYC.path self) (Dir es)))])
    /\ forall q, diverge pout q -> FS.lookup q r' = FS.lookup q (root w).
Proof.
  intros Hcheck Hcls Hclean Hwf Hfuel _ Hrp Hlp Hfree Hname _ Hro Hne Hlo Hdiv.
  destruct (unsnoc_some pout Hne) as (par & o & ->).
  pose proof Hlo as Hlo'. rewrite lookup_snoc in Hlo'.
  destruct (FS.lookup par (root w)) as [[d|epar]|] eqn:Hlpar; try discriminate.
  pose proof (height_lookup _ _ _ Hlp) as Hh1.
  pose proof (height_lookup _ _ _ Hlo) as Hh2.
  destruct (pyc_compile_rebuilds fuel self v w ppath par o es eo epar)
    as (r1 & r' & Hrem & Hfinal & Hrun); auto; try lia.
  { exact (wf_lookup _ _ _ Hwf Hlp). }
  { apply find_del_same. exact (wf_lookup _ _ _ Hwf Hlpar). }
  { exact (wf_lookup _ _ _ Hwf Hlo). }
  exists r'. split; [exact Hrun|]. split.
  - rewrite lookup_snoc.
    rewrite (modify_at par _ _ _ _ (modify_at par _ _ _ epar Hlpar Hrem) Hfinal).
    now rewrite find_set_same.
  - intros q Hq. rewrite (set_frame par q o _ _ _ Hq Hfinal).
    apply (lookup_remove_diverge (par ++ [o])%list q _ _ Hq).
    unfold FS.remove_entry. now rewrite unsnoc_snoc.
Qed.

Lemma pyc_compile_rebuilds_the_output_witness :
  exists r',
    @QCompilerPYC.compile sample_tools 5 sample_pyc sample_world
    = (Ok tt, set_stderr (set_root sample_world r')
                (stderr sample_world
                 ++ @complaints sample_tools (QCompilerPYC.optimize sample_pyc)
                      (QCompilerPYC.path sample_pyc) (Dir sample_sources))%list)
    /\ FS.lookup ["bin"; "pyc"] r'
       = Some (Dir [(snd (posixpath.split (QCompilerPYC.path sample_pyc)),
                     Dir (@mirror sample_tools (QCompilerPYC.optimize sample_pyc)
                            (QCompilerPYC.path sample_pyc) (Dir sample_sources)))])
    /\ forall q, diverge ["bin"; "pyc"] q ->
                 FS.lookup q r' = FS.lookup q (root sample_world).
Proof.
  apply (@pyc_compile_rebuilds_the_output sample_tools 5 sample_pyc sample_world
           sample_world ["proj"] ["bin"; "pyc"] sample_sources
           [("old", Dir [("x.pyc", File "old")])]); try reflexivity.
  - vm_compute. lia.
  - discriminate.
  - exists [], "proj", "bin", [], ["pyc"]. repeat split. discriminate.
Defined.

(** ** The files beside the archive *)

Lemma endswith_under (b n p : string) :
  Str.contains Str.slash p = false ->
  Str.endswith (b ++ String Str.slash n) p = Str.endswith n p.
Proof.
  intros Hp.
  assert (Hne : forall x, String.eqb (x ++ String Str.slash n) p = false).
  { intros x. apply String.eqb_neq. intros E. rewrite <- E, contains_app in Hp.
    cbn [Str.contains] in Hp. rewrite Ascii.eqb_refl in Hp.
    cbn [orb] in Hp. rewrite orb_true_r in Hp. discriminate. }
  induction b as [|x b IH].
  - pose proof (Hne "") as H0. cbn [append] in H0 |- *.
    destruct n; cbn [Str.endswith]; now rewrite H0.
  - pose proof (Hne (String x b)) as H0. cbn [append] in H0 |- *.
    rewrite <- IH.
    destruct (b ++ String Str.slash n) eqn:E; cbn [Str.endswith]; now rewrite H0.
Qed.

Lemma is_python_under (a n : string) :
  a <> "" -> FS.valid_name n = true ->
  negb (Str.endswith (posixpath.join a n) ".py")
  && negb (Str.endswith (posixpath.join a n) ".pyc")
  && negb (Str.endswith (posixpath.join a n) ".pyd")
  && negb (Str.endswith (posixpath.join a n) ".pyo")
  = negb (is_python n).
Proof.
  intros Ha Hn. destruct (join_base a Ha) as (b & _ & Hb). rewrite (Hb n Hn).
  rewrite !endswith_under by reflexivity. unfold is_python.
  now rewrite !negb_orb.
Qed.

(** The loop of [copy_additional_files] over the entries [rest] of the
    source, once the destination holds [acc]. *)
Lemma additional_loop (fuel : nat) (src dst : string) (psrc pdst : FS.path)
  (es_all : FS.entries) :
  copies fuel ->
  diverge psrc pdst ->
  forall (rest acc : FS.entries) (w : world),
    os.resolve w src = Some psrc ->
    os.resolve w dst = Some pdst ->
    FS.lookup psrc (root w) = Some (Dir es_all) ->
    (forall n c, In (n, c) rest -> FS.find n es_all = Some c) ->
    FS.wf (Dir rest) = true ->
    FS.lookup pdst (root w) = Some (Dir acc) ->
    (forall n c, In (n, c) rest -> FS.find n acc = None) ->
    FS.height (Dir rest) < S fuel ->
    exists r',
      for_each (map fst rest) (fun item =>
        let s_path := posixpath.join src item in
        let d_path := posixpath.join dst item in
        QCompilerPYZ.copy_additional_files fuel s_path d_path) w
      = (Ok tt, set_root w r')
      /\ FS.modify pdst (fun _ => (acc ++ additional (Dir rest))%list) (root w)
         = Some r'.
Proof.
  intros Hrec Hdiv.
  induction rest as [|[n c] rest IH];
    intros acc w Hrs Hrd Hls Hsub Hwf Hld Hfresh Hh.
  - exists (root w). cbn [map for_each additional]. split.
    + unfold ret. now rewrite set_root_root.
    + now apply modify_same.
  - pose proof Hwf as Hwf'. apply wf_cons in Hwf' as (Hv & Hnew & Hwfc & Hwfr).
    assert (Hhc : FS.height c < fuel /\ FS.height (Dir rest) < S fuel).
    { rewrite height_cons in Hh. cbn [FS.height] in *. lia. }
    destruct Hhc as (Hhc & Hhr).
    assert (Hc : FS.find n es_all = Some c) by (apply Hsub; now left).
    assert (Hstat : os.stat w (posixpath.join src n) = Some c).
    { now rewrite (stat_child w src n psrc es_all Hrs Hv Hls). }
    assert (Hnone : FS.find n acc = None) by (apply (Hfresh n c); now left).
    set (items :=
           match c with
           | Dir _ => [(n, Dir (additional c))]
           | File data => if is_python n then [] else [(n, File data)]
           end).
    assert (Hstep : exists r1,
      QCompilerPYZ.copy_additional_files fuel (posixpath.join src n)
        (posixpath.join dst n) w = (Ok tt, set_root w r1)
      /\ FS.modify pdst (fun _ => (acc ++ items)%list) (root w) = Some r1).
    { destruct c as [data|sub]; subst items.
      - destruct fuel as [|fuel']; [lia|].
        cbn [QCompilerPYZ.copy_additional_files].
        unfold bind at 1. unfold os.path_isdir. rewrite Hstat. cbn [FS.is_dir].
        rewrite (is_python_under src n (resolve_nonempty _ _ _ Hrs) Hv).
        destruct (is_python n); cbn [negb when].
        + exists (root w). split; [unfold ret; now rewrite set_root_root|].
          now apply modify_same.
        + destruct (copy_file_run w (posixpath.join src n) dst n data pdst acc
                      Hrd Hv Hld)
            as (r1 & Hrun & Hmod); [now rewrite Hnone|exact Hstat|].
          exists r1. split; [exact Hrun|]. now apply modify_appends.
      - destruct (modify_spec pdst (FS.set n (Dir [])) (root w) acc Hld)
          as (r0 & Hm0 & _).
        destruct (Hrec w (posixpath.join src n) (posixpath.join dst n)
                    (psrc ++ [n])%list (pdst ++ [n])%list sub r0)
          as (r1 & Hrun & Hmod).
        + exact (resolve_join w src n psrc Hv Hrs).
        + exact (resolve_join w dst n pdst Hv Hrd).
        + now apply diverge_snoc.
        + now rewrite lookup_snoc, Hls.
        + exact Hwfc.
        + now rewrite lookup_snoc, Hld.
        + now rewrite (mkdirs_child pdst n (root w) acc Hld Hnone).
        + exact Hhc.
        + exists r1. split; [exact Hrun|].
          rewrite (modify_child pdst n _ [] (root w) r0 Hm0) in Hmod.
          now apply modify_appends. }
    destruct Hstep as (r1 & Hstep & Hmod1).
    assert (Hitems : forall k, k <> n -> FS.find k items = None).
    { intros k Hk. apply String.eqb_neq in Hk. subst items.
      destruct c as [data|sub]; [destruct (is_python n); [reflexivity|]|];
        cbn [FS.find]; now rewrite Hk. }
    destruct (IH (acc ++ items)%list (set_root w r1)) as (r' & Hrun & Hmod); auto.
    + cbn [root set_root].
      rewrite (modify_frame pdst psrc _ _ _ (diverge_sym _ _ Hdiv) Hmod1). exact Hls.
    + intros m c' Hin. apply Hsub. now right.
    + cbn [root set_root]. exact (modify_at pdst _ _ _ acc Hld Hmod1).
    + intros m c' Hin. rewrite find_app.
      rewrite (Hfresh m c') by now right.
      apply Hitems. intros ->.
      rewrite (find_in_wf n c' rest Hwfr Hin) in Hnew. discriminate.
    + exists r'. split.
      * cbn [map fst for_each].
        etransitivity; [exact (bind_ok _ _ _ _ _ Hstep)|].
        cbv beta. etransitivity; [exact Hrun|]. reflexivity.
      * cbn [root set_root] in Hmod.
        rewrite (modify_modify pdst _ _ _ _ Hmod1) in Hmod.
        rewrite <- Hmod. apply modify_ext. intros es.
        cbn [additional]. fold items. now rewrite app_assoc.
Qed.

Lemma copy_additional_files_copies (fuel : nat) : copies fuel.
Proof.
  induction fuel as [|fuel IH];
    intros w src dst psrc pdst es r0 Hrs Hrd Hdiv Hls Hwf Hnone Hmk Hh; [lia|].
  pose proof (mkdirs_lookup pdst _ _ Hmk (or_introl Hnone)) as Hl0.
  assert (Hls0 : FS.lookup psrc r0 = Some (Dir es)).
  { rewrite (mkdirs_frame pdst psrc _ _ (diverge_sym _ _ Hdiv) Hmk). exact Hls. }
  destruct (additional_loop fuel src dst psrc pdst es IH Hdiv es [] (set_root w r0))
    as (r' & Hrun & Hmod); auto.
  - intros n c Hin. now apply find_in_wf.
  - exists r'. split; [|exact Hmod].
    cbn [QCompilerPYZ.copy_additional_files].
    unfold bind at 1. unfold os.path_isdir, os.stat. rewrite Hrs, Hls.
    cbn [FS.is_dir].
    unfold bind at 1. unfold os.path_exists, os.stat. rewrite Hrs, Hls.
    cbn [FS.is_some negb when]. unfold bind at 1. unfold ret at 1.
    unfold bind at 1. unfold os.path_exists, os.stat. rewrite Hrd, Hnone.
    cbn [FS.is_some negb when]. unfold bind at 1. unfold os.makedirs.
    rewrite Hrd, Hnone, Hmk.
    unfold bind at 1. unfold os.listdir. rewrite (stat_at w r0 src psrc Hrs), Hls0.
    exact Hrun.
Qed.

(** [copy_additional_files] into a directory that is there and holds
    none of the names of the source. *)
Lemma copy_additional_files_run (fuel : nat) (w : world) (src dst : string)
  (psrc pdst : FS.path) (es acc : FS.entries) :
  os.resolve w src = Some psrc ->
  os.resolve w dst = Some pdst ->
  diverge psrc pdst ->
  FS.lookup psrc (root w) = Some (Dir es) ->
  FS.wf (Dir es) = true ->
  FS.lookup pdst (root w) = Some (Dir acc) ->
  (forall n c, In (n, c) es -> FS.find n acc = None) ->
  FS.height (Dir es) < fuel ->
  exists r',
    QCompilerPYZ.copy_additional_files fuel src dst w = (Ok tt, set_root w r')
    /\ FS.modify pdst (fun _ => (acc ++ additional (Dir es))%list) (root w) = Some r'.
Proof.
  intros Hrs Hrd Hdiv Hls Hwf Hld Hfresh Hh.
  destruct fuel as [|fuel]; [lia|].
  destruct (additional_loop fuel src dst psrc pdst es
              (copy_additional_files_copies fuel) Hdiv es acc w)
    as (r' & Hrun & Hmod); auto.
  - intros n c Hin. now apply find_in_wf.
  - exists r'. split; [|exact Hmod].
    cbn [QCompilerPYZ.copy_additional_files].
    unfold bind at 1. unfold os.path_isdir, os.stat. rewrite Hrs, Hls.
    cbn [FS.is_dir].
    unfold bind at 1. unfold os.path_exists, os.stat. rewrite Hrs, Hls.
    cbn [FS.is_some negb when]. unfold bind at 1. unfold ret at 1.
    unfold bind at 1. unfold os.path_exists, os.stat. rewrite Hrd, Hld.
    cbn [FS.is_some negb when]. unfold bind at 1. unfold ret at 1.
    unfold bind at 1. unfold os.listdir, os.stat. rewrite Hrs, Hls.
    exact Hrun.
Qed.

(** X19.  [copy_additional_files] from a directory into an existing one
    that lies elsewhere and holds none of its names adds, after what the
    destination holds, the directories of the source and its files other
    than [.py], [.pyc], [.pyd] and [.pyo] files, the same way at every
    depth and in the order of the source; an empty directory is carried
    over too.  Nothing changes outside the destination. *)
Theorem copy_additional_files_adds_the_other_files (fuel : nat) (w : world)
  (src dst : string) (psrc pdst : FS.path) (es acc : FS.entries) :
  os.resolve w src = Some psrc ->
  os.resolve w dst = Some pdst ->
  diverge psrc pdst ->
  FS.lookup psrc (root w) = Some (Dir es) ->
  FS.wf (Dir es) = true ->
  FS.lookup pdst (root w) = Some (Dir acc) ->
  (forall n c, In (n, c) es -> FS.find n acc = None) ->
  FS.height (Dir es) < fuel ->
  exists r',
    QCompilerPYZ.copy_additional_files fuel src dst w = (Ok tt, set_root w r')
    /\ FS.lookup pdst r' = Some (Dir (acc ++ additional (Dir es))%list)
    /\ forall q, diverge pdst q -> FS.lookup q r' = FS.lookup q (root w).
Proof.
  intros Hrs Hrd Hdiv Hls Hwf Hld Hfresh Hh.
  destruct (copy_additional_files_run fuel w src dst psrc pdst es acc
              Hrs Hrd Hdiv Hls Hwf Hld Hfresh Hh) as (r' & Hrun & Hmod).
  exists r'. split; [exact Hrun|]. split.
  - exact (modify_at pdst _ _ _ acc Hld Hmod).
  - intros q Hq. exact (modify_frame pdst q _ _ _ Hq Hmod).
Qed.

Lemma copy_additional_files_adds_the_other_files_witness :
  exists r',
    QCompilerPYZ.copy_additional_files 3 "proj" "bin/pyc/" sample_world
    = (Ok tt, set_root sample_world r')
    /\ FS.lookup ["bin"; "pyc"] r'
       = Some (Dir ([("old", Dir [("x.pyc", File "old")])]
                    ++ additional (Dir sample_sources))%list)
    /\ forall q, diverge ["bin"; "pyc"] q ->
                 FS.lookup q r' = FS.lookup q (root sample_world).
Proof.
  apply (copy_additional_files_adds_the_other_files 3 sample_world "proj" "bin/pyc/"
           ["proj"] ["bin"; "pyc"] sample_sources
           [("old", Dir [("x.pyc", File "old")])]); try reflexivity.
  - exists [], "proj", "bin", [], ["pyc"]. repeat split. discriminate.
  - intros n c [E|[E|[E|[E|[]]]]]; injection E as <- <-; reflexivity.
  - vm_compute. lia.
Defined.

(** ** The archive *)

Lemma join_literal (a n : string) :
  Str.endswith a "/" = true -> FS.valid_name n = true ->
  posixpath.join a n = a ++ n.
Proof.
  intros Ha Hn. destruct (valid_name_spec n Hn) as (Hn0 & Hs & _ & _).
  unfold posixpath.join.
  assert (Hst : Str.startswith n "/" = false).
  { destruct n as [|x n]; [congruence|].
    cbn [Str.contains] in Hs. cbn [Str.startswith]. unfold Str.slash in Hs.
    apply orb_false_iff in Hs as [Hx _]. now rewrite Hx. }
  now rewrite Hst, Ha, orb_true_r.
Qed.

(** What is there stays there when a name that is not a directory is
    written as a file. *)
Lemma lookup_after_write (p : FS.path) (n d : string) :
  forall (q : FS.path) (t t' x : node),
    FS.lookup q t = Some x ->
    FS.modify p (FS.set n (File d)) t = Some t' ->
    FS.is_dir (FS.lookup (p ++ [n])%list t) = false ->
    exists x', FS.lookup q t' = Some x'.
Proof.
  induction p as [|a p IH]; intros q t t' x Hq Hm Hd.
  - destruct t as [d0|es]; [discriminate|]. cbn [FS.modify] in Hm.
    injection Hm as <-. destruct q as [|m q]; [cbn; eauto|].
    cbn [app FS.lookup] in Hq, Hd |- *.
    destruct (String.eqb n m) eqn:E.
    + apply String.eqb_eq in E. subst m. rewrite find_set_same.
      destruct (FS.find n es) as [[d1|e1]|]; try discriminate.
      destruct q; [cbn; eauto|discriminate].
    + apply String.eqb_neq in E. rewrite (find_set_other n m) by exact E.
      destruct (FS.find m es); [eauto|discriminate].
  - destruct t as [d0|es]; [discriminate|]. cbn [app FS.modify FS.lookup] in Hm, Hd.
    destruct (FS.find a es) as [c|] eqn:Ea; [|discriminate].
    destruct (FS.modify p (FS.set n (File d)) c) as [c'|] eqn:Ec; [|discriminate].
    injection Hm as <-. destruct q as [|m q]; [cbn; eauto|].
    cbn [FS.lookup] in Hq |- *.
    destruct (String.eqb a m) eqn:E.
    + apply String.eqb_eq in E. subst m. rewrite find_set_same. rewrite Ea in Hq.
      exact (IH q c c' x Hq Ec Hd).
    + apply String.eqb_neq in E. rewrite (find_set_other a m) by exact E.
      destruct (FS.find m es); [eauto|discriminate].
Qed.

(** [create_archive] of a source the archive writer accepts, into a
    directory that is there: the target is emptied, the source is read
    and the archive of what it holds then is written. *)
Lemma create_archive_run `{Collaborators} (self : QCompilerPYZ.t) (w : world)
  (source to n : string) (tree : node) (psrc pto : FS.path) (acc : FS.entries) :
  os.resolve w (QCompilerPYZ.pathlib_path source) = Some psrc ->
  FS.lookup psrc (root w) = Some tree ->
  zipapp_refuses tree (QCompilerPYZ.mainClass self) = None ->
  os.resolve w to = Some pto ->
  Str.endswith to "/" = true ->
  FS.valid_name n = true ->
  FS.lookup pto (root w) = Some (Dir acc) ->
  FS.is_dir (FS.find n acc) = false ->
  exists r0 tree1 r',
    FS.modify pto (FS.set n (File "")) (root w) = Some r0
    /\ FS.lookup psrc r0 = Some tree1
    /\ QCompilerPYZ.create_archive self source (to ++ n) w = (Ok tt, set_root w r')
    /\ FS.modify pto
         (FS.set n (File (zipapp_archive tree1 (QCompilerPYZ.compressed self)
                            (QCompilerPYZ.mainClass self))))
         (root w)
       = Some r'.
Proof.
  intros Hrs Hls Hzip Hres Hend Hn Hl Hd.
  destruct (write_file_run w to n "" pto acc Hres Hn Hl Hd) as (r0 & Hrun0 & Hmod0).
  assert (Hd0 : FS.is_dir (FS.lookup (pto ++ [n])%list (root w)) = false).
  { now rewrite lookup_snoc, Hl. }
  destruct (lookup_after_write pto n "" psrc (root w) r0 tree Hls Hmod0 Hd0)
    as (tree1 & Hl1).
  pose proof (modify_at pto _ _ _ acc Hl Hmod0) as Hl0.
  set (archive := zipapp_archive tree1 (QCompilerPYZ.compressed self)
                    (QCompilerPYZ.mainClass self)).
  destruct (write_file_run (set_root w r0) to n archive pto
              (FS.set n (File "") acc) Hres Hn Hl0) as (r' & Hrun1 & Hmod1).
  { now rewrite find_set_same. }
  cbn [root set_root] in Hmod1. rewrite set_root_twice in Hrun1.
  rewrite (modify_modify pto _ _ _ _ Hmod0) in Hmod1.
  rewrite (modify_ext pto _ (FS.set n (File archive))) in Hmod1
    by (intros es; apply set_set).
  exists r0, tree1, r'. split; [exact Hmod0|]. split; [exact Hl1|].
  split; [|exact Hmod1].
  rewrite <- (join_literal to n Hend Hn).
  unfold QCompilerPYZ.create_archive, os.stat at 1. rewrite Hrs, Hls, Hzip.
  unfold bind. rewrite Hrun0. unfold os.stat.
  change (os.resolve (set_root w r0)) with (os.resolve w). rewrite Hrs.
  cbn [root set_root]. rewrite Hl1. exact Hrun1.
Qed.

(** X20.  Without an inner compiler, [QCompilerPYZ.compile] archives the
    project as it stands.  When the static checker returns, [bin/pyz/] is
    there, the name of the archive is not that of a directory in it, the
    project path (its trailing separators dropped), written without [..],
    names a directory and the archive writer accepts what it holds and
    the main class, [compile] returns, and [bin/pyz/<name>] is a file
    with the archive of what the project path holds once that file has
    been created or emptied (of the project as the checker left it, when
    it lies apart from [bin/pyz]), made with the main class and the
    compression flag; the other entries of [bin/pyz] and the paths
    elsewhere are as the checker left them. *)
Theorem pyz_compile_writes_the_archive `{Collaborators} (fuel : nat)
  (self : QCompilerPYZ.t) (v w : world) (pb psrc : FS.path)
  (accb es : FS.entries) :
  check_project (QCompilerPYZ.path self) v = (Ok tt, w) ->
  QCompilerPYZ.compiler self = None ->
  os.resolve w "bin/pyz/" = Some pb ->
  FS.lookup pb (root w) = Some (Dir accb) ->
  FS.valid_name (QCompilerPYZ.name self) = true ->
  FS.is_dir (FS.find (QCompilerPYZ.name self) accb) = false ->
  dotless (Str.replace Str.backslash Str.slash (QCompilerPYZ.path self)) = true ->
  os.resolve w
    (QCompilerPYZ.pathlib_path
       (Str.rstrip Str.slash
          (Str.replace Str.backslash Str.slash (QCompilerPYZ.path self))))
  = Some psrc ->
  FS.lookup psrc (root w) = Some (Dir es) ->
  zipapp_refuses (Dir es) (QCompilerPYZ.mainClass self) = None ->
  exists r0 tree1 r',
    FS.modify pb (FS.set (QCompilerPYZ.name self) (File "")) (root w) = Some r0
    /\ FS.lookup psrc r0 = Some tree1
    /\ (diverge pb psrc -> tree1 = Dir es)
    /\ QCompilerPYZ.compile fuel self v = (Ok tt, set_root w r')
    /\ FS.lookup (pb ++ [QCompilerPYZ.name self])%list r'
       = Some (File (zipapp_archive tree1 (QCompilerPYZ.compressed self)
                       (QCompilerPYZ.mainClass self)))
    /\ (forall m, m <> QCompilerPYZ.name self ->
                  FS.lookup (pb ++ [m])%list r' = FS.lookup (pb ++ [m])%list (root w))
    /\ (forall q, diverge pb q -> FS.lookup q r' = FS.lookup q (root w)).
Proof.
  intros Hcheck Hnone Hrb Hlb Hn Hd _ Hrs Hls Hzip.
  destruct (create_archive_run self w _ "bin/pyz/" (QCompilerPYZ.name self)
              (Dir es) psrc pb accb Hrs Hls Hzip Hrb eq_refl Hn Hlb Hd)
    as (r0 & tree1 & r' & Hmod0 & Hl1 & Hrun & Hmod).
  pose proof (modify_at pb _ _ _ accb Hlb Hmod) as Hl'.
  exists r0, tree1, r'.
  split; [exact Hmod0|]. split; [exact Hl1|]. split; [|split; [|split; [|split]]].
  - intros Hdiv. rewrite (modify_frame pb psrc _ _ _ Hdiv Hmod0) in Hl1. congruence.
  - unfold QCompilerPYZ.compile.
    rewrite (bind_ok _ _ _ _ _ Hcheck).
    unfold bind at 1. unfold os.path_exists, os.stat. rewrite Hrb, Hlb.
    cbn [FS.is_some negb when]. unfold bind at 1. unfold ret at 1.
    rewrite Hnone. exact Hrun.
  - now rewrite lookup_snoc, Hl', find_set_same.
  - intros m Hm. rewrite !lookup_snoc, Hl', Hlb. apply find_set_other. congruence.
  - intros q Hq. exact (modify_frame pb q _ _ _ Hq Hmod).
Qed.

Lemma pyz_compile_writes_the_archive_witness :
  exists r0 tree1 r',
    FS.modify ["bin"; "pyz"] (FS.set "app.pyz" (File "")) (root pyz_staged_world)
    = Some r0
    /\ FS.lookup ["proj"] r0 = Some tree1
    /\ (diverge ["bin"; "pyz"] ["proj"] -> tree1 = Dir sample_sources)
    /\ @QCompilerPYZ.compile sample_tools 1
         (QCompilerPYZ.init "proj/" "app.pyz" "__init__:main" true None true)
         pyz_staged_world
       = (Ok tt, set_root pyz_staged_world r')
    /\ FS.lookup (["bin"; "pyz"] ++ ["app.pyz"])%list r'
       = Some (File (@zipapp_archive sample_tools tree1 true "__init__:main"))
    /\ (forall m, m <> "app.pyz" ->
                  FS.lookup (["bin"; "pyz"] ++ [m])%list r'
                  = FS.lookup (["bin"; "pyz"] ++ [m])%list (root pyz_staged_world))
    /\ (forall q, diverge ["bin"; "pyz"] q ->
                  FS.lookup q r' = FS.lookup q (root pyz_staged_world)).
Proof.
  apply (@pyz_compile_writes_the_archive sample_tools 1
           (QCompilerPYZ.init "proj/" "app.pyz" "__init__:main" true None true)
           pyz_staged_world pyz_staged_world ["bin"; "pyz"] ["proj"] []
           sample_sources);
    reflexivity.
Defined.

(** ** The archive stage as a whole *)

Lemma mkdirs_empty (names : FS.path) : FS.mkdirs names (Dir []) = Some (chain names).
Proof.
  induction names as [|n rest IH]; [reflexivity|].
  cbn [FS.mkdirs FS.find chain]. now rewrite IH.
Qed.

Lemma mkdirs_fresh (par : FS.path) (o : string) (rest : FS.path) :
  forall (t : node) (e : FS.entries),
    FS.lookup par t = Some (Dir e) ->
    FS.find o e = None ->
    FS.mkdirs (par ++ o :: rest)%list t = FS.modify par (FS.set o (chain rest)) t.
Proof.
  induction par as [|m q IH]; intros t e Hl Hf.
  - cbn in Hl. injection Hl as ->. cbn [app FS.mkdirs FS.modify].
    now rewrite Hf, mkdirs_empty.
  - destruct t as [d|es]; [discriminate|]. cbn [FS.lookup] in Hl.
    cbn [app FS.mkdirs FS.modify].
    destruct (FS.find m es) as [c|]; [|discriminate].
    now rewrite (IH c e Hl Hf).
Qed.

(** An entry taken out of its directory and put back. *)
Lemma rebuild_frame (par q : FS.path) (o : string) (v : node) (t t1 t' : node) :
  FS.modify par (FS.del o) t = Some t1 ->
  FS.modify par (FS.set o v) t1 = Some t' ->
  diverge (par ++ [o])%list q ->
  FS.lookup q t' = FS.lookup q t.
Proof.
  intros Hdel Hset Hq. rewrite (set_frame par q o _ _ _ Hq Hset).
  apply (lookup_remove_diverge (par ++ [o])%list q _ _ Hq).
  unfold FS.remove_entry. now rewrite unsnoc_snoc.
Qed.

Lemma rebuild_at (par : FS.path) (o : string) (v : node) (t t1 t' : node) :
  FS.modify par (FS.del o) t = Some t1 ->
  FS.modify par (FS.set o v) t1 = Some t' ->
  FS.lookup (par ++ [o])%list t' = Some v.
Proof.
  intros Hdel Hset. destruct (modify_some _ _ _ _ Hset) as (e & Hl).
  now rewrite lookup_snoc, (modify_at par _ _ _ e Hl Hset), find_set_same.
Qed.

(** X21.  The whole archive stage with a [QCompilerPYC] as inner
    compiler, [clean] set, for the same project path, in a well-formed
    filesystem of regular files and directories with a recursion budget
    above its depth.  With a static checker that returns and leaves the
    state as it is, [bin/pyz/] and [obj/pyz/] there, the project (a
    directory named without [..] whose sources compile to distinct names),
    [bin/pyz] and
    [obj/pyz] apart from each other, no entry of the project named as an
    entry of [bin/pyz] or as the archive, and an archive writer that
    accepts the image of the project and the main class:
    [QCompilerPYZ.compile] returns; [bin/pyz] holds what it held, the
    archive made from that image (and not from the sources) under its
    name, and the directories of the project with its files other than
    Python sources and bytecode; the image itself is left under
    [obj/pyz/bin/pyc]; the messages for the rejected sources are added to
    the error stream; nothing changes elsewhere.  The value the method
    gives to the [output] of the inner compiler is used for the run and is
    not part of the state. *)
Theorem pyz_compile_builds_the_archive `{Collaborators} (fuel : nat)
  (self : QCompilerPYZ.t) (c : QCompilerPYC.t) (w : world)
  (pp pb po : FS.path) (es accb eo : FS.entries) :
  (forall u, check_project (QCompilerPYZ.path self) u = (Ok tt, u)) ->
  QCompilerPYZ.compiler self = Some (QCompilerPYZ.Instance c) ->
  QCompilerPYC.cls c = QCompilerPYC.PYC ->
  QCompilerPYC.clean c = true ->
  QCompilerPYC.path c = QCompilerPYZ.path self ->
  FS.wf (root w) = true ->
  FS.height (root w) < fuel ->
  dotless (QCompilerPYZ.path self) = true ->
  os.resolve w (QCompilerPYZ.path self) = Some pp ->
  FS.lookup pp (root w) = Some (Dir es) ->
  clash_free (Dir es) = true ->
  FS.valid_name (snd (posixpath.split (QCompilerPYZ.path self))) = true ->
  os.resolve w "bin/pyz/" = Some pb ->
  FS.lookup pb (root w) = Some (Dir accb) ->
  os.resolve w "obj/pyz/" = Some po ->
  po <> [] ->
  FS.lookup po (root w) = Some (Dir eo) ->
  diverge pp pb ->
  diverge pp po ->
  diverge po pb ->
  FS.valid_name (QCompilerPYZ.name self) = true ->
  FS.is_dir (FS.find (QCompilerPYZ.name self) accb) = false ->
  (forall n c', In (n, c') es ->
                FS.find n accb = None /\ n <> QCompilerPYZ.name self) ->
  zipapp_refuses
    (Dir (mirror (QCompilerPYC.optimize c) (QCompilerPYZ.path self) (Dir es)))
    (QCompilerPYZ.mainClass self)
  = None ->
  exists r',
    QCompilerPYZ.compile fuel self w
    = (Ok tt, set_stderr (set_root w r')
                (stderr w ++ complaints (QCompilerPYC.optimize c)
                               (QCompilerPYZ.path self) (Dir es))%list)
    /\ FS.lookup pb r'
       = Some (Dir (FS.set (QCompilerPYZ.name self)
                      (File (zipapp_archive
                               (Dir (mirror (QCompilerPYC.optimize c)
                                       (QCompilerPYZ.path self) (Dir es)))
                               (QCompilerPYZ.compressed self)
                               (QCompilerPYZ.mainClass self)))
                      accb
                    ++ additional (Dir es))%list)
    /\ FS.lookup (po ++ ["bin"; "pyc"; snd (posixpath.split (QCompilerPYZ.path self))])%list
         r'
       = Some (Dir (mirror (QCompilerPYC.optimize c) (QCompilerPYZ.path self) (Dir es)))
    /\ forall q, diverge pb q -> diverge po q -> FS.lookup q r' = FS.lookup q (root w).
Proof.
  intros Hcheck Hinner Hcls Hclean Hpath Hwf Hfuel _ Hrp Hlp Hfree Hpname Hrb Hlb Hro
    Hne Hlo Hdpb Hdpo Hdob Haname Hadir Hfresh Hzip.
  set (pname := snd (posixpath.split (QCompilerPYZ.path self))) in *.
  set (aname := QCompilerPYZ.name self) in *.
  set (opt := QCompilerPYC.optimize c) in *.
  set (M := mirror opt (QCompilerPYZ.path self) (Dir es)) in *.
  set (archive := zipapp_archive (Dir M) (QCompilerPYZ.compressed self)
                    (QCompilerPYZ.mainClass self)).
  pose proof (wf_lookup _ _ _ Hwf Hlp) as Hwfs.
  pose proof (wf_lookup _ _ _ Hwf Hlo) as Hwfo.
  pose proof (height_lookup _ _ _ Hlp) as Hhs.
  pose proof (height_lookup _ _ _ Hlo) as Hho.
  assert (Hroot : 1 <= FS.height (root w)).
  { destruct (root w); [discriminate Hlp + (destruct pp; discriminate Hlp)|cbn; lia]. }
  (* the paths under obj/pyz *)
  assert (Hro' : os.resolve w "obj/pyz" = Some po).
  { rewrite <- Hro. symmetry. apply (resolve_trailing_slash w "obj/pyz"). discriminate. }
  assert (Hrob : os.resolve w "obj/pyz/bin" = Some (po ++ ["bin"])%list).
  { exact (resolve_child w "obj/pyz" "bin" po eq_refl Hro'). }
  assert (Hrout : os.resolve w "obj/pyz/bin/pyc" = Some ((po ++ ["bin"]) ++ ["pyc"])%list).
  { exact (resolve_child w "obj/pyz/bin" "pyc" _ eq_refl Hrob). }
  assert (Hrsrc : os.resolve w ("obj/pyz/bin/pyc" ++ "/" ++ pname)
                  = Some (((po ++ ["bin"]) ++ ["pyc"]) ++ [pname])%list).
  { exact (resolve_child w "obj/pyz/bin/pyc" pname _ Hpname Hrout). }
  (* obj/pyz is removed *)
  destruct (unsnoc_some po Hne) as (paro & o & ->).
  pose proof Hlo as Hlo'. rewrite lookup_snoc in Hlo'.
  destruct (FS.lookup paro (root w)) as [[d|eparo]|] eqn:Hlparo; try discriminate.
  destruct (clean_directory_removes fuel w "obj/pyz/" paro o eo Hro Hlo Hwfo)
    as (r1 & Hrem & Hclean_run); [lia|].
  pose proof (modify_at paro _ _ _ eparo Hlparo Hrem) as Hlparo1.
  assert (Hfo : FS.find o (FS.del o eparo) = None).
  { apply find_del_same. exact (wf_lookup _ _ _ Hwf Hlparo). }
  assert (Hrem' : FS.remove_entry (paro ++ [o])%list (root w) = Some r1).
  { unfold FS.remove_entry. now rewrite unsnoc_snoc. }
  (* obj/pyz/bin/pyc is created *)
  destruct (modify_spec paro (FS.set o (chain ["bin"; "pyc"])) r1 _ Hlparo1)
    as (r2 & Hr2 & Hlparo2).
  assert (Epout : (((paro ++ [o]) ++ ["bin"]) ++ ["pyc"])%list
                  = (paro ++ o :: ["bin"; "pyc"])%list).
  { now rewrite <- !app_assoc. }
  assert (Hmk : FS.mkdirs (((paro ++ [o]) ++ ["bin"]) ++ ["pyc"])%list r1 = Some r2).
  { rewrite Epout, (mkdirs_fresh paro o _ r1 _ Hlparo1 Hfo). exact Hr2. }
  assert (Hgone : FS.lookup (((paro ++ [o]) ++ ["bin"]) ++ ["pyc"])%list r1 = None).
  { now rewrite !lookup_snoc, Hlparo1, Hfo. }
  assert (Hlbin2 : FS.lookup ((paro ++ [o]) ++ ["bin"])%list r2
                   = Some (Dir [("pyc", Dir [])])).
  { now rewrite !lookup_snoc, Hlparo2, find_set_same. }
  assert (Hfr2 : forall q, diverge (paro ++ [o])%list q ->
                           FS.lookup q r2 = FS.lookup q (root w)).
  { intros q Hq. rewrite (set_frame paro q o _ _ _ Hq Hr2).
    exact (lookup_remove_diverge _ q _ _ Hq Hrem'). }
  (* the inner compiler *)
  set (c' := QCompilerPYC.set_output c "obj/pyz/bin/pyc").
  assert (Hdout : forall q, diverge (paro ++ [o])%list q ->
                            diverge (((paro ++ [o]) ++ ["bin"]) ++ ["pyc"])%list q).
  { intros q Hq. now apply diverge_under, diverge_under. }
  destruct (pyc_compile_rebuilds fuel c' (set_root w r2) (set_root w r2) pp
              ((paro ++ [o]) ++ ["bin"])%list "pyc" es [] [("pyc", Dir [])])
    as (r2a & r3 & Hdel3 & Hset3 & Hrun3); auto; try lia.
  { cbn [c' QCompilerPYC.path QCompilerPYC.set_output]. rewrite Hpath. apply Hcheck. }
  { cbn [c' QCompilerPYC.path QCompilerPYC.set_output]. rewrite Hpath. exact Hrp. }
  { cbn [root set_root]. rewrite (Hfr2 pp (diverge_sym _ _ Hdpo)). exact Hlp. }
  { cbn [c' QCompilerPYC.path QCompilerPYC.set_output]. rewrite Hpath. exact Hpname. }
  { cbn [FS.height]. lia. }
  { apply diverge_sym, Hdout, diverge_sym, Hdpo. }
  cbn [c' QCompilerPYC.path QCompilerPYC.set_output QCompilerPYC.optimize] in Hset3, Hrun3.
  rewrite Hpath in Hset3, Hrun3. fold opt in Hset3, Hrun3. fold pname in Hset3.
  fold M in Hset3. cbn [root set_root stderr] in Hdel3, Hrun3.
  assert (Hfr3 : forall q, diverge (paro ++ [o])%list q ->
                           FS.lookup q r3 = FS.lookup q (root w)).
  { intros q Hq. rewrite (rebuild_frame _ q "pyc" _ _ _ _ Hdel3 Hset3 (Hdout q Hq)).
    now apply Hfr2. }
  pose proof (rebuild_at _ "pyc" _ _ _ _ Hdel3 Hset3) as Hlout3.
  (* the archive *)
  set (w3 := set_stderr (set_root w r3)
               (stderr w ++ complaints opt (QCompilerPYZ.path self) (Dir es))%list).
  assert (Hsrc3 : os.stat w3 ("obj/pyz/bin/pyc" ++ "/" ++ pname) = Some (Dir M)).
  { unfold os.stat. change (os.resolve w3) with (os.resolve w). rewrite Hrsrc.
    cbn [w3 root set_stderr set_root]. rewrite lookup_snoc, Hlout3.
    cbn [FS.find]. now rewrite String.eqb_refl. }
  assert (Hlb3 : FS.lookup pb (root w3) = Some (Dir accb)).
  { cbn [w3 root set_stderr set_root]. rewrite (Hfr3 pb Hdob). exact Hlb. }
  assert (Hd3 : diverge pb ((((paro ++ [o]) ++ ["bin"]) ++ ["pyc"]) ++ [pname])%list).
  { apply diverge_sym. now apply diverge_under, diverge_under, diverge_under. }
  assert (Hls3 : FS.lookup ((((paro ++ [o]) ++ ["bin"]) ++ ["pyc"]) ++ [pname])%list
                   (root w3) = Some (Dir M)).
  { unfold os.stat in Hsrc3. change (os.resolve w3) with (os.resolve w) in Hsrc3.
    now rewrite Hrsrc in Hsrc3. }
  destruct (create_archive_run self w3 ("obj/pyz/bin/pyc" ++ "/" ++ pname) "bin/pyz/"
              aname (Dir M) _ pb accb Hrsrc Hls3 Hzip Hrb eq_refl Haname Hlb3 Hadir)
    as (r3a & tree1 & r4 & Hmod3a & Hl3a & Hrun4 & Hmod4).
  rewrite (modify_frame pb _ _ _ _ Hd3 Hmod3a), Hls3 in Hl3a.
  injection Hl3a as <-. fold archive in Hmod4.
  cbn [w3 root set_stderr set_root] in Hmod4.
  pose proof (modify_at pb _ _ _ accb (eq_trans (Hfr3 pb Hdob) Hlb) Hmod4) as Hlb4.
  (* the other files *)
  assert (Hlp4 : FS.lookup pp r4 = Some (Dir es)).
  { rewrite (modify_frame pb pp _ _ _ (diverge_sym _ _ Hdpb) Hmod4).
    rewrite (Hfr3 pp (diverge_sym _ _ Hdpo)). exact Hlp. }
  destruct (copy_additional_files_run fuel (set_root w3 r4) (QCompilerPYZ.path self)
              "bin/pyz/" pp pb es (FS.set aname (File archive) accb)
              Hrp Hrb Hdpb Hlp4 Hwfs Hlb4) as (r5 & Hrun5 & Hmod5); [|lia|].
  { intros n c0 Hin. destruct (Hfresh n c0 Hin) as (Hn & Hna).
    rewrite find_set_other by congruence. exact Hn. }
  cbn [root set_root] in Hmod5.
  exists r5. split; [|split; [|split]].
  - unfold QCompilerPYZ.compile.
    rewrite (bind_ok _ _ _ _ _ (Hcheck w)).
    unfold bind at 1. unfold os.path_exists, os.stat. rewrite Hrb, Hlb.
    cbn [FS.is_some negb when]. unfold bind at 1. unfold ret at 1.
    rewrite Hinner.
    unfold bind at 1. unfold os.path_exists, os.stat. rewrite Hro, Hlo.
    cbn [FS.is_some negb when]. unfold bind at 1. unfold ret at 1.
    unfold bind at 1. rewrite Hclean_run. rewrite Hcls.
    change ("obj/pyz/" ++ "bin/pyc") with "obj/pyz/bin/pyc".
    unfold bind at 1. cbv beta.
    change (os.resolve (set_root w r1) "obj/pyz/bin/pyc")
      with (os.resolve w "obj/pyz/bin/pyc").
    rewrite Hrout. cbn [root set_root]. rewrite Hgone.
    cbn [FS.is_some negb when]. unfold bind at 1. unfold os.makedirs.
    change (os.resolve (set_root w r1)) with (os.resolve w).
    rewrite Hrout. cbn [root set_root]. rewrite Hgone, Hmk.
    unfold bind at 1. rewrite set_root_twice. fold c'. rewrite Hrun3.
    unfold bind at 1.
    match goal with
    | |- context [QCompilerPYZ.create_archive self ?a ?b ?v] =>
        change (QCompilerPYZ.create_archive self a b v)
          with (QCompilerPYZ.create_archive self ("obj/pyz/bin/pyc" ++ "/" ++ pname)
                  ("bin/pyz/" ++ aname) w3)
    end.
    rewrite Hrun4, Hrun5. reflexivity.
  - exact (modify_at pb _ _ _ _ Hlb4 Hmod5).
  - replace ((paro ++ [o]) ++ ["bin"; "pyc"; pname])%list
      with (((((paro ++ [o]) ++ ["bin"]) ++ ["pyc"]) ++ [pname]))%list
      by now rewrite <- !app_assoc.
    rewrite (modify_frame pb _ _ _ _ Hd3 Hmod5), (modify_frame pb _ _ _ _ Hd3 Hmod4).
    rewrite lookup_snoc, Hlout3. cbn [FS.find]. now rewrite String.eqb_refl.
  - intros q Hq1 Hq2.
    rewrite (modify_frame pb q _ _ _ Hq1 Hmod5), (modify_frame pb q _ _ _ Hq1 Hmod4).
    now apply Hfr3.
Qed.

Lemma pyz_compile_builds_the_archive_witness :
  exists r',
    @QCompilerPYZ.compile sample_tools 5
      (QCompilerPYZ.init "proj" "app.pyz" "__init__:main" true
         (Some (QCompilerPYZ.Instance sample_pyc)) true)
      pyz_staged_world
    = (Ok tt, set_stderr (set_root pyz_staged_world r')
                (stderr pyz_staged_world
                 ++ @complaints sample_tools (QCompilerPYC.optimize sample_pyc)
                      "proj" (Dir sample_sources))%list)
    /\ FS.lookup ["bin"; "pyz"] r'
       = Some (Dir (FS.set "app.pyz" (File "archive for __init__:main") []
                    ++ additional (Dir sample_sources))%list)
    /\ FS.lookup (["obj"; "pyz"] ++ ["bin"; "pyc"; snd (posixpath.split "proj")])%list r'
       = Some (Dir (@mirror sample_tools (QCompilerPYC.optimize sample_pyc) "proj"
                      (Dir sample_sources)))
    /\ forall q, diverge ["bin"; "pyz"] q -> diverge ["obj"; "pyz"] q ->
                 FS.lookup q r' = FS.lookup q (root pyz_staged_world).
Proof.
  apply (@pyz_compile_builds_the_archive sample_tools 5
           (QCompilerPYZ.init "proj" "app.pyz" "__init__:main" true
              (Some (QCompilerPYZ.Instance sample_pyc)) true)
           sample_pyc pyz_staged_world ["proj"] ["bin"; "pyz"] ["obj"; "pyz"]
           sample_sources [] []); try reflexivity.
  - vm_compute. lia.
  - discriminate.
  - exists [], "proj", "bin", [], ["pyz"]. repeat split. discriminate.
  - exists [], "proj", "obj", [], ["pyz"]. repeat split. discriminate.
  - exists [], "obj", "bin", ["pyz"], ["pyz"]. repeat split. discriminate.
  - intros n c [E|[E|[E|[E|[]]]]]; injection E as <- <-; split;
      (reflexivity || discriminate).
Defined.
